(** * Mongod.js: a shallow embedding and its verified properties

    The development follows [Mongod.js] top-down: the regular expressions of
    the module header, the static helpers of class [Mongod]
    ([getTextLineAggregator], [parseConfig], [parseFlags], [open], [close]),
    the constructor and the two prototype methods.

    Conventions.
    - A JavaScript string is a [string]: a sequence of code units below 256.
    - A JavaScript object used as a record of options is a [gmap string value].
    - A number is a [VNum] when it is an integer that a double holds exactly;
      [Number(s)] of any other text stays symbolic ([VNumberOf]).
    - Event-driven code is modelled by explicit state passing over a [World]
      record; every externally triggered callback is an [action], and the
      log of a world keeps what was emitted, spawned, killed, queued,
      started and settled, oldest first.
    - [child_process.spawn] checks its arguments and throws before it
      starts anything when it refuses them ([ChildProcess.refusal]); else it
      hands back a handle. The 'error' event of a child (a binary that is
      not found), a failure of the operating system at [spawn], the
      listeners that a caller puts on the events of the instance, and the
      'exit' hook of the controlling process, which calls [close()], are
      not part of the model: a call of the caller is an [action]. *)

From Stdlib Require Import ZArith Ascii String List Bool Lia.
From stdpp Require Import gmap strings list fin_maps.

Local Open Scope string_scope.
Local Open Scope list_scope.

#[local] Arguments String.append !_ _ / : simpl nomatch.

(** ** Character classes and string primitives *)

Module Js.

Definition LF : ascii := "010"%char.
Definition CR : ascii := "013"%char.

(** [\d] *)
Definition isDigit (c : ascii) : bool :=
  let n := nat_of_ascii c in (48 <=? n)%nat && (n <=? 57)%nat.

(** [\s] and the characters stripped by [String.prototype.trim], restricted
    to code units below 256: TAB, LF, VT, FF, CR, SPACE and NBSP. *)
Definition isSpace (c : ascii) : bool :=
  let n := nat_of_ascii c in
  ((9 <=? n)%nat && (n <=? 13)%nat) || (n =? 32)%nat || (n =? 160)%nat.

(** Canonicalisation used by a case-insensitive regular expression when it
    compares against an ASCII pattern character: only [A-Z] fold. *)
Definition foldCase (c : ascii) : ascii :=
  let n := nat_of_ascii c in
  if (65 <=? n)%nat && (n <=? 90)%nat then ascii_of_nat (n + 32) else c.

(** One code unit of [String.prototype.toLowerCase]: [A-Z] and the upper-case
    letters of the Latin-1 supplement (U+00C0 to U+00DE except U+00D7). *)
Definition lowerChar (c : ascii) : ascii :=
  let n := nat_of_ascii c in
  if ((65 <=? n)%nat && (n <=? 90)%nat)
     || ((192 <=? n)%nat && (n <=? 222)%nat && negb (n =? 215)%nat)
  then ascii_of_nat (n + 32) else c.

(** [a-z], the letters of the patterns of this file. *)
Definition isLower (c : ascii) : bool :=
  let n := nat_of_ascii c in (97 <=? n)%nat && (n <=? 122)%nat.

Fixpoint all (p : ascii -> bool) (s : string) : bool :=
  match s with
  | EmptyString => true
  | String c r => p c && all p r
  end.

Fixpoint mapString (f : ascii -> ascii) (s : string) : string :=
  match s with
  | EmptyString => EmptyString
  | String c r => String (f c) (mapString f r)
  end.

Definition toLowerCase : string -> string := mapString lowerChar.

Fixpoint dropWhile (p : ascii -> bool) (s : string) : string :=
  match s with
  | EmptyString => EmptyString
  | String c r => if p c then dropWhile p r else s
  end.

Fixpoint rev (s : string) : string :=
  match s with
  | EmptyString => EmptyString
  | String c r => rev r +:+ String c EmptyString
  end.

(** [String.prototype.trim] *)
Definition trim (s : string) : string :=
  rev (dropWhile isSpace (rev (dropWhile isSpace s))).

(** [s.replace(whiteSpaceRE, '')] with [whiteSpaceRE = / /ig]: every U+0020
    is removed, and nothing else. *)
Fixpoint removeSpaces (s : string) : string :=
  match s with
  | EmptyString => EmptyString
  | String c r =>
      if Ascii.eqb c " "%char then removeSpaces r else String c (removeSpaces r)
  end.

(** [s.split('=')]: the list of fragments between the [=] signs. *)
Fixpoint splitEq (s : string) : list string :=
  match s with
  | EmptyString => [EmptyString]
  | String c r =>
      if Ascii.eqb c "="%char then EmptyString :: splitEq r
      else match splitEq r with
           | f :: fs => String c f :: fs
           | [] => [String c EmptyString]
           end
  end.

(** [s.split(newlineRE)] with [newlineRE = /\r?\n/]: at each position the
    separator is CR LF when both are there, else a lone LF; a CR that no LF
    follows stays in its fragment. *)
Fixpoint splitNewline (s : string) : list string :=
  match s with
  | EmptyString => [EmptyString]
  | String c r =>
      if Ascii.eqb c LF then EmptyString :: splitNewline r
      else
        let keep := match splitNewline r with
                    | f :: fs => String c f :: fs
                    | [] => [String c EmptyString]
                    end in
        match r with
        | String c' r' =>
            if Ascii.eqb c CR && Ascii.eqb c' LF
            then EmptyString :: splitNewline r'
            else keep
        | EmptyString => keep
        end
  end.

End Js.

(** ** JavaScript values *)

#[local] Set Warnings "-register-all".

Inductive value : Type :=
| VUndefined
| VNull
| VBool (b : bool)
| VNum (n : Z)               (* an integer that a double holds exactly *)
| VNaN
| VNumberOf (s : string)     (* [Number(s)] for any other string, left symbolic *)
| VStr (s : string)
| VFunction
| VError (name message : string) (code : value)
| VObject (fields : gmap string value).

(** [typeof x] *)
Definition typeOf (v : value) : string :=
  match v with
  | VUndefined => "undefined"
  | VNull | VObject _ | VError _ _ _ => "object"
  | VBool _ => "boolean"
  | VNum _ | VNaN | VNumberOf _ => "number"
  | VStr _ => "string"
  | VFunction => "function"
  end.

(** [x != null] *)
Definition notNullish (v : value) : bool :=
  match v with
  | VUndefined | VNull => false
  | _ => true
  end.

(** ** [Mongod.getTextLineAggregator] *)

Module Aggregator.

(** One call of the closure returned by [getTextLineAggregator(callback)]:
    from the closed-over [buffer] and the chunk [data] to the new buffer and
    the array [lines], whose elements the [for] loop hands to [callback] one
    by one.

    [lines[0] = buffer + lines[0]] is an assignment at index 0: on an empty
    array, [lines[0]] reads [undefined], the sum is the buffer followed by
    the text "undefined", and the assignment extends the array to length 1. *)
Definition getTextLineAggregator (buffer data : string)
    : string * list string :=
  let fragments := Js.splitNewline data in
  let lines := removelast fragments in
  let lines :=
    match lines with
    | [] => [buffer +:+ "undefined"]
    | l0 :: ls => (buffer +:+ l0) :: ls
    end in
  (List.last fragments EmptyString, lines).

(** The closure fed a sequence of chunks: the arguments of the calls of
    [callback], in order, when the buffer starts as [buffer]. *)
Fixpoint feed (buffer : string) (chunks : list string) : list string :=
  match chunks with
  | [] => []
  | data :: rest =>
      let '(buffer', lines) := getTextLineAggregator buffer data in
      lines ++ feed buffer' rest
  end.

(** The newline-terminated lines of a text: every fragment but the last. *)
Definition terminatedLines (text : string) : list string :=
  removelast (Js.splitNewline text).

Definition concat (chunks : list string) : string :=
  fold_right String.append EmptyString chunks.

End Aggregator.

(** ** The regular expressions of the module header *)

Module RegExp.

(** A matcher is tried at the head of its input and splits it into the text
    it matched and the rest. *)
Definition matcher : Type := string -> option (string * string).

(** A literal of a pattern with flag [i]; the literals of this file are
    written in lower case. *)
Fixpoint lit (p : string) : matcher :=
  fun s =>
    match p with
    | EmptyString => Some (EmptyString, s)
    | String x p' =>
        match s with
        | String c r =>
            if Ascii.eqb (Js.foldCase c) x then
              match lit p' r with
              | Some (m, rest) => Some (String c m, rest)
              | None => None
              end
            else None
        | EmptyString => None
        end
    end.

(** The longest prefix whose characters satisfy [p]. *)
Fixpoint span (p : ascii -> bool) (s : string) : string * string :=
  match s with
  | String c r =>
      if p c then let '(m, rest) := span p r in (String c m, rest)
      else (EmptyString, s)
  | EmptyString => (EmptyString, EmptyString)
  end.

(** [\d+] and [\s+]: greedy, one character at least. In [keyRE] whatever
    follows a [\s+] starts with a letter, so giving characters back could
    not turn a failure into a match. *)
Definition many1 (p : ascii -> bool) : matcher :=
  fun s =>
    match span p s with
    | (EmptyString, _) => None
    | (m, rest) => Some (m, rest)
    end.

(** [(.|\n)*]: [.] is any character but a line terminator, and the
    alternative gives LF back, which leaves CR out. *)
Definition restOfLine : matcher :=
  fun s => Some (span (fun c => negb (Ascii.eqb c Js.CR)) s).

Definition seq (m1 m2 : matcher) : matcher :=
  fun s =>
    match m1 s with
    | Some (a, r) =>
        match m2 r with
        | Some (b, r') => Some (a +:+ b, r')
        | None => None
        end
    | None => None
    end.

(** Ordered choice: the first alternative that matches. *)
Definition alt (m1 m2 : matcher) : matcher :=
  fun s => match m1 s with Some x => Some x | None => m2 s end.

Definition spaces : matcher := many1 Js.isSpace.
Definition digits : matcher := many1 Js.isDigit.

(** Three words with [\s+] between them. *)
Definition phrase (a b c : string) : matcher :=
  seq (lit a) (seq spaces (seq (lit b) (seq spaces (lit c)))).

(** The six alternatives of [keyRE], in the order of the source. *)
Definition pidRE : matcher := seq (lit "pid=") digits.
Definition portRE : matcher := seq (lit "port=") digits.
Definition waitingRE : matcher := phrase "waiting" "for" "connections".
Definition inUseRE : matcher := phrase "already" "in" "use".
Definition deniedRE : matcher := phrase "denied" "for" "socket".
Definition errorWord : matcher :=
  alt (lit "error") (alt (lit "exception") (lit "badvalue")).
Definition genericRE : matcher := seq errorWord restOfLine.

(** The alternatives that stand for a failure of the server. *)
Definition failureRE : matcher := alt inUseRE (alt deniedRE genericRE).

(** [keyRE] tried at one position. *)
Definition keyRE : matcher :=
  alt pidRE (alt portRE (alt waitingRE failureRE)).

(** [value.match(keyRE)] with flag [g]: the matched texts from left to right,
    each search resuming where the previous match ended; [skip] counts the
    characters of the last match that are still to be passed. The empty
    list stands for the [null] of a search without a match. *)
Fixpoint matchAll (skip : nat) (s : string) : list string :=
  match s with
  | EmptyString => []
  | String _ r =>
      match skip with
      | S k => matchAll k r
      | O =>
          match keyRE s with
          | Some (m, _) => m :: matchAll (String.length m - 1) r
          | None => matchAll 0 r
          end
      end
  end.

Definition match_keyRE (value : string) : list string := matchAll 0 value.

(** [re.test(s)] for a pattern without [^]: a match at some position. *)
Fixpoint search (m : matcher) (s : string) : bool :=
  match m s with
  | Some _ => true
  | None =>
      match s with
      | EmptyString => false
      | String _ r => search m r
      end
  end.

(** [errorRE.test(s)] with [errorRE = /^error|exception|badvalue/i]: the
    anchor binds to the first alternative only. *)
Definition errorRE_test (s : string) : bool :=
  match lit "error" s with
  | Some _ => true
  | None => search (lit "exception") s || search (lit "badvalue") s
  end.

End RegExp.

(** ** Configuration: [parseConfig], [parseFlags] *)

(** [o.k] on an options object; a field that is not there reads [undefined]. *)
Definition get (o : gmap string value) (k : string) : value :=
  default VUndefined (o !! k).

(** [source.k] for [k] among [bin], [conf], [dbpath] and [port]: a value that
    is not an options object has none of them. *)
Definition prop (source : value) (k : string) : value :=
  match source with
  | VObject o => get o k
  | _ => VUndefined
  end.

(** [Number(v)] for the [v] of [matchHandler]: a missing fragment is
    [undefined]; a text of decimal digits is its value while a double holds it
    exactly. *)
Fixpoint digitsValue (acc : Z) (s : string) : option Z :=
  match s with
  | EmptyString => Some acc
  | String c r =>
      if Js.isDigit c
      then digitsValue (10 * acc + (Z.of_nat (nat_of_ascii c) - 48)) r
      else None
  end.

Definition Number (v : option string) : value :=
  match v with
  | None => VNaN
  | Some EmptyString => VNum 0
  | Some s =>
      match digitsValue 0 s with
      | Some n => if (n <=? 2 ^ 53)%Z then VNum n else VNumberOf s
      | None => VNumberOf s
      end
  end.

(** ** [child_process.spawn] *)

Module ChildProcess.

(** The text holds the character U+0000. *)
Definition hasNul (s : string) : bool :=
  negb (Js.all (fun c => negb (Ascii.eqb c "000"%char)) s).

Definition typeError (message code : string) : value :=
  VError "TypeError" message (VStr code).

(** [child_process.spawn(command, args)] belongs to Node.js and is not among
    the sources. Before it starts anything it checks its arguments, in this
    order, and throws a [TypeError]: for a [command] that is not a string
    (code 'ERR_INVALID_ARG_TYPE'), for one that holds U+0000 or is empty,
    and for a string of [args] that holds U+0000 (code
    'ERR_INVALID_ARG_VALUE'). [refusal] is what is thrown, and [None] when
    the arguments are accepted; the messages are cut down to their fixed
    part. Any other value in [args] is turned into a string. *)
Definition refusal (command : value) (args : list value) : option value :=
  match command with
  | VStr s =>
      if hasNul s then
        Some (typeError "The argument 'file' must be a string without null bytes"
                "ERR_INVALID_ARG_VALUE")
      else if String.eqb s EmptyString then
        Some (typeError "The argument 'file' cannot be empty"
                "ERR_INVALID_ARG_VALUE")
      else if existsb (fun a => match a with
                                | VStr t => hasNul t
                                | _ => false
                                end) args then
        Some (typeError "The argument 'args' must be a string without null bytes"
                "ERR_INVALID_ARG_VALUE")
      else None
  | _ =>
      Some (typeError "The 'file' argument must be of type string"
              "ERR_INVALID_ARG_TYPE")
  end.

End ChildProcess.

(** ** The instance and the world around it *)

Record Server := {
  config : gmap string value;
  pid : value;
  port : value;
  process : option nat;          (* handle of the child process, or [null] *)
  openPromise : nat;
  closePromise : nat;
  isClosing : bool;
  isRunning : bool;
  isOpening : bool
}.

Inductive settlement :=
| Pending
| Resolved (v : value)
| Rejected (e : value).

Inductive generator := OpenBody | CloseBody.

(** An entry of the queue: the function handed to [promiseQueue.add] and the
    promise that [add] returned for it. *)
Record item := { body : generator; outer : nat }.

Inductive stream := Stdout | Stderr.

(** What a child process carries of the closures of one open body. *)
Record Proc := {
  attached : bool;       (* [dataHandler] listens to 'data' of both streams *)
  buffer : string;       (* the buffer of [dataHandler], one for both streams *)
  outBuffer : string;    (* the buffer of the 'stdout' propagator *)
  errBuffer : string;    (* the buffer of the 'stderr' propagator *)
  settles : nat;         (* the promise of [resolve] and [reject] *)
  onceClose : list nat;  (* promises resolved by the [once('close')] listeners *)
  closed : bool          (* 'close' has been emitted *)
}.

Inductive event :=
| Enqueue (i : item)
| BodyStart (i : item) (inner : nat)
| Settle (promise : nat)
| Emit (name : string) (args : list value)
| Spawn (p : nat) (bin : value) (flags : list value)
| Kill (p : nat).

Record World := {
  server : Server;
  promises : list settlement;       (* every promise created so far *)
  queue : list item;                (* [promiseQueue]: entries not started *)
  pendingPromises : nat;            (* [promiseQueue]: generators in flight *)
  reactions : list (nat * item);    (* [promiseQueue]: generator promise and its entry *)
  procs : list Proc;                (* every child process spawned so far *)
  uncaught : bool;                  (* an exception escaped a listener *)
  log : list event                  (* what happened, oldest first *)
}.

Definition setServer (f : Server -> Server) (w : World) : World :=
  {| server := f (server w); promises := promises w; queue := queue w;
     pendingPromises := pendingPromises w; reactions := reactions w;
     procs := procs w; uncaught := uncaught w; log := log w |}.

Definition record (e : event) (w : World) : World :=
  {| server := server w; promises := promises w; queue := queue w;
     pendingPromises := pendingPromises w; reactions := reactions w;
     procs := procs w; uncaught := uncaught w; log := log w ++ [e] |}.

Definition setPromises (ps : list settlement) (w : World) : World :=
  {| server := server w; promises := ps; queue := queue w;
     pendingPromises := pendingPromises w; reactions := reactions w;
     procs := procs w; uncaught := uncaught w; log := log w |}.

Definition setProcs (ps : list Proc) (w : World) : World :=
  {| server := server w; promises := promises w; queue := queue w;
     pendingPromises := pendingPromises w; reactions := reactions w;
     procs := ps; uncaught := uncaught w; log := log w |}.

Definition throwUncaught (w : World) : World :=
  {| server := server w; promises := promises w; queue := queue w;
     pendingPromises := pendingPromises w; reactions := reactions w;
     procs := procs w; uncaught := true; log := log w |}.

Definition setQueue (q : list item) (n : nat) (rs : list (nat * item))
    (w : World) : World :=
  {| server := server w; promises := promises w; queue := q;
     pendingPromises := n; reactions := rs;
     procs := procs w; uncaught := uncaught w; log := log w |}.

Definition withConfig (c : gmap string value) (s : Server) : Server :=
  {| config := c; pid := pid s; port := port s; process := process s;
     openPromise := openPromise s; closePromise := closePromise s;
     isClosing := isClosing s; isRunning := isRunning s;
     isOpening := isOpening s |}.
Definition withPid (v : value) (s : Server) : Server :=
  {| config := config s; pid := v; port := port s; process := process s;
     openPromise := openPromise s; closePromise := closePromise s;
     isClosing := isClosing s; isRunning := isRunning s;
     isOpening := isOpening s |}.
Definition withPort (v : value) (s : Server) : Server :=
  {| config := config s; pid := pid s; port := v; process := process s;
     openPromise := openPromise s; closePromise := closePromise s;
     isClosing := isClosing s; isRunning := isRunning s;
     isOpening := isOpening s |}.
Definition withProcess (p : option nat) (s : Server) : Server :=
  {| config := config s; pid := pid s; port := port s; process := p;
     openPromise := openPromise s; closePromise := closePromise s;
     isClosing := isClosing s; isRunning := isRunning s;
     isOpening := isOpening s |}.
Definition withOpenPromise (p : nat) (s : Server) : Server :=
  {| config := config s; pid := pid s; port := port s; process := process s;
     openPromise := p; closePromise := closePromise s;
     isClosing := isClosing s; isRunning := isRunning s;
     isOpening := isOpening s |}.
Definition withClosePromise (p : nat) (s : Server) : Server :=
  {| config := config s; pid := pid s; port := port s; process := process s;
     openPromise := openPromise s; closePromise := p;
     isClosing := isClosing s; isRunning := isRunning s;
     isOpening := isOpening s |}.
Definition withClosing (b : bool) (s : Server) : Server :=
  {| config := config s; pid := pid s; port := port s; process := process s;
     openPromise := openPromise s; closePromise := closePromise s;
     isClosing := b; isRunning := isRunning s; isOpening := isOpening s |}.
Definition withRunning (b : bool) (s : Server) : Server :=
  {| config := config s; pid := pid s; port := port s; process := process s;
     openPromise := openPromise s; closePromise := closePromise s;
     isClosing := isClosing s; isRunning := b; isOpening := isOpening s |}.
Definition withOpening (b : bool) (s : Server) : Server :=
  {| config := config s; pid := pid s; port := port s; process := process s;
     openPromise := openPromise s; closePromise := closePromise s;
     isClosing := isClosing s; isRunning := isRunning s; isOpening := b |}.

(** [server.emit(name, ...args)]; the listeners of the caller are not part
    of the model. *)
Definition emit (name : string) (args : list value) : World -> World :=
  record (Emit name args).

(** [new Promise(...)]: a fresh pending promise, named by its index. *)
Definition newPromise (w : World) : World * nat :=
  (setPromises (promises w ++ [Pending]) w, length (promises w)).

(** [resolve(v)] and [reject(e)] of promise [i]: the first call settles it,
    a later call does nothing. *)
Definition settle (i : nat) (s : settlement) (w : World) : World :=
  match promises w !! i with
  | Some Pending => record (Settle i) (setPromises (<[i := s]> (promises w)) w)
  | _ => w
  end.

Definition isSettled (w : World) (i : nat) : bool :=
  match promises w !! i with
  | Some Pending | None => false
  | Some _ => true
  end.

Definition setProc (p : nat) (f : Proc -> Proc) (w : World) : World :=
  match procs w !! p with
  | Some pr => setProcs (<[p := f pr]> (procs w)) w
  | None => w
  end.

Definition withAttached (b : bool) (pr : Proc) : Proc :=
  {| attached := b; buffer := buffer pr; outBuffer := outBuffer pr;
     errBuffer := errBuffer pr; settles := settles pr;
     onceClose := onceClose pr; closed := closed pr |}.
Definition withBuffer (s : string) (pr : Proc) : Proc :=
  {| attached := attached pr; buffer := s; outBuffer := outBuffer pr;
     errBuffer := errBuffer pr; settles := settles pr;
     onceClose := onceClose pr; closed := closed pr |}.
Definition withStreamBuffer (st : stream) (s : string) (pr : Proc) : Proc :=
  {| attached := attached pr; buffer := buffer pr;
     outBuffer := match st with Stdout => s | Stderr => outBuffer pr end;
     errBuffer := match st with Stderr => s | Stdout => errBuffer pr end;
     settles := settles pr; onceClose := onceClose pr; closed := closed pr |}.
Definition withOnceClose (l : list nat) (pr : Proc) : Proc :=
  {| attached := attached pr; buffer := buffer pr; outBuffer := outBuffer pr;
     errBuffer := errBuffer pr; settles := settles pr;
     onceClose := l; closed := closed pr |}.
Definition withClosed (b : bool) (pr : Proc) : Proc :=
  {| attached := attached pr; buffer := buffer pr; outBuffer := outBuffer pr;
     errBuffer := errBuffer pr; settles := settles pr;
     onceClose := onceClose pr; closed := b |}.

Definition streamBuffer (st : stream) (pr : Proc) : string :=
  match st with Stdout => outBuffer pr | Stderr => errBuffer pr end.

Definition streamName (st : stream) : string :=
  match st with Stdout => "stdout" | Stderr => "stderr" end.

(** ** [promise-queue] *)

Module PromiseQueue.

(** [new PromiseQueue(1)] *)
Definition maxPendingPromises : nat := 1.

(** Modelled from the spec: [promiseQueue.add(generator)] of the package
    [promise-queue], a dependency that is not among the sources. The spec
    calls the queue a single-concurrency serialization queue: [add] puts the
    generator at the end of the queue and hands a promise back at once. *)
Definition add (g : generator) (w : World) : World * nat :=
  let '(w, p) := newPromise w in
  let i := {| body := g; outer := p |} in
  (record (Enqueue i)
     (setQueue (queue w ++ [i]) (pendingPromises w) (reactions w) w), p).

(** Modelled from the spec: the queue of [promise-queue] starts an entry
    only while fewer than [maxPendingPromises] generators are in flight. *)
Definition canStart (w : World) : bool :=
  (pendingPromises w <? maxPendingPromises)%nat.

(** Modelled from the spec: what [promise-queue] does once the promise
    [inner] of the generator of entry [i] has settled: the slot is given
    back and the settlement is passed on to the promise of [add]. *)
Definition release (inner : nat) (i : item) (w : World) : World :=
  let w := setQueue (queue w) (pendingPromises w - 1)
             (List.filter (fun r => negb (fst r =? inner)%nat) (reactions w)) w in
  match promises w !! inner with
  | Some s => settle (outer i) s w
  | None => w
  end.

End PromiseQueue.

(** ** Class [Mongod]: the static methods *)

Module Mongod.

Definition copyField (k : string) (source : value)
    (target : gmap string value) : gmap string value :=
  if notNullish (prop source k) then <[k := prop source k]> target else target.

(** [Mongod.parseConfig(source, target)]; a [target] that is [null] or
    missing is [None]. *)
Definition parseConfig (source : value) (target : option (gmap string value))
    : gmap string value :=
  let target := default ∅ target in
  if negb (notNullish source) then target
  else
    let target := copyField "bin" source target in
    if notNullish (prop source "conf") then
      <["conf" := prop source "conf"]> target
    else
      copyField "port" source (copyField "dbpath" source target).

(** [Mongod.parseFlags(config)] *)
Definition parseFlags (config : gmap string value) : list value :=
  if notNullish (get config "conf") then
    [VStr "--config"; get config "conf"]
  else
    (if notNullish (get config "dbpath")
     then [VStr "--dbpath"; get config "dbpath"] else [])
    ++ (if notNullish (get config "port")
        then [VStr "--port"; get config "port"] else []).

(** Lines 152 to 165 of [matchHandler]: the key [k] and the value [v]. *)
Definition keyValue (m : string) : string * option string :=
  if RegExp.errorRE_test m then ("error", Some (Js.trim m))
  else
    let t := Js.splitEq m in
    (Js.toLowerCase (Js.removeSpaces (hd EmptyString t)), t !! 1%nat).

(** [new Error(v)] with [err.code = code]; [new Error(undefined)] has an
    empty message. *)
Definition newError (v : option string) (code : Z) : value :=
  VError "Error" (default EmptyString v) (VNum code).

(** Lines 203 to 212: the tail of [matchHandler] after a [break]. *)
Definition finish (inner : nat) (err : value) (w : World) : World * bool :=
  let w := setServer (withOpening false) w in
  (match err with
   | VNull => settle inner (Resolved VNull) w
   | _ => settle inner (Rejected err) w
   end, true).

(** [matchHandler(match)] of the open body whose promise is [inner]. *)
Definition matchHandler (inner : nat) (m : string) (w : World) : World * bool :=
  let '(k, v) := keyValue m in
  if String.eqb k "error" then
    finish inner (newError v (-1)) w
  else if String.eqb k "alreadyinuse" then
    finish inner (newError (Some "Address already in use") (-2)) w
  else if String.eqb k "deniedforsocket" then
    finish inner (newError (Some "Permission denied") (-3)) w
  else if String.eqb k "pid" then
    (setServer (withPid (Number v)) w, false)
  else if String.eqb k "port" then
    (setServer (withPort (Number v)) w, false)
  else if String.eqb k "waitingforconnections" then
    finish inner VNull (emit "open" [] (setServer (withRunning true) w))
  else
    (w, false).

(** [server.process.stdout.removeListener('data', dataHandler)] and the same
    for [stderr], for the [dataHandler] that was attached to process [p]:
    the handle is read from [server.process] at that moment. *)
Definition removeListeners (p : nat) (w : World) : World :=
  match process (server w) with
  | None => throwUncaught w
  | Some q => if (q =? p)%nat then setProc p (withAttached false) w else w
  end.

(** The loop over [matches] in the callback of [dataHandler]. *)
Fixpoint forMatches (p inner : nat) (matches : list string) (w : World)
    : World :=
  match matches with
  | [] => w
  | m :: rest =>
      let '(w, done) := matchHandler inner m w in
      if done then removeListeners p w else forMatches p inner rest w
  end.

(** The callback of [dataHandler], run on one line; nothing runs once an
    exception has escaped. *)
Definition lineHandler (p inner : nat) (w : World) (value : string) : World :=
  if uncaught w then w
  else forMatches p inner (RegExp.match_keyRE value) w.

(** [dataHandler(data)] of process [p]. *)
Definition dataHandler (p : nat) (data : string) (w : World) : World :=
  match procs w !! p with
  | Some pr =>
      let '(buffer', lines) := Aggregator.getTextLineAggregator (buffer pr) data in
      fold_left (lineHandler p (settles pr)) lines
        (setProc p (withBuffer buffer') w)
  | None => w
  end.

(** [getDataPropagator(event)(data)] of process [p]. *)
Definition dataPropagator (p : nat) (st : stream) (data : string) (w : World)
    : World :=
  match procs w !! p with
  | Some pr =>
      let '(buffer', lines) := Aggregator.getTextLineAggregator (streamBuffer st pr) data in
      fold_left (fun w line => emit (streamName st) [VStr line] w) lines
        (setProc p (withStreamBuffer st buffer') w)
  | None => w
  end.

(** The listener of 'close' that the open body puts on its process. *)
Definition closeListener (w : World) : World :=
  emit "close" []
    (setServer
       (fun s => withClosing false (withRunning false
                   (withPid VNull (withPort VNull (withProcess None s))))) w).

(** The function queued by [Mongod.open]; [inner] is the promise it
    returns. An exception of [spawn] is thrown inside the executor of the
    promise, which rejects the promise with it: the assignment to
    [server.process] and the lines after it do not run. *)
Definition openBody (inner : nat) (w : World) : World :=
  if isClosing (server w) || isRunning (server w) then
    settle inner (Resolved VNull) (setServer (withOpening false) w)
  else
    let w := emit "opening" [] w in
    match ChildProcess.refusal (get (config (server w)) "bin")
            (parseFlags (config (server w))) with
    | Some err => settle inner (Rejected err) w
    | None =>
        let p := length (procs w) in
        let w := record (Spawn p (get (config (server w)) "bin")
                           (parseFlags (config (server w)))) w in
        let w := setServer (withProcess (Some p)) w in
        setProcs (procs w ++ [ {| attached := true; buffer := EmptyString;
                                  outBuffer := EmptyString;
                                  errBuffer := EmptyString;
                                  settles := inner; onceClose := [];
                                  closed := false |} ]) w
    end.

(** The function queued by [Mongod.close]. Reading [once] from a [null]
    handle throws inside the promise's executor, which rejects the promise. *)
Definition closeBody (inner : nat) (w : World) : World :=
  if isOpening (server w) || negb (isRunning (server w)) then
    settle inner (Resolved VNull) (setServer (withClosing false) w)
  else
    let w := emit "closing" [] w in
    match process (server w) with
    | Some q =>
        record (Kill q)
          (setProc q (fun pr => withOnceClose (onceClose pr ++ [inner]) pr) w)
    | None =>
        settle inner (Rejected (VError "TypeError"
          "Cannot read property 'once' of null" VUndefined)) w
    end.

(** [Mongod.open(server)] *)
Definition open (w : World) : World * nat :=
  if isOpening (server w) then (w, openPromise (server w))
  else
    let w := setServer (fun s => withClosing false (withOpening true s)) w in
    let '(w, promise) := PromiseQueue.add OpenBody w in
    (setServer (withOpenPromise promise) w, promise).

(** [Mongod.close(server)] *)
Definition close (w : World) : World * nat :=
  if isClosing (server w) then (w, closePromise (server w))
  else
    let w := setServer (fun s => withOpening false (withClosing true s)) w in
    let '(w, promise) := PromiseQueue.add CloseBody w in
    (setServer (withClosePromise promise) w, promise).

Definition defaultConfig : gmap string value :=
  <["bin" := VStr "mongod"]> (<["conf" := VNull]>
    (<["port" := VNum 27017]> (<["dbpath" := VNull]> ∅))).

(** [new Mongod(configOrPort)] *)
Definition constructor (configOrPort : value) : World :=
  let config :=
    if String.eqb (typeOf configOrPort) "number"
       || String.eqb (typeOf configOrPort) "string"
    then <["port" := configOrPort]> defaultConfig
    else if String.eqb (typeOf configOrPort) "object"
    then parseConfig configOrPort (Some defaultConfig)
    else defaultConfig in
  {| server := {| config := config; pid := VNull; port := VNull;
                  process := None; openPromise := 0; closePromise := 1;
                  isClosing := false; isRunning := false;
                  isOpening := false |};
     promises := [Resolved VNull; Resolved VNull];
     queue := []; pendingPromises := 0; reactions := [];
     procs := []; uncaught := false; log := [] |}.

End Mongod.

(** ** What can happen to an instance *)

Inductive action :=
| CallOpen                       (* [Mongod.open(server)] *)
| CallClose                      (* [Mongod.close(server)] *)
| Dequeue                        (* the queue starts its next entry *)
| Settled (inner : nat)          (* the queue learns that a generator promise settled *)
| Data (p : nat) (st : stream) (chunk : string)   (* 'data' on a stream of process [p] *)
| ProcClose (p : nat).           (* 'close' of process [p] *)

(** Modelled from the spec: the queue of [promise-queue] starts its first
    entry [i], whose generator runs and returns the promise [inner]. When
    an entry that can start does start is left open: a [Dequeue] may come
    right after the [add], as in a queue that starts an idle entry inside
    [add], or any time later. *)
Definition dequeue (w : World) : option World :=
  match queue w with
  | i :: q =>
      if PromiseQueue.canStart w then
        let '(w, inner) := newPromise w in
        let w := setQueue q (S (pendingPromises w))
                   (reactions w ++ [(inner, i)]) w in
        let w := record (BodyStart i inner) w in
        Some (match body i with
              | OpenBody => Mongod.openBody inner w
              | CloseBody => Mongod.closeBody inner w
              end)
      else None
  | [] => None
  end.

(** Modelled from the spec: the queue of [promise-queue] learns that the
    promise [inner] of a generator it started has settled. *)
Definition settled (inner : nat) (w : World) : option World :=
  match List.find (fun r => (fst r =? inner)%nat) (reactions w) with
  | Some (_, i) =>
      if isSettled w inner then Some (PromiseQueue.release inner i w) else None
  | None => None
  end.

(** 'data' of one stream of process [p]: [dataHandler] was attached first,
    the propagator second; an exception that escapes the first keeps the
    second from running. *)
Definition onData (p : nat) (st : stream) (chunk : string) (w : World)
    : option World :=
  match procs w !! p with
  | Some pr =>
      if closed pr then None
      else
        let w := if attached pr then Mongod.dataHandler p chunk w else w in
        Some (if uncaught w then w else Mongod.dataPropagator p st chunk w)
  | None => None
  end.

(** 'close' of process [p]: the listener of the open body, then the
    [once] listeners in the order they were added. *)
Definition onClose (p : nat) (w : World) : option World :=
  match procs w !! p with
  | Some pr =>
      if closed pr then None
      else
        let w := Mongod.closeListener w in
        let w := fold_left (fun w i => settle i (Resolved VNull) w)
                   (onceClose pr) w in
        Some (setProc p (fun pr => withClosed true (withOnceClose [] pr)) w)
  | None => None
  end.

(** One action; [None] when it cannot happen in [w]. Nothing happens after
    an uncaught exception. *)
Definition exec (a : action) (w : World) : option World :=
  if uncaught w then None
  else
    match a with
    | CallOpen => Some (fst (Mongod.open w))
    | CallClose => Some (fst (Mongod.close w))
    | Dequeue => dequeue w
    | Settled inner => settled inner w
    | Data p st chunk => onData p st chunk w
    | ProcClose p => onClose p w
    end.

Fixpoint run (acts : list action) (w : World) : option World :=
  match acts with
  | [] => Some w
  | a :: rest =>
      match exec a w with
      | Some w' => run rest w'
      | None => None
      end
  end.

(** ** The prototype methods [open(callback)] and [close(callback)] *)

Module Proto.

(** What a call of the callback does: it returns or it throws. *)
Inductive completion := Returns (v : value) | Throws (v : value).

(** [promise.then(callback).catch(callback)] once [promise] has settled as
    [s]: the argument lists of the calls of [callback], in order. [then]
    passes the value alone; [catch] passes the reason alone, be it the
    rejection of [promise] or what [callback] threw inside [then]. *)
Definition thenCatch (callback : list value -> completion) (s : settlement)
    : list (list value) :=
  match s with
  | Pending => []
  | Resolved v =>
      [v] :: match callback [v] with
             | Returns _ => []
             | Throws x => [[x]]
             end
  | Rejected e => [[e]]
  end.

(** The value a callback sees in its parameter number [i]. *)
Definition parameter (args : list value) (i : nat) : value :=
  nth i args VUndefined.

(** [server.open(callback)]: the world after the call, the promise that is
    returned, and whether a chain was put on it. *)
Definition open (callback : value) (w : World) : World * nat * bool :=
  let '(w, promise) := Mongod.open w in
  (w, promise, String.eqb (typeOf callback) "function").

Definition close (callback : value) (w : World) : World * nat * bool :=
  let '(w, promise) := Mongod.close w in
  (w, promise, String.eqb (typeOf callback) "function").

(** The calls of the callback of [open] or [close] in a world where the
    returned promise is [promise]. *)
Definition callbackCalls (callback : list value -> completion)
    (chained : bool) (promise : nat) (w : World) : list (list value) :=
  if chained then
    match promises w !! promise with
    | Some s => thenCatch callback s
    | None => []
    end
  else [].

End Proto.

(** ** Observations on a log *)

Definition emitted (name : string) (l : list event) : nat :=
  length (List.filter (fun e => match e with
                                | Emit n _ => String.eqb n name
                                | _ => false
                                end) l).

Definition spawned (l : list event) : nat :=
  length (List.filter (fun e => match e with Spawn _ _ _ => true | _ => false end) l).

(** The generator promises that were started in [l] and did not settle
    in [l]. *)
Definition track (busy : list nat) (e : event) : list nat :=
  match e with
  | BodyStart _ inner => inner :: busy
  | Settle i => List.filter (fun j => negb (j =? i)%nat) busy
  | _ => busy
  end.

Definition unsettled (l : list event) : list nat := fold_left track l [].

(** No body starts while a body that started before it is unsettled. *)
Definition serial (l : list event) : Prop :=
  forall l1 i inner l2, l = l1 ++ BodyStart i inner :: l2 -> unsettled l1 = [].

Definition enqueued (l : list event) : list item :=
  omap (fun e => match e with Enqueue i => Some i | _ => None end) l.

Definition started (l : list event) : list item :=
  omap (fun e => match e with BodyStart i _ => Some i | _ => None end) l.

Definition nl : string := String Js.LF EmptyString.

Definition cr : string := String Js.CR EmptyString.

(** ** Notions used in the statements and in their proofs *)

Section Notions.
Import Js RegExp.

(** A config with the no-journal option, a storage engine, a data path and
    a port. *)
Definition journalConfig : gmap string value :=
  <["nojournal" := VBool true]> (<["storageEngine" := VStr "inMemory"]>
    (<["dbpath" := VStr "data/db"]> (<["port" := VNum 27017]> ∅))).

(** A callback that returns. *)
Definition quietCallback : list value -> Proto.completion :=
  fun _ => Proto.Returns VUndefined.

(** The folded character [c] is not [y]. *)
Definition isNot (y c : ascii) : bool := negb (Ascii.eqb (foldCase c) y).

(** The character [x] is not [y]. *)
Definition differs (y x : ascii) : bool := negb (Ascii.eqb x y).

(** A matcher whose matches are a prefix of the input and satisfy [P]. *)
Definition Matches (P : string -> Prop) (mt : matcher) : Prop :=
  forall s m r, mt s = Some (m, r) -> s = m +:+ r /\ P m.

(** No character of a match folds to the letter [y]. *)
Definition Avoids (y : ascii) : matcher -> Prop :=
  Matches (fun m => all (isNot y) m = true).

(** The white space of [m] is made of U+0020 only. *)
Definition spaced (m : string) : bool :=
  all (fun c => negb (isSpace c) || Ascii.eqb c " "%char) m.

(** Every character folds to a letter of [a-z]. *)
Definition letters (s : string) : bool := all (fun c => isLower (foldCase c)) s.

(** No failure alternative of [keyRE] matches at a position of [pre] in the
    line [pre +:+ tail]. *)
Fixpoint failureFree (pre tail : string) : bool :=
  match pre with
  | EmptyString => true
  | String _ r =>
      match failureRE (pre +:+ tail) with
      | Some _ => false
      | None => failureFree r tail
      end
  end.

(** What a readiness signal leaves behind, from world [w] to world [w']. *)
Definition readyAfter (inner : nat) (w w' : World) : Prop :=
  isRunning (server w') = true
  /\ isOpening (server w') = false
  /\ promises w' !! inner = Some (Resolved VNull)
  /\ log w' = log w ++ [Emit "open" []; Settle inner].

(** The state of an open attempt of process [p] with promise [inner]: the
    instance holds the handle, and either the attempt is pending or
    [isOpening] is off and [dataHandler] is detached. *)
Definition attempt (p inner : nat) (w : World) : Prop :=
  process (server w) = Some p /\ uncaught w = false
  /\ exists pr, procs w !! p = Some pr /\ settles pr = inner
       /\ closed pr = false
       /\ (promises w !! inner = Some Pending
           \/ (isOpening (server w) = false /\ attached pr = false)).

(** A match at which [matchHandler] settles the attempt: its key is one of
    the four whose [case] ends in [break]. *)
Definition settling (m : string) : bool :=
  let k := fst (Mongod.keyValue m) in
  String.eqb k "error" || String.eqb k "alreadyinuse"
  || String.eqb k "deniedforsocket" || String.eqb k "waitingforconnections".

(** The matches of a line that come before the first one that settles the
    attempt. *)
Fixpoint seen (matches : list string) : list string :=
  match matches with
  | [] => []
  | m :: rest => if settling m then [] else m :: seen rest
  end.

(** What [matchHandler] makes of the pair of [pid] and [port] on a match
    that does not settle the attempt, and what a line makes of it. *)
Definition capture (v : value * value) (m : string) : value * value :=
  if String.eqb (fst (Mongod.keyValue m)) "pid"
  then (Number (snd (Mongod.keyValue m)), snd v)
  else if String.eqb (fst (Mongod.keyValue m)) "port"
  then (fst v, Number (snd (Mongod.keyValue m)))
  else v.

Definition captureLine (v : value * value) (line : string) : value * value :=
  fold_left capture (seen (RegExp.match_keyRE line)) v.

(** The text neither starts nor ends with white space. *)
Definition startsDense (s : string) : bool :=
  match s with
  | String c _ => negb (isSpace c)
  | EmptyString => true
  end.

Fixpoint endsDense (s : string) : bool :=
  match s with
  | EmptyString => true
  | String c r =>
      match r with
      | EmptyString => negb (isSpace c)
      | String _ _ => endsDense r
      end
  end.

(** [t] is [s] without the white space at its two ends. *)
Definition trimmed (s t : string) : Prop :=
  exists a b, s = a +:+ t +:+ b
    /\ all isSpace a = true /\ all isSpace b = true
    /\ startsDense t = true /\ endsDense t = true.

(** The world of a new instance after [open()] and the start of its body. *)
Definition startedWorld : World :=
  default (Mongod.constructor VUndefined)
    (run [CallOpen; Dequeue] (Mongod.constructor VUndefined)).

(** The chunks [later] delivered to process [p], one 'data' event each. *)
Definition deliveries (p : nat) (later : list (stream * string)) : list action :=
  map (fun sc => Data p (fst sc) (snd sc)) later.

(** A text without a line terminator. *)
Definition plain (line : string) : bool :=
  Js.all (fun c => negb (Ascii.eqb c Js.LF) && negb (Ascii.eqb c Js.CR)) line.

(** [spawn] accepts the [bin] and the flags of config [c]. *)
Definition accepts (c : gmap string value) : bool :=
  match ChildProcess.refusal (get c "bin") (Mongod.parseFlags c) with
  | None => true
  | Some _ => false
  end.

(** A new instance with config [c]; the same after [open()]; the same once
    the body has started and spawned process 0. *)
Definition freshWorld (c : gmap string value) : World :=
  {| server := {| config := c; pid := VNull; port := VNull;
                  process := None; openPromise := 0; closePromise := 1;
                  isClosing := false; isRunning := false;
                  isOpening := false |};
     promises := [Resolved VNull; Resolved VNull];
     queue := []; pendingPromises := 0; reactions := [];
     procs := []; uncaught := false; log := [] |}.

Definition calledWorld (c : gmap string value) : World :=
  fst (Mongod.open (freshWorld c)).

Definition spawnedWorld (c : gmap string value) : World :=
  default (calledWorld c) (dequeue (calledWorld c)).

(** The events that are not the queue's own. *)
Definition quietEvent (e : event) : bool :=
  match e with
  | Enqueue _ | BodyStart _ _ => false
  | _ => true
  end.

(** What the bodies and the listeners do to a world: they never touch the
    queue, and they settle promises through [settle] only. *)
Inductive quiet : World -> World -> Prop :=
| quiet_refl w : quiet w w
| quiet_trans w1 w2 w3 : quiet w1 w2 -> quiet w2 w3 -> quiet w1 w3
| quiet_setServer f w : quiet w (setServer f w)
| quiet_setProcs ps w : quiet w (setProcs ps w)
| quiet_record e w : quietEvent e = true -> quiet w (record e w)
| quiet_settle i s w : quiet w (settle i s w)
| quiet_throw w : quiet w (throwUncaught w).

(** The invariant of the queue. *)
Record queueInv (w : World) : Prop := {
  inv_serial : serial (log w);
  inv_count : pendingPromises w = length (reactions w)
              /\ (length (reactions w) <= 1)%nat;
  inv_busy : forall i, In i (unsettled (log w)) ->
               In i (map fst (reactions w))
               /\ promises w !! i = Some Pending;
  inv_one : (length (unsettled (log w)) <= length (reactions w))%nat;
  inv_fifo : enqueued (log w) = started (log w) ++ queue w
}.

(** Inputs at which the theorems are run. *)
Definition readyLine : string :=
  "I NETWORK [thread1] pid=7 " +:+ "Waiting For Connections" +:+ " on port 27017".

Definition startedProc : Proc :=
  {| attached := true; buffer := EmptyString; outBuffer := EmptyString;
     errBuffer := EmptyString; settles := 3; onceClose := [];
     closed := false |}.

Definition capturedChunk : string :=
  "pid=5 is here" +:+ nl +:+ "port=7 waiting for connections" +:+ nl.

Definition capturedWorld : World :=
  default startedWorld (onData 0 Stdout capturedChunk startedWorld).

Definition readyWorld : World :=
  default startedWorld
    (onData 0 Stdout ("waiting for connections" +:+ nl) startedWorld).

Definition lateWorld : World :=
  default readyWorld
    (run (deliveries 0 [(Stdout, "pid=5 port=7" +:+ nl)]) readyWorld).

Definition openCloseTrace : list action :=
  [CallOpen; Dequeue; CallClose;
   Data 0 Stdout ("waiting for connections" +:+ nl);
   Settled 3; Dequeue; ProcClose 0; Settled 5].

Definition openCloseWorld : World :=
  default (Mongod.constructor VUndefined)
    (run openCloseTrace (Mongod.constructor VUndefined)).

End Notions.

(** ** Notions of the further properties *)

Section FurtherNotions.
Import Js RegExp.

(** A text without a line feed, and a text that holds one. *)
Definition noLF (s : string) : bool := all (differs LF) s.

Definition hasLF (s : string) : bool := negb (noLF s).

(** The last character of the text is a carriage return. *)
Fixpoint endsCR (s : string) : bool :=
  match s with
  | EmptyString => false
  | String c r =>
      match r with
      | EmptyString => Ascii.eqb c CR
      | String _ _ => endsCR r
      end
  end.

(** The text starts with a line feed. *)
Definition startsLF (s : string) : bool :=
  match s with
  | String c _ => Ascii.eqb c LF
  | EmptyString => false
  end.

(** The character [c] put in front of the first fragment of a list, as
    [splitNewline] does with a character that is not of a separator. *)
Definition pushChar (c : ascii) (l : list string) : list string :=
  match l with
  | f :: fs => String c f :: fs
  | [] => [String c EmptyString]
  end.

(** The text [f] put in front of the first fragment of a list. *)
Definition glue (f : string) (l : list string) : list string :=
  match l with
  | g :: gs => (f +:+ g) :: gs
  | [] => [f]
  end.

(** The texts [ms] in a row, each after its gap of [gaps]. *)
Fixpoint interleave (gaps ms : list string) : string :=
  match gaps, ms with
  | g :: gs, m :: ms' => g +:+ m +:+ interleave gs ms'
  | _, _ => EmptyString
  end.

(** A regular expression with flag [i] sees a text through [foldCase]. *)
Definition fold : string -> string := mapString foldCase.

Definition foldPair (x : string * string) : string * string :=
  (fold (fst x), fold (snd x)).

(** A matcher that sees its input through [foldCase]: on the folded input
    it matches the folded text. *)
Definition Folds (mt : matcher) : Prop :=
  forall s, mt (fold s) = option_map foldPair (mt s).

(** The key that [matchHandler] switches on. *)
Definition keyOf (m : string) : string := fst (Mongod.keyValue m).

(** No character of the text is white space. *)
Definition dense (s : string) : bool := all (fun c => negb (isSpace c)) s.

(** A text without a carriage return. *)
Definition noCR (s : string) : bool := all (differs CR) s.

(** The four fields that [parseConfig] reads. *)
Definition configKeys : list string := ["bin"; "conf"; "dbpath"; "port"].

(** The number of calls of [kill] in a log. *)
Definition killed (l : list event) : nat :=
  length (List.filter (fun e => match e with Kill _ => true | _ => false end) l).

(** The events that are neither 'opening' nor 'closing', nor a spawn or a
    kill. *)
Definition neutral (e : event) : bool :=
  match e with
  | Emit n _ => negb (String.eqb n "opening") && negb (String.eqb n "closing")
  | Spawn _ _ _ | Kill _ => false
  | _ => true
  end.

(** A promise of an instance with config [c] is pending, resolved with
    [null], rejected with one of the three errors of [matchHandler], or
    rejected with what [spawn] throws for the [bin] and the flags of [c]. *)
Definition classified (c : gmap string value) (s : settlement) : Prop :=
  match s with
  | Pending => True
  | Resolved v => v = VNull
  | Rejected e =>
      (exists msg code, e = VError "Error" msg (VNum code)
                        /\ (code = -1 \/ code = -2 \/ code = -3)%Z)
      \/ ChildProcess.refusal (get c "bin") (Mongod.parseFlags c) = Some e
  end.

(** The process whose handle the instance holds was spawned and has not
    closed. *)
Definition live (w : World) : Prop :=
  forall q, process (server w) = Some q ->
            exists pr, procs w !! q = Some pr /\ closed pr = false.

(** What every step keeps of the world of an instance with config [c]. *)
Record sound (c : gmap string value) (w : World) : Prop := {
  sound_config : config (server w) = c;
  sound_flags : isOpening (server w) && isClosing (server w) = false;
  sound_live : live w;
  sound_promises : Forall (classified c) (promises w);
  sound_spawn : spawned (log w)
                = if accepts c then emitted "opening" (log w) else 0%nat;
  sound_kill : emitted "closing" (log w) = killed (log w)
}.

(** While no exception has escaped, a running instance holds a handle. *)
Definition held (w : World) : Prop :=
  uncaught w = false -> isRunning (server w) = true ->
  process (server w) <> None.

(** An instance at rest: nothing queued, nothing in flight, neither opening
    nor closing, and no exception escaped. *)
Definition atRest (w : World) : Prop :=
  queue w = [] /\ pendingPromises w = 0%nat /\ reactions w = []
  /\ isOpening (server w) = false /\ isClosing (server w) = false
  /\ uncaught w = false.

(** Where a promise comes from: [add] makes the promise that it hands
    back, and the start of a body makes the promise of the body. *)
Inductive role := Outer | Inner.

Definition allocOf (e : event) : list (nat * (role * generator)) :=
  match e with
  | Enqueue i => [(outer i, (Outer, body i))]
  | BodyStart i inner => [(inner, (Inner, body i))]
  | _ => []
  end.

(** The promises that the queue made in a log, each with its role and the
    kind of its body. *)
Definition alloc (l : list event) : list (nat * (role * generator)) :=
  flat_map allocOf l.

(** The bookkeeping of the promises that every step keeps. *)
Record tidy (w : World) : Prop := {
  tidy_fresh : forall id r,
    In (id, r) (alloc (log w)) -> (id < length (promises w))%nat;
  tidy_nodup : List.NoDup (map fst (alloc (log w)));
  tidy_procs : forall p pr, procs w !! p = Some pr ->
    In (settles pr, (Inner, OpenBody)) (alloc (log w))
    /\ forall j, In j (onceClose pr) ->
                 In (j, (Inner, CloseBody)) (alloc (log w));
  tidy_settles : forall p q pr pr',
    procs w !! p = Some pr -> procs w !! q = Some pr' ->
    settles pr = settles pr' -> p = q;
  tidy_reactions : forall inner i, In (inner, i) (reactions w) ->
    In (inner, (Inner, body i)) (alloc (log w))
    /\ In (outer i, (Outer, body i)) (alloc (log w));
  tidy_queue : forall i, In i (queue w) ->
    In (outer i, (Outer, body i)) (alloc (log w));
  tidy_close : forall id r e,
    In (id, (r, CloseBody)) (alloc (log w)) ->
    promises w !! id <> Some (Rejected e);
  tidy_flight : forall p pr, procs w !! p = Some pr ->
    promises w !! settles pr = Some Pending ->
    In (settles pr) (map fst (reactions w))
}.

(** What the listeners of a process do to a world: they touch neither the
    queue nor the promises that [open] and [close] hand back, and they
    turn [isOpening] and [isClosing] off, never on; [resolve] and [reject]
    of an open body go to the promise of a process that has not closed,
    once [isOpening] is off; a [once] listener resolves a promise of the
    list it is on, once [isClosing] is off. *)
Inductive mild : World -> World -> Prop :=
| mild_refl w : mild w w
| mild_trans w1 w2 w3 : mild w1 w2 -> mild w2 w3 -> mild w1 w3
| mild_setServer f w :
    (isOpening (f (server w)) = true -> isOpening (server w) = true) ->
    (isClosing (f (server w)) = true -> isClosing (server w) = true) ->
    openPromise (f (server w)) = openPromise (server w) ->
    closePromise (f (server w)) = closePromise (server w) ->
    mild w (setServer f w)
| mild_setProc p f w :
    (forall pr, settles (f pr) = settles pr
                /\ (forall j, In j (onceClose (f pr)) -> In j (onceClose pr))
                /\ (closed pr = true -> closed (f pr) = true)) ->
    mild w (setProc p f w)
| mild_record e w : quietEvent e = true -> mild w (record e w)
| mild_finish p pr s w :
    procs w !! p = Some pr -> closed pr = false ->
    isOpening (server w) = false ->
    mild w (settle (settles pr) s w)
| mild_once p pr j w :
    procs w !! p = Some pr -> In j (onceClose pr) ->
    isClosing (server w) = false ->
    mild w (settle j (Resolved VNull) w)
| mild_throw w : mild w (throwUncaught w).

(** Process [p] listens for the open body whose promise is [inner]. *)
Definition listening (p inner : nat) (w : World) : Prop :=
  exists pr, procs w !! p = Some pr /\ settles pr = inner
             /\ closed pr = false.

(** Process [p] has closed while the promise [i] of its open body is
    pending. *)
Definition stuck (p i : nat) (w : World) : Prop :=
  exists pr, procs w !! p = Some pr /\ settles pr = i /\ closed pr = true
             /\ promises w !! i = Some Pending.

(** The entries of the queue: the one in flight, then those that wait. *)
Definition items (w : World) : list item :=
  map snd (reactions w) ++ queue w.

(** The entry of kind [g] whose promise is [o] waits in the queue, or is in
    flight with the promise of its body pending. *)
Definition waiting (g : generator) (o : nat) (w : World) : Prop :=
  In {| body := g; outer := o |} (queue w)
  \/ exists inner, In (inner, {| body := g; outer := o |}) (reactions w)
                   /\ promises w !! inner = Some Pending.

(** The promises that [open] and [close] hand back; [ok] tells whether
    [spawn] accepts the config of the instance. *)
Record handed (ok : bool) (w : World) : Prop := {
  handed_open : ok = true -> isOpening (server w) = true ->
                waiting OpenBody (openPromise (server w)) w;
  handed_close : isClosing (server w) = true ->
                 waiting CloseBody (closePromise (server w)) w;
  handed_outer : forall it, In it (items w) ->
                 promises w !! outer it = Some Pending;
  handed_nodup : List.NoDup (map outer (items w))
}.

(** Inputs at which the further theorems are run. *)
Definition tab : string := String "009"%char EmptyString.

Definition tabbedPhrase : string := "waiting" +:+ tab +:+ "for connections".

Definition brokenChunks : list string :=
  ["pid=1" +:+ nl +:+ "wai"; "ting for" +:+ cr +:+ nl +:+ "x" +:+ nl +:+ "y"].

Definition fileConfig : value :=
  VObject (<["conf" := VStr "mongod.conf"]> (<["port" := VNum 1]> ∅)).

Definition plainConfig : gmap string value :=
  <["dbpath" := VStr "data/db"]> (<["port" := VNum 27017]> ∅).

(** A new instance whose [open()] was rejected by a line of stderr. *)
Definition rejectedWorld : World :=
  default startedWorld
    (onData 0 Stderr ("Error parsing option" +:+ nl) startedWorld).

(** An options object whose [bin] is a number, and what [spawn] throws
    for it. *)
Definition numberBin : value := VObject (<["bin" := VNum 5]> ∅).

Definition refusedBin : value :=
  ChildProcess.typeError "The 'file' argument must be of type string"
    "ERR_INVALID_ARG_TYPE".

(** A new instance once [open()] has been resolved by the readiness line. *)
Definition runningWorld : World :=
  default readyWorld (run [Settled 3] readyWorld).

Definition detachedProc : Proc :=
  {| attached := false; buffer := EmptyString; outBuffer := EmptyString;
     errBuffer := EmptyString; settles := 3; onceClose := [];
     closed := false |}.

(** A new instance whose process closed before any line was recognised,
    and the same after a [close()] and an [open()]. *)
Definition crashedWorld : World :=
  default startedWorld (run [ProcClose 0] startedWorld).

Definition waitingWorld : World :=
  default crashedWorld (run [CallClose; CallOpen] crashedWorld).

Definition closedProc : Proc :=
  {| attached := true; buffer := EmptyString; outBuffer := EmptyString;
     errBuffer := EmptyString; settles := 3; onceClose := [];
     closed := true |}.

End FurtherNotions.

(** * Properties *)

(** ** The embedding on the inputs of the repository's tests *)

Example splitNewline_mixed :
  Js.splitNewline ("a" +:+ cr +:+ nl +:+ "b" +:+ nl +:+ cr +:+ "c")
  = ["a"; "b"; cr +:+ "c"].
Proof. reflexivity. Qed.

Example feed_lines_across_chunks :
  Aggregator.feed "" ["a" +:+ nl +:+ "b"; "c" +:+ nl +:+ "d" +:+ nl]
  = ["a"; "bc"; "d"].
Proof. reflexivity. Qed.

Example keyRE_startup_line :
  RegExp.match_keyRE
    "I CONTROL  [initandlisten] MongoDB starting : pid=5432 port=27017 dbpath=/data/db 64-bit"
  = ["pid=5432"; "port=27017"].
Proof. vm_compute. reflexivity. Qed.

Example keyRE_address_in_use :
  RegExp.match_keyRE
    "E NETWORK  [initandlisten] listen(): bind() failed Address already in use for socket: 0.0.0.0:27017"
  = ["already in use"].
Proof. vm_compute. reflexivity. Qed.

Example keyRE_permission_denied :
  RegExp.match_keyRE
    "E NETWORK  [initandlisten] listen(): bind() failed Permission denied for socket: 0.0.0.0:1"
  = ["denied for socket"].
Proof. vm_compute. reflexivity. Qed.

Example keyRE_exception :
  RegExp.match_keyRE
    "I STORAGE  [initandlisten] exception in initAndListen: 18656 Cannot start server, terminating"
  = ["exception in initAndListen: 18656 Cannot start server, terminating"].
Proof. vm_compute. reflexivity. Qed.

Example keyRE_unrelated : RegExp.match_keyRE "invalid" = [] /\ RegExp.match_keyRE "" = [].
Proof. split; reflexivity. Qed.

Example keyValue_pid : Mongod.keyValue "PID=5432" = ("pid", Some "5432").
Proof. vm_compute. reflexivity. Qed.

Example keyValue_waiting :
  Mongod.keyValue "Waiting  for connections" = ("waitingforconnections", None).
Proof. vm_compute. reflexivity. Qed.

Example parseConfig_bin_conf_only :
  Mongod.parseConfig
    (VObject (<["bin" := VStr "/usr/bin/mongod"]> (<["conf" := VStr "./m.conf"]>
       (<["port" := VNum 9001]> (<["dbpath" := VStr "./data/db"]> ∅))))) None
  = <["bin" := VStr "/usr/bin/mongod"]> (<["conf" := VStr "./m.conf"]> ∅).
Proof. vm_compute. reflexivity. Qed.

Example parseConfig_drops_unknown_fields :
  Mongod.parseConfig
    (VObject (<["bin" := VStr "/usr/bin/mongod"]> (<["foo" := VStr "bar"]>
       (<["port" := VNum 9001]> (<["dbpath" := VStr "./data/db"]> ∅))))) None
  = <["bin" := VStr "/usr/bin/mongod"]>
      (<["port" := VNum 9001]> (<["dbpath" := VStr "./data/db"]> ∅)).
Proof. vm_compute. reflexivity. Qed.

Example parseConfig_without_arguments :
  Mongod.parseConfig VUndefined None = ∅ /\ Mongod.parseConfig VNull None = ∅.
Proof. split; reflexivity. Qed.

Example parseFlags_on_the_tests :
  Mongod.parseFlags ∅ = []
  /\ Mongod.parseFlags (<["bin" := VStr "/usr/bin/mongod"]>
        (<["port" := VNum 9001]> (<["dbpath" := VStr "./data/db"]> ∅)))
     = [VStr "--dbpath"; VStr "./data/db"; VStr "--port"; VNum 9001]
  /\ Mongod.parseFlags (<["conf" := VStr "./m.conf"]>
        (<["port" := VNum 9001]> (<["dbpath" := VStr "./data/db"]> ∅)))
     = [VStr "--config"; VStr "./m.conf"].
Proof. repeat split; vm_compute; reflexivity. Qed.

Example open_then_close :
  option_map (fun w => (isOpening (server w), isRunning (server w),
                        isClosing (server w), process (server w),
                        pid (server w), port (server w)))
    (run [CallOpen; Dequeue;
          Data 0 Stdout ("MongoDB starting : pid=5432 port=27017" +:+ nl);
          Data 0 Stdout ("waiting for connections on port 27017" +:+ nl);
          Settled 3]
       (Mongod.constructor VUndefined))
  = Some (false, true, false, Some 0%nat, VNum 5432, VNum 27017)
  /\ option_map (fun w => (isOpening (server w), isRunning (server w),
                           isClosing (server w), process (server w),
                           pid (server w), port (server w)))
       (run [CallOpen; Dequeue;
             Data 0 Stdout ("MongoDB starting : pid=5432 port=27017" +:+ nl);
             Data 0 Stdout ("waiting for connections on port 27017" +:+ nl);
             Settled 3; CallClose; Dequeue; ProcClose 0; Settled 5]
          (Mongod.constructor VUndefined))
     = Some (false, false, false, None, VNull, VNull).
Proof. split; vm_compute; reflexivity. Qed.

(** ** The line aggregator *)

(** C1. A chunk without a newline makes the aggregator call back with the
    text "undefined" appended to the old buffer, and overwrite the buffer
    instead of extending it: fed "ab" and then "c" with a newline, the
    callback is run on "undefined" and on "abc", while the text "abc" with
    its newline holds the one line "abc". An empty chunk does the same, and
    a chunk that ends between CR and LF leaves the CR in its line. *)
Theorem getTextLineAggregator_chunk_without_newline :
  Aggregator.feed "" ["ab"; "c" +:+ nl] = ["undefined"; "abc"]
  /\ Aggregator.terminatedLines (Aggregator.concat ["ab"; "c" +:+ nl]) = ["abc"]
  /\ Aggregator.feed "" ["ab"; ""; "c" +:+ nl] = ["undefined"; "abundefined"; "c"]
  /\ Aggregator.feed "" ["a" +:+ cr; nl +:+ "b" +:+ nl]
     = ["undefined"; "a" +:+ cr; "b"]
  /\ Aggregator.terminatedLines
       (Aggregator.concat ["a" +:+ cr; nl +:+ "b" +:+ nl]) = ["a"; "b"]
  /\ Aggregator.feed "" ["x" +:+ nl +:+ "a" +:+ cr; nl +:+ "b" +:+ nl]
     = ["x"; "a" +:+ cr; "b"]
  /\ Aggregator.terminatedLines
       (Aggregator.concat ["x" +:+ nl +:+ "a" +:+ cr; nl +:+ "b" +:+ nl])
     = ["x"; "a"; "b"].
Proof. repeat split; reflexivity. Qed.

Lemma splitNewline_without_LF (data : string) :
  Js.all (fun c => negb (Ascii.eqb c Js.LF)) data = true ->
  Js.splitNewline data = [data].
Proof.
  induction data as [|c r IH]; [reflexivity|].
  cbn [Js.all]. intros [Hc Hr]%andb_prop. apply negb_true_iff in Hc.
  cbn [Js.splitNewline]. rewrite Hc, (IH Hr).
  destruct r as [|c' r']; [reflexivity|].
  cbn [Js.all] in Hr. apply andb_prop in Hr as [Hc' _].
  apply negb_true_iff in Hc'. now rewrite Hc', andb_false_r.
Qed.

(** The same for every chunk that holds no LF, whatever the buffer: one
    call with the buffer and "undefined", and the chunk replaces the
    buffer. *)
Lemma chunk_without_newline (buffer data : string) :
  Js.all (fun c => negb (Ascii.eqb c Js.LF)) data = true ->
  Aggregator.getTextLineAggregator buffer data
  = (data, [buffer +:+ "undefined"]).
Proof.
  intros H. unfold Aggregator.getTextLineAggregator.
  now rewrite (splitNewline_without_LF data H).
Qed.

(** ** Configuration *)

Lemma get_insert_ne (o : gmap string value) (k k' : string) (v : value) :
  k <> k' -> get (<[k := v]> o) k' = get o k'.
Proof. intros H. unfold get. now rewrite lookup_insert_ne. Qed.

Lemma get_insert_eq (o : gmap string value) (k : string) (v : value) :
  get (<[k := v]> o) k = v.
Proof. unfold get. now rewrite lookup_insert_eq. Qed.

Lemma parseFlags_depends_on (c c' : gmap string value) :
  get c "conf" = get c' "conf" ->
  get c "dbpath" = get c' "dbpath" ->
  get c "port" = get c' "port" ->
  Mongod.parseFlags c = Mongod.parseFlags c'.
Proof. intros H1 H2 H3. unfold Mongod.parseFlags. now rewrite H1, H2, H3. Qed.

(** C7. [parseFlags] never yields [--nojournal] or [--storageEngine]: the
    flags are those of [conf], or of [dbpath] and [port], whatever the
    fields [nojournal] and [storageEngine] hold. A config with no-journal
    set, a storage engine, a data path and a port gives the data path and
    the port only. *)
Theorem parseFlags_without_nojournal_storageEngine :
  Mongod.parseFlags journalConfig
  = [VStr "--dbpath"; VStr "data/db"; VStr "--port"; VNum 27017]
  /\ (forall (c : gmap string value) (v : value),
        Mongod.parseFlags (<["nojournal" := v]> c) = Mongod.parseFlags c
        /\ Mongod.parseFlags (<["storageEngine" := v]> c) = Mongod.parseFlags c)
  /\ (forall (c : gmap string value),
        Mongod.parseFlags c =
        if notNullish (get c "conf") then [VStr "--config"; get c "conf"]
        else (if notNullish (get c "dbpath")
              then [VStr "--dbpath"; get c "dbpath"] else [])
             ++ (if notNullish (get c "port")
                 then [VStr "--port"; get c "port"] else [])).
Proof.
  split; [reflexivity|]. split; [|reflexivity].
  intros c v. split; apply parseFlags_depends_on; now apply get_insert_ne.
Qed.

(** C10. The config of a new instance: a number or a string becomes the
    port over the defaults; an object goes through [parseConfig] over the
    defaults, which takes [bin], then [conf] alone when it is there, else
    [dbpath] and [port], each when not nullish; anything else leaves the
    defaults, which are [mongod], [null], 27017 and [null]. *)
Theorem constructor_config (configOrPort : value) :
  let c := config (server (Mongod.constructor configOrPort)) in
  c = match configOrPort with
      | VNum _ | VNaN | VNumberOf _ | VStr _ =>
          <["port" := configOrPort]> Mongod.defaultConfig
      | VObject o => Mongod.parseConfig (VObject o) (Some Mongod.defaultConfig)
      | _ => Mongod.defaultConfig
      end
  /\ match configOrPort with
     | VNum _ | VNaN | VNumberOf _ | VStr _ =>
         get c "port" = configOrPort /\ get c "bin" = VStr "mongod"
         /\ get c "conf" = VNull /\ get c "dbpath" = VNull
     | VObject o =>
         get c "bin" = (if notNullish (get o "bin") then get o "bin"
                        else VStr "mongod")
         /\ get c "conf" = (if notNullish (get o "conf") then get o "conf"
                            else VNull)
         /\ get c "dbpath" = (if notNullish (get o "conf") then VNull
                              else if notNullish (get o "dbpath")
                                   then get o "dbpath" else VNull)
         /\ get c "port" = (if notNullish (get o "conf") then VNum 27017
                            else if notNullish (get o "port")
                                 then get o "port" else VNum 27017)
     | _ =>
         get c "bin" = VStr "mongod" /\ get c "conf" = VNull
         /\ get c "port" = VNum 27017 /\ get c "dbpath" = VNull
     end
  /\ dom c = {["bin"; "conf"; "port"; "dbpath"]}.
Proof.
  destruct configOrPort; cbn -[Mongod.defaultConfig Mongod.parseConfig];
    try (split; [reflexivity|split; [repeat split; reflexivity|reflexivity]]).
  split; [reflexivity|].
  unfold Mongod.parseConfig, Mongod.copyField, prop. cbn [default notNullish negb].
  destruct (notNullish (get fields "bin")), (notNullish (get fields "conf")),
    (notNullish (get fields "dbpath")), (notNullish (get fields "port"));
    (split; [repeat split;
             repeat first [ rewrite get_insert_eq
                          | rewrite get_insert_ne by discriminate ];
             reflexivity
            | unfold Mongod.defaultConfig, id; rewrite !dom_insert_L;
              set_solver ]).
Qed.

(** ** The completion callback *)

(** C8. The callback of [open(callback)] and [close(callback)] is called
    with one argument, never two: the value on success, so that its second
    parameter reads [undefined], and the reason on failure. On an instance
    that opens and sees the readiness line, the one call has the single
    argument [null]. *)
Theorem callback_gets_a_single_argument :
  (forall callback s,
     Forall (fun args => length args = 1%nat
                         /\ Proto.parameter args 1 = VUndefined)
            (Proto.thenCatch callback s))
  /\ (forall callback v, hd [] (Proto.thenCatch callback (Resolved v)) = [v])
  /\ (forall callback e, Proto.thenCatch callback (Rejected e) = [[e]])
  /\ (let '(w, promise, chained) :=
        Proto.open VFunction (Mongod.constructor VUndefined) in
      option_map (Proto.callbackCalls quietCallback chained promise)
        (run [Dequeue; Data 0 Stdout ("waiting for connections" +:+ nl);
              Settled 3] w)
      = Some [[VNull]])
  /\ (let '(w, promise, chained) :=
        Proto.close VFunction (Mongod.constructor VUndefined) in
      option_map (Proto.callbackCalls quietCallback chained promise)
        (run [Dequeue; Settled 3] w)
      = Some [[VNull]]).
Proof.
  split; [|split; [|split; [|split]]]; try reflexivity.
  intros callback [|v|e]; cbn.
  - constructor.
  - destruct (callback [v]); repeat constructor.
  - repeat constructor.
Qed.

(** ** Facts on characters and strings *)

Section Characters.
Import Js.

Ltac by_cases c :=
  destruct c as [[] [] [] [] [] [] [] []]; vm_compute; intuition congruence.

Lemma letter_facts (c : ascii) :
  isLower (foldCase c) = true ->
  lowerChar c = foldCase c /\ isSpace c = false /\ isDigit c = false
  /\ Ascii.eqb c "="%char = false /\ Ascii.eqb c " "%char = false.
Proof. by_cases c. Qed.

Lemma space_facts (c : ascii) :
  isSpace c = true ->
  foldCase c = c /\ lowerChar c = c /\ isLower c = false
  /\ Ascii.eqb c "="%char = false.
Proof. by_cases c. Qed.

Lemma digit_facts (c : ascii) :
  isDigit c = true ->
  foldCase c = c /\ lowerChar c = c /\ isLower c = false
  /\ Ascii.eqb c "="%char = false /\ Ascii.eqb c " "%char = false.
Proof. by_cases c. Qed.

Lemma foldCase_fixed (c : ascii) :
  isLower (foldCase c) = false -> foldCase c = c /\ isLower c = false.
Proof. by_cases c. Qed.

Lemma app_assoc_s (a b c : string) : (a +:+ b) +:+ c = a +:+ (b +:+ c).
Proof. induction a; simpl; [reflexivity | now f_equal]. Qed.

Lemma all_app (p : ascii -> bool) (a b : string) :
  all p (a +:+ b) = all p a && all p b.
Proof. induction a; simpl; [reflexivity | now rewrite IHa, andb_assoc]. Qed.

Lemma all_impl (p q : ascii -> bool) (s : string) :
  (forall c, p c = true -> q c = true) -> all p s = true -> all q s = true.
Proof.
  intros Hpq. induction s as [|c s IH]; simpl; [reflexivity|].
  intros [Hc Hs]%andb_prop. now rewrite (Hpq c Hc), IH.
Qed.

Lemma all_mapString (p : ascii -> bool) (f : ascii -> ascii) (s : string) :
  all p (mapString f s) = all (fun c => p (f c)) s.
Proof. induction s; simpl; [reflexivity | now rewrite IHs]. Qed.

Lemma mapString_app (f : ascii -> ascii) (a b : string) :
  mapString f (a +:+ b) = mapString f a +:+ mapString f b.
Proof. induction a; simpl; [reflexivity | now f_equal]. Qed.

End Characters.

(** ** Facts on the matchers *)

Section Matchers.
Import Js RegExp.

Lemma all_isNot_fold (y : ascii) (m : string) :
  all (isNot y) m = all (differs y) (mapString foldCase m).
Proof. now rewrite all_mapString. Qed.

Lemma lit_inv (p : string) : forall s m r,
  lit p s = Some (m, r) -> s = m +:+ r /\ mapString foldCase m = p.
Proof.
  induction p as [|x p IH]; intros s m r H; simpl in H.
  - injection H as <- <-. now split.
  - destruct s as [|c s]; [discriminate|].
    destruct (Ascii.eqb (foldCase c) x) eqn:E; [|discriminate].
    apply Ascii.eqb_eq in E.
    destruct (lit p s) as [[m' r']|] eqn:L; [|discriminate].
    injection H as <- <-. destruct (IH _ _ _ L) as [-> <-].
    split; simpl; congruence.
Qed.

Lemma lit_intro (p : string) : forall m r,
  mapString foldCase m = p -> lit p (m +:+ r) = Some (m, r).
Proof.
  induction p as [|x p IH]; intros [|c m] r H; simpl in H; try discriminate.
  - reflexivity.
  - injection H as Hc Hm. simpl. rewrite Hc, Ascii.eqb_refl.
    now rewrite (IH m r Hm).
Qed.

Lemma lit_absent (p : string) (y : ascii) : forall s,
  all (isNot y) s = true -> all (differs y) p = false -> lit p s = None.
Proof.
  induction p as [|x p IH]; intros s Hs Hp; simpl in Hp; [discriminate|].
  destruct s as [|c s]; [reflexivity|]. simpl in Hs |- *.
  apply andb_prop in Hs as [Hc Hs].
  destruct (Ascii.eqb (foldCase c) x) eqn:E; [|reflexivity].
  apply Ascii.eqb_eq in E. unfold isNot in Hc. rewrite E in Hc.
  unfold differs in Hp at 1. rewrite Hc in Hp. simpl in Hp.
  now rewrite (IH s Hs Hp).
Qed.

Lemma search_absent (p : string) (y : ascii) : forall s,
  all (isNot y) s = true -> all (differs y) p = false ->
  search (lit p) s = false.
Proof.
  induction s as [|c s IH]; intros Hs Hp.
  - simpl. now rewrite (lit_absent p y "" Hs Hp).
  - cbn [search]. rewrite (lit_absent p y _ Hs Hp).
    simpl in Hs. apply andb_prop in Hs as [_ Hs]. now apply IH.
Qed.

Lemma span_inv (q : ascii -> bool) : forall s m r,
  span q s = (m, r) ->
  s = m +:+ r /\ all q m = true
  /\ match r with String c _ => q c = false | EmptyString => True end.
Proof.
  induction s as [|c s IH]; intros m r H; simpl in H.
  - injection H as <- <-. now repeat split.
  - destruct (q c) eqn:Q.
    + destruct (span q s) as [m' r'] eqn:E. injection H as <- <-.
      destruct (IH _ _ eq_refl) as (-> & Hm & Hr).
      simpl. rewrite Q, Hm. now repeat split.
    + injection H as <- <-. now repeat split.
Qed.

Lemma many1_inv (q : ascii -> bool) (s m r : string) :
  many1 q s = Some (m, r) ->
  s = m +:+ r /\ all q m = true /\ m <> "".
Proof.
  unfold many1. destruct (span q s) as [m' r'] eqn:E.
  destruct (span_inv q _ _ _ E) as (Hs & Hm & _).
  destruct m'; [discriminate|]. intros H. injection H as <- <-.
  now repeat split.
Qed.

Lemma span_intro (q : ascii -> bool) : forall m r,
  all q m = true ->
  match r with String c _ => q c = false | EmptyString => True end ->
  span q (m +:+ r) = (m, r).
Proof.
  induction m as [|c m IH]; intros r Hm Hr; simpl.
  - destruct r as [|c r]; [reflexivity|]. simpl. now rewrite Hr.
  - simpl in Hm. apply andb_prop in Hm as [-> Hm]. now rewrite (IH r Hm Hr).
Qed.

Lemma seq_inv (m1 m2 : matcher) (s m r : string) :
  seq m1 m2 s = Some (m, r) ->
  exists a b r1, m1 s = Some (a, r1) /\ m2 r1 = Some (b, r) /\ m = a +:+ b.
Proof.
  unfold seq. destruct (m1 s) as [[a r1]|]; [|discriminate].
  destruct (m2 r1) as [[b r2]|] eqn:E2; [|discriminate].
  intros H. injection H as <- <-. now exists a, b, r1.
Qed.

Lemma alt_inv (m1 m2 : matcher) (s : string) (x : string * string) :
  alt m1 m2 s = Some x -> m1 s = Some x \/ (m1 s = None /\ m2 s = Some x).
Proof. unfold alt. destruct (m1 s); intros H; [left | right]; auto. Qed.

Lemma Matches_lit (p : string) :
  Matches (fun m => mapString foldCase m = p) (lit p).
Proof. intros s m r. apply lit_inv. Qed.

Lemma Matches_many1 (q : ascii -> bool) :
  Matches (fun m => all q m = true /\ m <> "") (many1 q).
Proof. intros s m r H. apply many1_inv in H. tauto. Qed.

Lemma Matches_seq (P1 P2 : string -> Prop) (m1 m2 : matcher) :
  Matches P1 m1 -> Matches P2 m2 ->
  Matches (fun m => exists a b, m = a +:+ b /\ P1 a /\ P2 b) (seq m1 m2).
Proof.
  intros H1 H2 s m r H. apply seq_inv in H as (a & b & r1 & Ha & Hb & ->).
  destruct (H1 _ _ _ Ha) as [-> Pa]. destruct (H2 _ _ _ Hb) as [-> Pb].
  split; [now rewrite app_assoc_s | now exists a, b].
Qed.

Lemma Matches_alt (P1 P2 : string -> Prop) (m1 m2 : matcher) :
  Matches P1 m1 -> Matches P2 m2 ->
  Matches (fun m => P1 m \/ P2 m) (alt m1 m2).
Proof.
  intros H1 H2 s m r H. apply alt_inv in H as [H|[_ H]].
  - destruct (H1 _ _ _ H); auto.
  - destruct (H2 _ _ _ H); auto.
Qed.

Lemma Matches_impl (P Q : string -> Prop) (mt : matcher) :
  (forall m, P m -> Q m) -> Matches P mt -> Matches Q mt.
Proof. intros HPQ H s m r Hm. destruct (H _ _ _ Hm). auto. Qed.

Lemma Avoids_lit (y : ascii) (p : string) :
  all (differs y) p = true -> Avoids y (lit p).
Proof.
  intros Hp. eapply Matches_impl; [|apply Matches_lit].
  intros m <-. now rewrite all_isNot_fold.
Qed.

Lemma Avoids_spaces (y : ascii) : isLower y = true -> Avoids y spaces.
Proof.
  intros Hy. eapply Matches_impl; [|apply Matches_many1].
  intros m [Hm _]. revert Hm. apply all_impl. intros c Hc.
  destruct (space_facts c Hc) as (Hf & _ & Hl & _).
  unfold isNot. rewrite Hf. destruct (Ascii.eqb c y) eqn:E; [|reflexivity].
  apply Ascii.eqb_eq in E. congruence.
Qed.

Lemma Avoids_digits (y : ascii) : isLower y = true -> Avoids y digits.
Proof.
  intros Hy. eapply Matches_impl; [|apply Matches_many1].
  intros m [Hm _]. revert Hm. apply all_impl. intros c Hc.
  destruct (digit_facts c Hc) as (Hf & _ & Hl & _).
  unfold isNot. rewrite Hf. destruct (Ascii.eqb c y) eqn:E; [|reflexivity].
  apply Ascii.eqb_eq in E. congruence.
Qed.

Lemma Avoids_seq (y : ascii) (m1 m2 : matcher) :
  Avoids y m1 -> Avoids y m2 -> Avoids y (seq m1 m2).
Proof.
  intros H1 H2. eapply Matches_impl; [|apply (Matches_seq _ _ _ _ H1 H2)].
  intros m (a & b & -> & Ha & Hb). now rewrite all_app, Ha, Hb.
Qed.

End Matchers.

(** ** Facts on [keyValue] *)

Section KeyValue.
Import Js RegExp.

Lemma mapString_app_inv (f : ascii -> ascii) (p1 p2 : string) : forall s,
  mapString f s = p1 +:+ p2 ->
  exists a b, s = a +:+ b /\ mapString f a = p1 /\ mapString f b = p2.
Proof.
  induction p1 as [|x p1 IH]; intros s H; simpl in H.
  - now exists "", s.
  - destruct s as [|c s]; [discriminate|]. simpl in H. injection H as Hc Hs.
    destruct (IH s Hs) as (a & b & -> & Ha & Hb).
    exists (String c a), b. simpl. now rewrite Hc, Ha.
Qed.

Lemma letters_of_fold (m p : string) :
  mapString foldCase m = p -> all isLower p = true -> letters m = true.
Proof. intros <- H. unfold letters. now rewrite all_mapString in H. Qed.

Lemma splitEq_cons (c : ascii) (s : string) :
  Ascii.eqb c "="%char = false ->
  exists f fs, splitEq s = f :: fs /\ splitEq (String c s) = String c f :: fs.
Proof.
  intros Hc. simpl. rewrite Hc. destruct (splitEq s) as [|f fs] eqn:E.
  - destruct s as [|c' s]; simpl in E; [discriminate|].
    destruct (Ascii.eqb c' "="); [discriminate|].
    destruct (splitEq s); discriminate.
  - now exists f, fs.
Qed.

Lemma splitEq_none (s : string) :
  all (fun c => negb (Ascii.eqb c "="%char)) s = true -> splitEq s = [s].
Proof.
  induction s as [|c s IH]; simpl; [reflexivity|].
  intros [Hc Hs]%andb_prop. apply negb_true_iff in Hc. rewrite Hc.
  now rewrite (IH Hs).
Qed.

Lemma splitEq_letters (a rest : string) :
  letters a = true -> splitEq (a +:+ String "="%char rest) = a :: splitEq rest.
Proof.
  induction a as [|c a IH]; simpl.
  - intros _. reflexivity.
  - intros [Hc Ha]%andb_prop. destruct (letter_facts c Hc) as (_ & _ & _ & E & _).
    rewrite E. now rewrite (IH Ha).
Qed.

Lemma removeSpaces_letters (a : string) : letters a = true -> removeSpaces a = a.
Proof.
  induction a as [|c a IH]; simpl; [reflexivity|].
  intros [Hc Ha]%andb_prop. destruct (letter_facts c Hc) as (_ & _ & _ & _ & E).
  now rewrite E, (IH Ha).
Qed.

Lemma toLowerCase_letters (a : string) :
  letters a = true -> toLowerCase a = mapString foldCase a.
Proof.
  induction a as [|c a IH]; simpl; [reflexivity|].
  intros [Hc Ha]%andb_prop. destruct (letter_facts c Hc) as (E & _).
  unfold toLowerCase in *. simpl. now rewrite E, (IH Ha).
Qed.

(** Words and single spaces: lower-casing after the removal of the spaces
    is the removal of the spaces from the folded text. *)
Lemma toLowerCase_removeSpaces (m : string) :
  all (fun x => isLower x || Ascii.eqb x " "%char) (mapString foldCase m) = true ->
  toLowerCase (removeSpaces m) = removeSpaces (mapString foldCase m).
Proof.
  induction m as [|c m IH]; simpl; [reflexivity|].
  intros [Hc Hm]%andb_prop. destruct (isLower (foldCase c)) eqn:L.
  - destruct (letter_facts c L) as (E1 & _ & _ & _ & E2). rewrite E2.
    assert (Ascii.eqb (foldCase c) " "%char = false) as ->.
    { destruct (Ascii.eqb (foldCase c) " "%char) eqn:E; [|reflexivity].
      apply Ascii.eqb_eq in E. rewrite E in L. discriminate. }
    unfold toLowerCase in *. simpl. now rewrite E1, (IH Hm).
  - simpl in Hc. destruct (foldCase_fixed c L) as [E _]. rewrite E in Hc.
    rewrite E, Hc. now apply IH.
Qed.

Lemma errorRE_test_false (c : ascii) (m : string) :
  Ascii.eqb (foldCase c) "e"%char = false ->
  all (isNot "x"%char) (String c m) = true ->
  all (isNot "b"%char) (String c m) = true ->
  errorRE_test (String c m) = false.
Proof.
  intros Hc Hx Hb. unfold errorRE_test.
  assert (lit "error" (String c m) = None) as -> by (simpl; now rewrite Hc).
  rewrite (search_absent "exception" "x"%char _ Hx eq_refl).
  now rewrite (search_absent "badvalue" "b"%char _ Hb eq_refl).
Qed.

(** The key of a text that starts with a letter and is not an error starts
    with that letter. *)
Lemma keyValue_head (c : ascii) (m : string) :
  isLower (foldCase c) = true ->
  errorRE_test (String c m) = false ->
  exists k v, Mongod.keyValue (String c m) = (String (foldCase c) k, v).
Proof.
  intros Hc He. unfold Mongod.keyValue. rewrite He.
  destruct (letter_facts c Hc) as (E1 & _ & _ & E2 & E3).
  destruct (splitEq_cons c m E2) as (f & fs & _ & ->).
  cbn [hd removeSpaces]. rewrite E3. unfold toLowerCase. simpl mapString.
  rewrite E1. eauto.
Qed.

(** [name=digits] *)
Lemma keyValue_assignment (name a d : string) :
  mapString foldCase a = name +:+ "=" -> all isLower name = true ->
  all isDigit d = true ->
  errorRE_test (a +:+ d) = false ->
  Mongod.keyValue (a +:+ d) = (name, Some d).
Proof.
  intros Ha Hname Hd He. unfold Mongod.keyValue. rewrite He.
  apply mapString_app_inv in Ha as (a1 & e & -> & Ha1 & Hq).
  destruct e as [|q [|]]; simpl in Hq; try discriminate.
  injection Hq as Hq.
  assert (q = "="%char) as ->.
  { destruct (foldCase_fixed q) as [E _]; [now rewrite Hq | congruence]. }
  pose proof (letters_of_fold _ _ Ha1 Hname) as Hl.
  rewrite app_assoc_s. simpl (String "=" "" +:+ d).
  rewrite (splitEq_letters _ _ Hl), splitEq_none.
  - cbn [hd]. rewrite (removeSpaces_letters _ Hl), (toLowerCase_letters _ Hl).
    now rewrite Ha1.
  - revert Hd. apply all_impl. intros c Hc.
    destruct (digit_facts c Hc) as (_ & _ & _ & -> & _). reflexivity.
Qed.

(** Words separated by single spaces *)
Lemma keyValue_words (m p : string) :
  mapString foldCase m = p ->
  all (fun x => isLower x || Ascii.eqb x " "%char) p = true ->
  errorRE_test m = false ->
  Mongod.keyValue m = (removeSpaces p, None).
Proof.
  intros Hm Hp He. unfold Mongod.keyValue. rewrite He.
  rewrite splitEq_none.
  - cbn [hd]. rewrite toLowerCase_removeSpaces; rewrite Hm; [reflexivity|exact Hp].
  - rewrite <- Hm, all_mapString in Hp. revert Hp. apply all_impl.
    intros c Hc. destruct (isLower (foldCase c)) eqn:L.
    + destruct (letter_facts c L) as (_ & _ & _ & -> & _). reflexivity.
    + simpl in Hc. destruct (foldCase_fixed c L) as [E _]. rewrite E in Hc.
      apply Ascii.eqb_eq in Hc as ->. reflexivity.
Qed.

End KeyValue.

(** ** What [matchHandler] does with the matches of each alternative *)

Section Alternatives.
Import Js RegExp.

Lemma Avoids_phrase (y : ascii) (a b c : string) :
  isLower y = true ->
  all (differs y) a = true -> all (differs y) b = true ->
  all (differs y) c = true -> Avoids y (phrase a b c).
Proof.
  intros Hy Ha Hb Hc. unfold phrase.
  repeat first [ apply Avoids_seq | now apply Avoids_lit
               | now apply Avoids_spaces ].
Qed.

Lemma Avoids_assignment (y : ascii) (p : string) :
  isLower y = true -> all (differs y) p = true -> Avoids y (seq (lit p) digits).
Proof.
  intros Hy Hp. apply Avoids_seq; [now apply Avoids_lit | now apply Avoids_digits].
Qed.

(** A match of a pattern that starts with a literal: its first character
    folds to the first of the literal, and the rest avoids [y] when the
    rest of the pattern does. *)
Lemma first_and_rest (y x : ascii) (p : string) (mt : matcher) :
  all (differs y) p = true -> Avoids y mt ->
  Matches (fun m => exists c m', m = String c m' /\ foldCase c = x
                                 /\ all (isNot y) m' = true)
          (seq (lit (String x p)) mt).
Proof.
  intros Hp Hmt. eapply Matches_impl;
    [|apply (Matches_seq _ _ _ _ (Matches_lit (String x p)) Hmt)].
  intros m (a & b & -> & Ha & Hb). destruct a as [|c a]; [discriminate|].
  simpl in Ha. injection Ha as Hc Ha. exists c, (a +:+ b).
  repeat split; [exact Hc|]. rewrite all_app, Hb, all_isNot_fold, Ha, Hp.
  reflexivity.
Qed.

Lemma first_of (x : ascii) (p : string) (mt : matcher) (s m r : string) :
  seq (lit (String x p)) mt s = Some (m, r) ->
  exists c m', m = String c m' /\ foldCase c = x.
Proof.
  intros H. apply seq_inv in H as (a & b & r1 & Ha & _ & ->).
  apply lit_inv in Ha as [_ Ha]. destruct a as [|c a]; [discriminate|].
  injection Ha as Hc _. now exists c, (a +:+ b).
Qed.

Lemma not_error_of (mt : matcher) (s m r : string) (c : ascii) (m' : string) :
  Avoids "x"%char mt -> Avoids "b"%char mt ->
  mt s = Some (m, r) -> m = String c m' ->
  Ascii.eqb (foldCase c) "e"%char = false ->
  errorRE_test m = false.
Proof.
  intros Hx Hb H -> Hc. apply errorRE_test_false; [exact Hc| |].
  - now destruct (Hx _ _ _ H).
  - now destruct (Hb _ _ _ H).
Qed.

Lemma matchHandler_assignment (name : string) (s m r : string) :
  name = "pid" \/ name = "port" ->
  seq (lit (name +:+ "=")) digits s = Some (m, r) ->
  exists a d, m = a +:+ d /\ mapString foldCase a = name +:+ "="
    /\ all isDigit d = true /\ d <> ""
    /\ Mongod.keyValue m = (name, Some d).
Proof.
  intros Hname H.
  assert (He : errorRE_test m = false).
  { destruct Hname as [-> | ->];
      destruct (first_of _ _ _ _ _ _ H) as (c & m' & Hm & Hc);
      [ apply (not_error_of _ _ _ _ _ _
                 (Avoids_assignment "x"%char "pid=" eq_refl eq_refl)
                 (Avoids_assignment "b"%char "pid=" eq_refl eq_refl) H Hm)
      | apply (not_error_of _ _ _ _ _ _
                 (Avoids_assignment "x"%char "port=" eq_refl eq_refl)
                 (Avoids_assignment "b"%char "port=" eq_refl eq_refl) H Hm) ];
      now rewrite Hc. }
  apply seq_inv in H as (a & d & r1 & Ha & Hd & ->).
  apply lit_inv in Ha as [_ Ha]. apply many1_inv in Hd as (_ & Hd & Hne).
  exists a, d. repeat split; try assumption.
  apply keyValue_assignment; try assumption.
  now destruct Hname as [-> | ->].
Qed.

Lemma matchHandler_pid (s m r : string) :
  pidRE s = Some (m, r) ->
  exists d, all isDigit d = true /\ d <> ""
    /\ forall inner w,
         Mongod.matchHandler inner m w
         = (setServer (withPid (Number (Some d))) w, false).
Proof.
  intros H. destruct (matchHandler_assignment "pid" s m r (or_introl eq_refl) H)
    as (a & d & -> & _ & Hd & Hne & Hk).
  exists d. repeat split; try assumption. intros inner w.
  unfold Mongod.matchHandler. now rewrite Hk.
Qed.

Lemma matchHandler_port (s m r : string) :
  portRE s = Some (m, r) ->
  exists d, all isDigit d = true /\ d <> ""
    /\ forall inner w,
         Mongod.matchHandler inner m w
         = (setServer (withPort (Number (Some d))) w, false).
Proof.
  intros H. destruct (matchHandler_assignment "port" s m r (or_intror eq_refl) H)
    as (a & d & -> & _ & Hd & Hne & Hk).
  exists d. repeat split; try assumption. intros inner w.
  unfold Mongod.matchHandler. now rewrite Hk.
Qed.

(** A match of three words: the key starts with the first letter of the
    first word. *)
Lemma keyValue_phrase (x : ascii) (a b c : string) (s m r : string) :
  isLower x = true -> Ascii.eqb x "e"%char = false ->
  all (differs "x"%char) (String x a) = true -> all (differs "x"%char) b = true ->
  all (differs "x"%char) c = true ->
  all (differs "b"%char) (String x a) = true -> all (differs "b"%char) b = true ->
  all (differs "b"%char) c = true ->
  phrase (String x a) b c s = Some (m, r) ->
  exists k v, Mongod.keyValue m = (String x k, v).
Proof.
  intros Hx He X1 X2 X3 B1 B2 B3 H.
  destruct (first_of _ _ _ _ _ _ H) as (c0 & m' & Hm & Hc).
  assert (E : errorRE_test m = false).
  { apply (not_error_of _ _ _ _ _ _
               (Avoids_phrase "x"%char (String x a) b c eq_refl X1 X2 X3)
               (Avoids_phrase "b"%char (String x a) b c eq_refl B1 B2 B3)
               H Hm).
    now rewrite Hc. }
  subst m. rewrite <- Hc. apply keyValue_head; [now rewrite Hc | exact E].
Qed.

Lemma matchHandler_waiting (s m r : string) :
  waitingRE s = Some (m, r) ->
  forall inner w,
    Mongod.matchHandler inner m w
    = Mongod.finish inner VNull (emit "open" [] (setServer (withRunning true) w))
    \/ Mongod.matchHandler inner m w = (w, false).
Proof.
  intros H inner w.
  destruct (keyValue_phrase "w"%char "aiting" "for" "connections" s m r)
    as (k & v & Hk); try reflexivity; [exact H|].
  unfold Mongod.matchHandler. rewrite Hk. cbn.
  destruct (String.eqb k "aitingforconnections"); auto.
Qed.

Lemma matchHandler_inUse (s m r : string) :
  inUseRE s = Some (m, r) ->
  forall inner w,
    Mongod.matchHandler inner m w
    = Mongod.finish inner
        (Mongod.newError (Some "Address already in use") (-2)) w
    \/ Mongod.matchHandler inner m w = (w, false).
Proof.
  intros H inner w.
  destruct (keyValue_phrase "a"%char "lready" "in" "use" s m r)
    as (k & v & Hk); try reflexivity; [exact H|].
  unfold Mongod.matchHandler. rewrite Hk. cbn.
  destruct (String.eqb k "lreadyinuse"); auto.
Qed.

Lemma matchHandler_denied (s m r : string) :
  deniedRE s = Some (m, r) ->
  forall inner w,
    Mongod.matchHandler inner m w
    = Mongod.finish inner (Mongod.newError (Some "Permission denied") (-3)) w
    \/ Mongod.matchHandler inner m w = (w, false).
Proof.
  intros H inner w.
  destruct (keyValue_phrase "d"%char "enied" "for" "socket" s m r)
    as (k & v & Hk); try reflexivity; [exact H|].
  unfold Mongod.matchHandler. rewrite Hk. cbn.
  destruct (String.eqb k "eniedforsocket"); auto.
Qed.

Lemma search_here (mt : matcher) (s : string) (x : string * string) :
  mt s = Some x -> search mt s = true.
Proof. intros H. destruct s; simpl; now rewrite H. Qed.

Lemma errorRE_test_generic (s m r : string) :
  genericRE s = Some (m, r) -> errorRE_test m = true.
Proof.
  intros H. apply seq_inv in H as (a & b & r1 & Ha & _ & ->).
  unfold errorRE_test.
  destruct (lit "error" (a +:+ b)) eqn:E; [reflexivity|].
  unfold errorWord in Ha.
  apply alt_inv in Ha as [Ha|[_ Ha]].
  { apply lit_inv in Ha as [_ Ha]. now rewrite (lit_intro _ _ b Ha) in E. }
  apply alt_inv in Ha as [Ha|[_ Ha]]; apply lit_inv in Ha as [_ Ha].
  - now rewrite (search_here _ _ _ (lit_intro _ _ b Ha)).
  - rewrite (search_here _ _ _ (lit_intro _ _ b Ha)). apply orb_true_r.
Qed.

Lemma matchHandler_generic (s m r : string) :
  genericRE s = Some (m, r) ->
  forall inner w,
    Mongod.matchHandler inner m w
    = Mongod.finish inner (Mongod.newError (Some (trim m)) (-1)) w.
Proof.
  intros H inner w. unfold Mongod.matchHandler, Mongod.keyValue.
  now rewrite (errorRE_test_generic _ _ _ H).
Qed.

Lemma words_not_error (m p : string) (x : ascii) (p' : string) :
  mapString foldCase m = p -> p = String x p' ->
  Ascii.eqb x "e"%char = false ->
  all (differs "x"%char) p = true -> all (differs "b"%char) p = true ->
  errorRE_test m = false.
Proof.
  intros Hm -> He Hx Hb. destruct m as [|c m]; [discriminate|].
  pose proof Hm as Hm'. simpl in Hm'. injection Hm' as Hc _.
  apply errorRE_test_false; rewrite ?Hc, ?all_isNot_fold, ?Hm; auto.
Qed.

Lemma matchHandler_ready (m : string) (inner : nat) (w : World) :
  mapString foldCase m = "waiting for connections" ->
  Mongod.matchHandler inner m w
  = Mongod.finish inner VNull (emit "open" [] (setServer (withRunning true) w)).
Proof.
  intros Hm. unfold Mongod.matchHandler.
  rewrite (keyValue_words m _ Hm eq_refl); [reflexivity|].
  eapply words_not_error; [exact Hm|reflexivity..].
Qed.

Lemma phrase_inv (a b c s m r : string) :
  phrase a b c s = Some (m, r) ->
  exists ma s1 mb s2 mc,
    m = ma +:+ s1 +:+ mb +:+ s2 +:+ mc
    /\ mapString foldCase ma = a /\ all isSpace s1 = true
    /\ mapString foldCase mb = b /\ all isSpace s2 = true
    /\ mapString foldCase mc = c.
Proof.
  unfold phrase. intros H.
  apply seq_inv in H as (ma & t1 & r1 & Ha & H & ->).
  apply seq_inv in H as (s1 & t2 & r2 & Hs1 & H & ->).
  apply seq_inv in H as (mb & t3 & r3 & Hb & H & ->).
  apply seq_inv in H as (s2 & mc & r4 & Hs2 & Hc & ->).
  apply lit_inv in Ha as [_ Ha]. apply lit_inv in Hb as [_ Hb].
  apply lit_inv in Hc as [_ Hc].
  apply many1_inv in Hs1 as (_ & Hs1 & _).
  apply many1_inv in Hs2 as (_ & Hs2 & _).
  exists ma, s1, mb, s2, mc. auto 10.
Qed.

Lemma removeSpaces_app (a b : string) :
  removeSpaces (a +:+ b) = removeSpaces a +:+ removeSpaces b.
Proof.
  induction a as [|c a IH]; simpl; [reflexivity|].
  destruct (Ascii.eqb c " "%char); simpl; now rewrite IH.
Qed.

Lemma only_spaces (s : string) :
  all isSpace s = true -> spaced s = true ->
  mapString foldCase s = s /\ removeSpaces s = ""
  /\ all (fun x => isLower x || Ascii.eqb x " "%char) s = true.
Proof.
  unfold spaced. induction s as [|c s IH]; simpl; [auto|].
  intros [Hc Hs]%andb_prop [Hc' Hs']%andb_prop.
  rewrite Hc in Hc'. simpl in Hc'. destruct (IH Hs Hs') as (E1 & E2 & E3).
  destruct (space_facts c Hc) as (F & _). rewrite F, E1, Hc', E2, E3.
  rewrite orb_true_r. auto.
Qed.

Lemma spaced_app (a b : string) : spaced (a +:+ b) = spaced a && spaced b.
Proof. apply all_app. Qed.

(** Three words separated by spaces: the key is the three words in a row. *)
Lemma keyValue_spaced (a b c s m r : string) :
  phrase a b c s = Some (m, r) -> spaced m = true ->
  all isLower a = true -> all isLower b = true -> all isLower c = true ->
  errorRE_test m = false ->
  Mongod.keyValue m = (a +:+ b +:+ c, None).
Proof.
  intros H Hsp La Lb Lc He.
  apply phrase_inv in H as (ma & s1 & mb & s2 & mc & -> & Ha & H1 & Hb & H2 & Hc).
  rewrite !spaced_app in Hsp.
  apply andb_prop in Hsp as [_ Hsp]. apply andb_prop in Hsp as [S1 Hsp].
  apply andb_prop in Hsp as [_ Hsp]. apply andb_prop in Hsp as [S2 _].
  destruct (only_spaces s1 H1 S1) as (F1 & R1 & A1).
  destruct (only_spaces s2 H2 S2) as (F2 & R2 & A2).
  assert (W : forall p, all isLower p = true ->
                all (fun x => isLower x || Ascii.eqb x " "%char) p = true
                /\ removeSpaces p = p).
  { clear. induction p as [|x p IH]; simpl; [auto|].
    intros [Hx Hp]%andb_prop. destruct (IH Hp) as [-> ->]. rewrite Hx.
    split; [reflexivity|].
    destruct (Ascii.eqb x " "%char) eqn:E; [|reflexivity].
    apply Ascii.eqb_eq in E. subst x. discriminate. }
  destruct (W a La) as [Wa Ra]. destruct (W b Lb) as [Wb Rb].
  destruct (W c Lc) as [Wc Rc].
  rewrite (keyValue_words _ (a +:+ s1 +:+ b +:+ s2 +:+ c)); [| | |exact He].
  - now rewrite !removeSpaces_app, Ra, Rb, Rc, R1, R2.
  - now rewrite !mapString_app, Ha, Hb, Hc, F1, F2.
  - now rewrite !all_app, Wa, Wb, Wc, A1, A2.
Qed.

Lemma matchHandler_inUse_spaced (s m r : string) (inner : nat) (w : World) :
  inUseRE s = Some (m, r) -> spaced m = true ->
  Mongod.matchHandler inner m w
  = Mongod.finish inner (Mongod.newError (Some "Address already in use") (-2)) w.
Proof.
  intros H Hsp. unfold Mongod.matchHandler.
  rewrite (keyValue_spaced "already" "in" "use" s m r H Hsp); try reflexivity.
  destruct (first_of _ _ _ _ _ _ H) as (c0 & m' & Hm & Hc).
  apply (not_error_of _ _ _ _ _ _
           (Avoids_phrase "x"%char "already" "in" "use" eq_refl eq_refl
              eq_refl eq_refl)
           (Avoids_phrase "b"%char "already" "in" "use" eq_refl eq_refl
              eq_refl eq_refl) H Hm).
  now rewrite Hc.
Qed.

Lemma matchHandler_denied_spaced (s m r : string) (inner : nat) (w : World) :
  deniedRE s = Some (m, r) -> spaced m = true ->
  Mongod.matchHandler inner m w
  = Mongod.finish inner (Mongod.newError (Some "Permission denied") (-3)) w.
Proof.
  intros H Hsp. unfold Mongod.matchHandler.
  rewrite (keyValue_spaced "denied" "for" "socket" s m r H Hsp);
    try reflexivity.
  destruct (first_of _ _ _ _ _ _ H) as (c0 & m' & Hm & Hc).
  apply (not_error_of _ _ _ _ _ _
           (Avoids_phrase "x"%char "denied" "for" "socket" eq_refl eq_refl
              eq_refl eq_refl)
           (Avoids_phrase "b"%char "denied" "for" "socket" eq_refl eq_refl
              eq_refl eq_refl) H Hm).
  now rewrite Hc.
Qed.

Lemma matchAll_In (m : string) : forall s k,
  In m (matchAll k s) -> exists s' r, keyRE s' = Some (m, r).
Proof.
  induction s as [|c s IH]; intros k H; simpl in H; [contradiction|].
  destruct k as [|k]; [|now apply (IH k)].
  destruct (keyRE (String c s)) as [[m' r']|] eqn:E; [|now apply (IH 0%nat)].
  destruct H as [<- | H]; [now exists (String c s), r' | now apply (IH _ H)].
Qed.

Lemma keyRE_cases (s m r : string) :
  keyRE s = Some (m, r) ->
  pidRE s = Some (m, r) \/ portRE s = Some (m, r) \/ waitingRE s = Some (m, r)
  \/ inUseRE s = Some (m, r) \/ deniedRE s = Some (m, r)
  \/ genericRE s = Some (m, r).
Proof.
  unfold keyRE, failureRE. intros H.
  repeat (apply alt_inv in H as [H|[_ H]]; [tauto|]). tauto.
Qed.

End Alternatives.

(** ** Promises *)

Lemma settle_pending (i : nat) (s : settlement) (w : World) :
  promises w !! i = Some Pending -> promises (settle i s w) !! i = Some s.
Proof.
  intros H. unfold settle. rewrite H. cbn.
  apply list_lookup_insert_eq. now apply lookup_lt_Some in H.
Qed.

Lemma finish_promise (inner : nat) (err : value) (w : World) :
  promises w !! inner = Some Pending ->
  promises (fst (Mongod.finish inner err w)) !! inner
  = Some (match err with VNull => Resolved VNull | _ => Rejected err end).
Proof.
  intros H. unfold Mongod.finish. cbn [fst].
  destruct err; now apply settle_pending.
Qed.

(** ** The readiness line *)

Section Readiness.
Import Js RegExp.

Lemma many1_intro (q : ascii -> bool) (m r : string) :
  all q m = true -> m <> "" ->
  match r with String c _ => q c = false | EmptyString => True end ->
  many1 q (m +:+ r) = Some (m, r).
Proof.
  intros Hm Hne Hr. unfold many1. rewrite (span_intro q m r Hm Hr).
  now destruct m.
Qed.

Lemma fold_space (s : string) : mapString foldCase s = " " -> s = " ".
Proof.
  destruct s as [|c [|]]; simpl; try discriminate. intros H. injection H as H.
  destruct (foldCase_fixed c) as [E _]; [now rewrite H | congruence].
Qed.

Lemma phrase_intro (a b c : string) (x y : ascii) (b' c' : string)
    (ma mb mc r : string) :
  b = String x b' -> c = String y c' -> isLower x = true -> isLower y = true ->
  mapString foldCase ma = a -> mapString foldCase mb = b ->
  mapString foldCase mc = c ->
  phrase a b c (ma +:+ " " +:+ mb +:+ " " +:+ mc +:+ r)
  = Some (ma +:+ " " +:+ mb +:+ " " +:+ mc, r).
Proof.
  intros -> -> Hx Hy Ha Hb Hc. unfold phrase, seq.
  rewrite (lit_intro _ _ _ Ha).
  destruct mb as [|cb mb]; [discriminate|]. pose proof Hb as Hb'.
  simpl in Hb'. injection Hb' as Hcb _.
  destruct mc as [|cc mc]; [discriminate|]. pose proof Hc as Hc'.
  simpl in Hc'. injection Hc' as Hcc _.
  assert (Sb : isSpace cb = false).
  { apply (letter_facts cb). now rewrite Hcb. }
  assert (Sc : isSpace cc = false).
  { apply (letter_facts cc). now rewrite Hcc. }
  unfold spaces.
  rewrite (many1_intro isSpace " " (String cb mb +:+ " " +:+ String cc mc +:+ r))
    by (try reflexivity; try discriminate; exact Sb).
  rewrite (lit_intro _ _ _ Hb).
  rewrite (many1_intro isSpace " " (String cc mc +:+ r))
    by (try reflexivity; try discriminate; exact Sc).
  now rewrite (lit_intro _ _ _ Hc).
Qed.

Lemma waiting_words (ph : string) :
  mapString foldCase ph = "waiting for connections" ->
  exists c ph' ma mb mc,
    ph = String c ph' /\ foldCase c = "w"%char
    /\ ph = ma +:+ " " +:+ mb +:+ " " +:+ mc
    /\ mapString foldCase ma = "waiting" /\ mapString foldCase mb = "for"
    /\ mapString foldCase mc = "connections".
Proof.
  intros H. pose proof H as H0.
  change "waiting for connections"
    with ("waiting" +:+ " " +:+ "for" +:+ " " +:+ "connections") in H.
  apply mapString_app_inv in H as (ma & t1 & -> & Ha & H).
  apply mapString_app_inv in H as (s1 & t2 & -> & Hs1 & H).
  apply mapString_app_inv in H as (mb & t3 & -> & Hb & H).
  apply mapString_app_inv in H as (s2 & mc & -> & Hs2 & Hc).
  apply fold_space in Hs1 as ->. apply fold_space in Hs2 as ->.
  destruct ma as [|c ma]; [discriminate|].
  pose proof Ha as Ha'. simpl in Ha'. injection Ha' as Hc0 _.
  exists c, (ma +:+ " " +:+ mb +:+ " " +:+ mc), (String c ma), mb, mc.
  repeat split; assumption.
Qed.

Lemma keyRE_ready (ph post : string) :
  mapString foldCase ph = "waiting for connections" ->
  keyRE (ph +:+ post) = Some (ph, post).
Proof.
  intros H. destruct (waiting_words ph H)
    as (c & ph' & ma & mb & mc & E1 & Hc & E2 & Ha & Hb & Hc').
  unfold keyRE, alt.
  assert (pidRE (ph +:+ post) = None) as ->.
  { rewrite E1. unfold pidRE, seq. simpl. now rewrite Hc. }
  assert (portRE (ph +:+ post) = None) as ->.
  { rewrite E1. unfold portRE, seq. simpl. now rewrite Hc. }
  rewrite E2 at 1. rewrite !app_assoc_s. unfold waitingRE.
  rewrite (phrase_intro "waiting" "for" "connections" "f"%char "c"%char
             "or" "onnections" ma mb mc post) by (reflexivity || assumption).
  now rewrite <- E2.
Qed.

Lemma prefix_bound (y : ascii) : forall pre m x t r,
  pre +:+ String x t = m +:+ r ->
  all (isNot y) m = true -> isNot y x = false ->
  (String.length m <= String.length pre)%nat.
Proof.
  induction pre as [|a pre IH]; intros [|b m] x t r H Hm Hx; simpl in *;
    try lia.
  - injection H as -> _. apply andb_prop in Hm as [Hm _]. congruence.
  - injection H as _ H. apply andb_prop in Hm as [_ Hm].
    specialize (IH _ _ _ _ H Hm Hx). lia.
Qed.

Lemma ready_now (p inner : nat) (w : World) :
  promises w !! inner = Some Pending ->
  readyAfter inner w
    (Mongod.removeListeners p
       (fst (Mongod.finish inner VNull
               (emit "open" [] (setServer (withRunning true) w))))).
Proof.
  intros Hp. unfold readyAfter, Mongod.removeListeners, Mongod.finish, settle.
  cbn. rewrite Hp. cbn.
  assert (Hlen : (inner < length (promises w))%nat)
    by now apply lookup_lt_Some in Hp.
  assert (Hcount : (log w ++ [Emit "open" []]) ++ [Settle inner]
                   = log w ++ [Emit "open" []; Settle inner]).
  { now rewrite <- List.app_assoc. }
  destruct (process (server w)) as [q|]; cbn.
  - destruct (q =? p)%nat; unfold setProc; cbn;
      [destruct (procs w !! p); cbn|];
      (repeat split; [now apply list_lookup_insert_eq | exact Hcount]).
  - repeat split; [now apply list_lookup_insert_eq | exact Hcount].
Qed.

Lemma readyAfter_same_log (inner : nat) (w0 w w' : World) :
  log w0 = log w -> readyAfter inner w w' -> readyAfter inner w0 w'.
Proof. unfold readyAfter. intros ->. tauto. Qed.

End Readiness.

Section Scan.
Import Js RegExp.

Variables (ph post : string) (p inner : nat).
Hypothesis Hph : mapString foldCase ph = "waiting for connections".

Lemma failureFree_tail (a : ascii) (pre : string) :
  failureFree (String a pre) (ph +:+ post) = true ->
  failureRE (String a pre +:+ ph +:+ post) = None
  /\ failureFree pre (ph +:+ post) = true.
Proof.
  cbn [failureFree].
  destruct (failureRE (String a pre +:+ ph +:+ post)); [discriminate|auto].
Qed.

(** A match that starts inside [pre] and whose characters after the first
    avoid the letter w ends inside [pre]. *)
Lemma match_inside (a : ascii) (pre m r : string) :
  String a pre +:+ ph +:+ post = m +:+ r ->
  (exists c m', m = String c m' /\ all (isNot "w"%char) m' = true) ->
  (String.length m - 1 <= String.length pre)%nat.
Proof.
  intros E (c & m' & -> & Hm). simpl in E. injection E as _ E.
  destruct (waiting_words ph Hph) as (c0 & ph' & _ & _ & _ & Eph & Hc0 & _).
  rewrite Eph in E. simpl in E.
  pose proof (prefix_bound "w"%char pre m' c0 (ph' +:+ post) r E Hm) as B.
  simpl. rewrite Nat.sub_0_r. apply B. unfold isNot. now rewrite Hc0.
Qed.

Lemma scan_ready : forall pre k w,
  (k <= String.length pre)%nat ->
  failureFree pre (ph +:+ post) = true ->
  promises w !! inner = Some Pending ->
  readyAfter inner w
    (Mongod.forMatches p inner (matchAll k (pre +:+ ph +:+ post)) w).
Proof.
  induction pre as [|a pre IH]; intros k w Hk Hf Hp.
  - assert (k = 0)%nat as -> by (simpl in Hk; lia).
    destruct (waiting_words ph Hph) as (c0 & ph' & _ & _ & _ & Eph & _).
    change ("" +:+ ph +:+ post) with (ph +:+ post).
    assert (matchAll 0 (ph +:+ post)
            = ph :: matchAll (String.length ph - 1) (ph' +:+ post)) as ->.
    { pose proof (keyRE_ready ph post Hph) as K. rewrite Eph in K |- *.
      simpl. simpl in K. now rewrite K. }
    cbn [Mongod.forMatches]. rewrite (matchHandler_ready _ _ _ Hph).
    apply (ready_now p inner w Hp).
  - apply failureFree_tail in Hf as [Hnone Hf].
    destruct k as [|k]; [|apply IH; [simpl in Hk; lia | exact Hf | exact Hp]].
    change (matchAll 0 (String a pre +:+ ph +:+ post))
      with (match keyRE (String a pre +:+ ph +:+ post) with
            | Some (m, _) =>
                m :: matchAll (String.length m - 1) (pre +:+ ph +:+ post)
            | None => matchAll 0 (pre +:+ ph +:+ post)
            end).
    destruct (keyRE (String a pre +:+ ph +:+ post)) as [[m r]|] eqn:K;
      [|apply IH; [lia | exact Hf | exact Hp]].
    unfold keyRE in K.
    apply alt_inv in K as [K|[_ K]];
      [|apply alt_inv in K as [K|[_ K]];
        [|apply alt_inv in K as [K|[_ K]]; [|congruence]]].
    + destruct (matchHandler_pid _ _ _ K) as (d & _ & _ & Hm).
      cbn [Mongod.forMatches]. rewrite Hm.
      destruct (first_and_rest "w"%char "p"%char "id=" digits eq_refl
                  (Avoids_digits "w"%char eq_refl) _ _ _ K)
        as (E & c & m' & Em & _ & Hw).
      eapply readyAfter_same_log; [|apply IH];
        [reflexivity | eapply match_inside; eauto | exact Hf | exact Hp].
    + destruct (matchHandler_port _ _ _ K) as (d & _ & _ & Hm).
      cbn [Mongod.forMatches]. rewrite Hm.
      destruct (first_and_rest "w"%char "p"%char "ort=" digits eq_refl
                  (Avoids_digits "w"%char eq_refl) _ _ _ K)
        as (E & c & m' & Em & _ & Hw).
      eapply readyAfter_same_log; [|apply IH];
        [reflexivity | eapply match_inside; eauto | exact Hf | exact Hp].
    + cbn [Mongod.forMatches].
      destruct (matchHandler_waiting _ _ _ K inner w) as [Hm|Hm]; rewrite Hm.
      * apply (ready_now p inner w Hp).
      * assert (Av : Avoids "w"%char
                       (seq spaces (seq (lit "for")
                                      (seq spaces (lit "connections"))))).
        { repeat first [ apply Avoids_seq | now apply Avoids_lit
                       | now apply Avoids_spaces ]. }
        destruct (first_and_rest "w"%char "w"%char "aiting" _ eq_refl Av
                    _ _ _ K) as (E & c & m' & Em & _ & Hw).
        apply IH; [eapply match_inside; eauto | exact Hf | exact Hp].
Qed.

End Scan.

(** C4 (amended). A line that holds the phrase "waiting for connections",
    in any letter case, and in which no error, exception or badvalue token
    and no "already in use" or "denied for socket" phrase starts before it:
    the handler of a pending attempt sets [isRunning], emits 'open' once,
    clears [isOpening] and resolves the attempt; nothing else is emitted
    and nothing rejects it. *)
Theorem readiness_line
    (pre ph post : string) (p inner : nat) (w : World) :
  Js.mapString Js.foldCase ph = "waiting for connections" ->
  failureFree pre (ph +:+ post) = true ->
  uncaught w = false ->
  promises w !! inner = Some Pending ->
  readyAfter inner w (Mongod.lineHandler p inner w (pre +:+ ph +:+ post)).
Proof.
  intros Hph Hf Hu Hp. unfold Mongod.lineHandler, RegExp.match_keyRE.
  rewrite Hu. apply scan_ready; [exact Hph | lia | exact Hf | exact Hp].
Qed.

(** ** One chunk of output during an open attempt *)

Section Chunk.

Lemma matchHandler_cases (inner : nat) (m : string) (w : World) :
  (exists msg code,
      Mongod.matchHandler inner m w
      = Mongod.finish inner (VError "Error" msg (VNum code)) w)
  \/ Mongod.matchHandler inner m w
     = Mongod.finish inner VNull (emit "open" [] (setServer (withRunning true) w))
  \/ (exists v, Mongod.matchHandler inner m w = (setServer (withPid v) w, false))
  \/ (exists v, Mongod.matchHandler inner m w = (setServer (withPort v) w, false))
  \/ Mongod.matchHandler inner m w = (w, false).
Proof.
  unfold Mongod.matchHandler, Mongod.newError.
  destruct (Mongod.keyValue m) as [k v].
  repeat match goal with
         | |- context [if String.eqb k ?l then _ else _] =>
             destruct (String.eqb k l)
         end; eauto 10.
Qed.

Lemma setProc_fields (p : nat) (f : Proc -> Proc) (w : World) :
  server (setProc p f w) = server w /\ promises (setProc p f w) = promises w
  /\ uncaught (setProc p f w) = uncaught w /\ log (setProc p f w) = log w
  /\ queue (setProc p f w) = queue w
  /\ pendingPromises (setProc p f w) = pendingPromises w
  /\ reactions (setProc p f w) = reactions w.
Proof. unfold setProc. destruct (procs w !! p); cbn; auto 10. Qed.

Lemma setProc_lookup (p : nat) (f : Proc -> Proc) (w : World) (pr : Proc) :
  procs w !! p = Some pr -> procs (setProc p f w) !! p = Some (f pr).
Proof.
  intros H. unfold setProc. rewrite H. cbn.
  apply list_lookup_insert_eq. now apply lookup_lt_Some in H.
Qed.

Lemma settle_fields (i : nat) (s : settlement) (w : World) :
  server (settle i s w) = server w /\ procs (settle i s w) = procs w
  /\ uncaught (settle i s w) = uncaught w /\ queue (settle i s w) = queue w
  /\ pendingPromises (settle i s w) = pendingPromises w
  /\ reactions (settle i s w) = reactions w.
Proof. unfold settle. destruct (promises w !! i) as [[]|]; cbn; auto 10. Qed.

Lemma attempt_settled (p inner : nat) (w : World) :
  attempt p inner w -> isSettled w inner = true ->
  isOpening (server w) = false /\ process (server w) = Some p
  /\ exists pr, procs w !! p = Some pr /\ attached pr = false.
Proof.
  intros (Hp & _ & pr & Hpr & _ & _ & [Hpend|[Ho Ha]]) Hs.
  - unfold isSettled in Hs. now rewrite Hpend in Hs.
  - eauto.
Qed.

Lemma attempt_server (p inner : nat) (f : Server -> Server) (w : World) :
  process (f (server w)) = process (server w) ->
  isOpening (f (server w)) = isOpening (server w) ->
  attempt p inner w -> attempt p inner (setServer f w).
Proof.
  intros H1 H2 (Hp & Hu & pr & Hpr & Hs & Hc & H). unfold attempt. cbn.
  rewrite H1, H2. eauto 10.
Qed.

Lemma attempt_record (p inner : nat) (e : event) (w : World) :
  attempt p inner w -> attempt p inner (record e w).
Proof. intros H. exact H. Qed.

Lemma attempt_setProc (p inner : nat) (f : Proc -> Proc) (w : World) :
  (forall pr, settles (f pr) = settles pr /\ closed (f pr) = closed pr
              /\ (attached pr = false -> attached (f pr) = false)) ->
  attempt p inner w -> attempt p inner (setProc p f w).
Proof.
  intros Hf (Hp & Hu & pr & Hpr & Hs & Hc & H). unfold attempt.
  destruct (setProc_fields p f w) as (-> & -> & -> & _).
  destruct (Hf pr) as (F1 & F2 & F3).
  repeat split; try assumption. exists (f pr).
  rewrite (setProc_lookup _ _ _ _ Hpr), F1, F2. intuition.
Qed.

Lemma attempt_finish (p inner : nat) (err : value) (w : World) :
  attempt p inner w ->
  attempt p inner
    (Mongod.removeListeners p (fst (Mongod.finish inner err w))).
Proof.
  intros (Hp & Hu & pr & Hpr & Hs & Hc & _).
  unfold Mongod.finish, Mongod.removeListeners. cbn [fst].
  set (w1 := setServer (withOpening false) w).
  assert (E : forall s, server (settle inner s w1) = server w1
                        /\ procs (settle inner s w1) = procs w1
                        /\ uncaught (settle inner s w1) = uncaught w1).
  { intros s. destruct (settle_fields inner s w1) as (? & ? & ? & _). auto. }
  assert (G : forall s, attempt p inner
                (Mongod.removeListeners p (settle inner s w1))).
  { intros s. destruct (E s) as (E1 & E2 & E3).
    unfold Mongod.removeListeners. rewrite E1. cbn. rewrite Hp, Nat.eqb_refl.
    unfold attempt.
    destruct (setProc_fields p (withAttached false) (settle inner s w1))
      as (-> & _ & -> & _).
    rewrite E1, E3. cbn. repeat split; try assumption.
    exists (withAttached false pr). rewrite (setProc_lookup _ _ _ pr).
    - cbn. auto 10.
    - now rewrite E2. }
  destruct err; apply G.
Qed.

Lemma attempt_forMatches (p inner : nat) : forall matches w,
  attempt p inner w -> attempt p inner (Mongod.forMatches p inner matches w).
Proof.
  induction matches as [|m ms IH]; intros w H; [exact H|].
  cbn [Mongod.forMatches].
  destruct (matchHandler_cases inner m w)
    as [(msg & code & E)|[E|[(v & E)|[(v & E)|E]]]]; rewrite E.
  - apply (attempt_finish p inner _ w H).
  - apply (attempt_finish p inner VNull
             (emit "open" [] (setServer (withRunning true) w))).
    apply attempt_record. now apply attempt_server.
  - apply IH. now apply attempt_server.
  - apply IH. now apply attempt_server.
  - now apply IH.
Qed.

Lemma attempt_lines (p inner : nat) : forall lines w,
  attempt p inner w ->
  attempt p inner (fold_left (Mongod.lineHandler p inner) lines w).
Proof.
  induction lines as [|l ls IH]; intros w H; [exact H|].
  cbn [fold_left]. apply IH. unfold Mongod.lineHandler.
  destruct (uncaught w); [exact H | now apply attempt_forMatches].
Qed.

Lemma attempt_emits (p inner : nat) (name : string) : forall lines w,
  attempt p inner w ->
  attempt p inner
    (fold_left (fun w line => emit name [VStr line] w) lines w).
Proof.
  induction lines as [|l ls IH]; intros w H; [exact H|].
  cbn [fold_left]. apply IH. exact H.
Qed.

Lemma emits_server (name : string) : forall lines w,
  server (fold_left (fun w line => emit name [VStr line] w) lines w) = server w.
Proof.
  induction lines as [|l ls IH]; intros w; [reflexivity|].
  cbn [fold_left]. now rewrite IH.
Qed.

Lemma attempt_onData (p inner : nat) (st : stream) (chunk : string)
    (w w' : World) :
  attempt p inner w -> onData p st chunk w = Some w' -> attempt p inner w'.
Proof.
  intros H. pose proof H as (Hp & Hu & pr & Hpr & Hs & Hc & _).
  unfold onData. rewrite Hpr, Hc.
  set (w1 := if attached pr then Mongod.dataHandler p chunk w else w).
  assert (H1 : attempt p inner w1).
  { subst w1. destruct (attached pr); [|exact H].
    unfold Mongod.dataHandler. rewrite Hpr, Hs.
    destruct (Aggregator.getTextLineAggregator (buffer pr) chunk) as [b ls].
    apply attempt_lines. apply attempt_setProc; [|exact H].
    intros pr0. cbn. auto. }
  intros E. injection E as <-.
  destruct (uncaught w1); [exact H1|].
  unfold Mongod.dataPropagator. destruct H1 as (Hp1 & Hu1 & pr1 & Hpr1 & R).
  rewrite Hpr1.
  destruct (Aggregator.getTextLineAggregator (streamBuffer st pr1) chunk)
    as [b ls].
  apply attempt_emits. apply attempt_setProc.
  - intros pr0. destruct st; cbn; auto.
  - unfold attempt. eauto 10.
Qed.

(** Once [dataHandler] is detached, a chunk changes nothing of the
    instance. *)
Lemma detached_onData (p : nat) (st : stream) (chunk : string)
    (w w' : World) (pr : Proc) :
  procs w !! p = Some pr -> attached pr = false -> uncaught w = false ->
  onData p st chunk w = Some w' ->
  server w' = server w /\ uncaught w' = false
  /\ exists pr', procs w' !! p = Some pr' /\ attached pr' = false.
Proof.
  intros Hpr Ha Hu. unfold onData. rewrite Hpr, Ha, Hu.
  destruct (closed pr); [discriminate|]. intros E. injection E as <-.
  unfold Mongod.dataPropagator. rewrite Hpr.
  destruct (Aggregator.getTextLineAggregator (streamBuffer st pr) chunk)
    as [b ls].
  split; [|split].
  - rewrite emits_server. apply setProc_fields.
  - assert (F : forall ls w0, uncaught (fold_left (fun w line =>
                 emit (streamName st) [VStr line] w) ls w0) = uncaught w0).
    { clear. induction ls as [|l ls IH]; intros w0; [reflexivity|].
      cbn [fold_left]. now rewrite IH. }
    rewrite F. now destruct (setProc_fields p (withStreamBuffer st b) w)
      as (_ & _ & -> & _).
  - exists (withStreamBuffer st b pr). split; [|now destruct st].
    assert (F : forall ls w0, procs (fold_left (fun w line =>
                 emit (streamName st) [VStr line] w) ls w0) = procs w0).
    { clear. induction ls as [|l ls IH]; intros w0; [reflexivity|].
      cbn [fold_left]. now rewrite IH. }
    rewrite F. now apply setProc_lookup.
Qed.

End Chunk.

Section Outcome.

Lemma settle_cases (i : nat) (s : settlement) (w : World) :
  (promises w !! i = Some Pending /\ promises (settle i s w) !! i = Some s)
  \/ settle i s w = w.
Proof.
  destruct (promises w !! i) as [[| |]|] eqn:E;
    try (right; unfold settle; now rewrite E).
  left. split; [reflexivity | now apply settle_pending].
Qed.

Lemma onClose_server (p : nat) (w w' : World) :
  onClose p w = Some w' ->
  process (server w') = None /\ pid (server w') = VNull
  /\ port (server w') = VNull /\ isRunning (server w') = false
  /\ isClosing (server w') = false.
Proof.
  unfold onClose. destruct (procs w !! p) as [pr|]; [|discriminate].
  destruct (closed pr); [discriminate|]. intros E. injection E as <-.
  destruct (setProc_fields p (fun pr => withClosed true (withOnceClose [] pr))
              (fold_left (fun w i => settle i (Resolved VNull) w) (onceClose pr)
                 (Mongod.closeListener w))) as (-> & _).
  assert (F : forall l w0,
             server (fold_left (fun w i => settle i (Resolved VNull) w) l w0)
             = server w0).
  { clear. induction l as [|i l IH]; intros w0; [reflexivity|].
    cbn [fold_left]. rewrite IH. apply settle_fields. }
  rewrite F. cbn. auto.
Qed.

End Outcome.

(** ** Open attempts *)

Lemma detached_deliveries (p : nat) : forall later w w' pr,
  procs w !! p = Some pr -> attached pr = false -> uncaught w = false ->
  run (deliveries p later) w = Some w' -> server w' = server w.
Proof.
  induction later as [|[st chunk] later IH]; intros w w' pr Hpr Ha Hu H.
  - cbn in H. now injection H as <-.
  - cbn [deliveries map run fst snd] in H. unfold exec in H. rewrite Hu in H.
    destruct (onData p st chunk w) as [w1|] eqn:E; [|discriminate].
    destruct (detached_onData _ _ _ _ _ _ Hpr Ha Hu E)
      as (Hs & Hu1 & pr1 & Hpr1 & Ha1).
    rewrite <- Hs. apply (IH w1 w' pr1 Hpr1 Ha1 Hu1 H).
Qed.

Lemma splitNewline_line (line : string) :
  plain line = true -> Js.splitNewline (line +:+ nl) = [line; ""].
Proof.
  unfold plain. induction line as [|c l IH]; [reflexivity|].
  cbn [Js.all]. intros [Hc Hl]%andb_prop. apply andb_prop in Hc as [H1 H2].
  apply negb_true_iff in H1, H2. specialize (IH Hl).
  change (String c l +:+ nl) with (String c (l +:+ nl)).
  cbn [Js.splitNewline]. rewrite H1, H2, IH. cbn.
  now destruct (l +:+ nl).
Qed.

Lemma aggregator_line (line : string) :
  plain line = true ->
  Aggregator.getTextLineAggregator "" (line +:+ nl) = ("", [line]).
Proof.
  intros H. unfold Aggregator.getTextLineAggregator.
  now rewrite (splitNewline_line line H).
Qed.

Lemma propagator_server (p : nat) (st : stream) (chunk : string) (w : World) :
  server (Mongod.dataPropagator p st chunk w) = server w.
Proof.
  unfold Mongod.dataPropagator. destruct (procs w !! p) as [pr|]; [|reflexivity].
  destruct (Aggregator.getTextLineAggregator (streamBuffer st pr) chunk)
    as [b ls].
  rewrite emits_server. apply setProc_fields.
Qed.

Lemma aggregator_completes (buffer line : string) :
  plain line = true ->
  Aggregator.getTextLineAggregator buffer (line +:+ nl)
  = ("", [buffer +:+ line]).
Proof.
  intros H. unfold Aggregator.getTextLineAggregator.
  now rewrite (splitNewline_line line H).
Qed.

Lemma finish_fields (inner : nat) (err : value) (w : World) :
  snd (Mongod.finish inner err w) = true
  /\ pid (server (fst (Mongod.finish inner err w))) = pid (server w)
  /\ port (server (fst (Mongod.finish inner err w))) = port (server w).
Proof.
  unfold Mongod.finish. cbn [fst snd]. split; [reflexivity|].
  destruct err; rewrite (proj1 (settle_fields _ _ _)); now cbn.
Qed.

(** [matchHandler] on a match that settles and on one that does not. *)
Lemma matchHandler_settling (inner : nat) (m : string) (w : World) :
  settling m = true ->
  exists w', Mongod.matchHandler inner m w = (w', true)
             /\ pid (server w') = pid (server w)
             /\ port (server w') = port (server w).
Proof.
  unfold settling, Mongod.matchHandler.
  destruct (Mongod.keyValue m) as [k v]. cbn [fst].
  intros H.
  assert (F : forall err w0,
             pid (server w0) = pid (server w) ->
             port (server w0) = port (server w) ->
             exists w', Mongod.finish inner err w0 = (w', true)
                        /\ pid (server w') = pid (server w)
                        /\ port (server w') = port (server w)).
  { intros err w0 E1 E2.
    destruct (finish_fields inner err w0) as (S & P1 & P2).
    destruct (Mongod.finish inner err w0) as [w' d]. cbn [fst snd] in *.
    subst d. exists w'. split; [reflexivity|]. now rewrite P1, P2. }
  destruct (String.eqb k "error"); [now apply F|].
  destruct (String.eqb k "alreadyinuse"); [now apply F|].
  destruct (String.eqb k "deniedforsocket"); [now apply F|].
  cbn [orb] in H.
  destruct (String.eqb k "pid") eqn:E4.
  { apply String.eqb_eq in E4. subst k. discriminate H. }
  destruct (String.eqb k "port") eqn:E5.
  { apply String.eqb_eq in E5. subst k. discriminate H. }
  rewrite H. now apply F.
Qed.

Lemma matchHandler_passing (inner : nat) (m : string) (w : World) :
  settling m = false ->
  snd (Mongod.matchHandler inner m w) = false
  /\ (pid (server (fst (Mongod.matchHandler inner m w))),
      port (server (fst (Mongod.matchHandler inner m w))))
     = capture (pid (server w), port (server w)) m.
Proof.
  unfold settling, Mongod.matchHandler, capture.
  destruct (Mongod.keyValue m) as [k v]. cbn [fst snd].
  intros H. apply orb_false_elim in H as [H H4].
  apply orb_false_elim in H as [H H3]. apply orb_false_elim in H as [H1 H2].
  rewrite H1, H2, H3, H4.
  destruct (String.eqb k "pid"); [now split|].
  destruct (String.eqb k "port"); now split.
Qed.

Lemma removeListeners_server (p : nat) (w : World) :
  server (Mongod.removeListeners p w) = server w.
Proof.
  unfold Mongod.removeListeners.
  destruct (process (server w)) as [q|]; [|reflexivity].
  destruct (q =? p)%nat; [apply setProc_fields | reflexivity].
Qed.

(** The loop of [dataHandler] hands [matchHandler] the matches that come
    before the first one that settles, one after the other, and stops at
    that one. *)
Lemma forMatches_capture (p inner : nat) : forall matches w,
  (pid (server (Mongod.forMatches p inner matches w)),
   port (server (Mongod.forMatches p inner matches w)))
  = fold_left capture (seen matches) (pid (server w), port (server w)).
Proof.
  induction matches as [|m ms IH]; intros w; [reflexivity|].
  cbn [Mongod.forMatches seen]. destruct (settling m) eqn:S.
  - destruct (matchHandler_settling inner m w S) as (w' & -> & E1 & E2).
    cbn [fold_left]. now rewrite removeListeners_server, E1, E2.
  - destruct (matchHandler_passing inner m w S) as (E & C).
    destruct (Mongod.matchHandler inner m w) as [w1 done] eqn:M.
    cbn [fst snd] in E, C. subst done. cbn [fold_left]. rewrite <- C.
    apply IH.
Qed.

Lemma lines_capture (p inner : nat) : forall lines w,
  attempt p inner w ->
  (pid (server (fold_left (Mongod.lineHandler p inner) lines w)),
   port (server (fold_left (Mongod.lineHandler p inner) lines w)))
  = fold_left captureLine lines (pid (server w), port (server w)).
Proof.
  induction lines as [|l ls IH]; intros w H; [reflexivity|].
  cbn [fold_left].
  assert (H1 : attempt p inner (Mongod.lineHandler p inner w l))
    by (apply (attempt_lines p inner [l] w H)).
  rewrite (IH _ H1). f_equal. unfold Mongod.lineHandler, captureLine.
  destruct H as (_ & -> & _). apply forMatches_capture.
Qed.

(** What a chunk leaves in [pid] and [port] while [dataHandler] listens:
    every line that the aggregator hands over is scanned up to its first
    match that settles. *)
Lemma chunk_capture (p inner : nat) (st : stream) (chunk : string)
    (w w' : World) (pr : Proc) :
  attempt p inner w -> procs w !! p = Some pr -> attached pr = true ->
  onData p st chunk w = Some w' ->
  (pid (server w'), port (server w'))
  = fold_left captureLine
      (snd (Aggregator.getTextLineAggregator (buffer pr) chunk))
      (pid (server w), port (server w)).
Proof.
  intros Ha Hpr Hat. unfold onData. rewrite Hpr, Hat.
  destruct (closed pr); [discriminate|]. intros E. injection E as <-.
  assert (Hs : settles pr = inner).
  { destruct Ha as (_ & _ & pr0 & Hpr0 & Hs & _). congruence. }
  assert (D : (pid (server (Mongod.dataHandler p chunk w)),
               port (server (Mongod.dataHandler p chunk w)))
              = fold_left captureLine
                  (snd (Aggregator.getTextLineAggregator (buffer pr) chunk))
                  (pid (server w), port (server w))).
  { unfold Mongod.dataHandler. rewrite Hpr, Hs.
    destruct (Aggregator.getTextLineAggregator (buffer pr) chunk) as [b ls].
    cbn [snd]. rewrite lines_capture.
    - now destruct (setProc_fields p (withBuffer b) w) as (-> & _).
    - apply attempt_setProc; [|exact Ha]. intros pr0. cbn. auto. }
  destruct (uncaught (Mongod.dataHandler _ _ _)); [exact D|].
  now rewrite propagator_server.
Qed.

Lemma capture_keeps (k : string) : forall ms v,
  Forall (fun m => fst (Mongod.keyValue m) <> k) ms ->
  (k = "pid" -> fst (fold_left capture ms v) = fst v)
  /\ (k = "port" -> snd (fold_left capture ms v) = snd v).
Proof.
  induction ms as [|m ms IH]; intros v F; [now split|].
  apply Forall_cons in F as [Fm F]. cbn [fold_left].
  destruct (IH (capture v m) F) as [I1 I2].
  split; intros ->.
  - rewrite (I1 eq_refl). unfold capture.
    destruct (String.eqb _ "pid") eqn:E;
      [apply String.eqb_eq in E; contradiction|].
    now destruct (String.eqb _ "port").
  - rewrite (I2 eq_refl). unfold capture.
    destruct (String.eqb _ "pid"); [reflexivity|].
    destruct (String.eqb _ "port") eqn:E;
      [apply String.eqb_eq in E; contradiction | reflexivity].
Qed.

Lemma captureLine_keeps (k : string) : forall ls v,
  Forall (fun l => Forall (fun m => fst (Mongod.keyValue m) <> k)
                     (seen (RegExp.match_keyRE l))) ls ->
  (k = "pid" -> fst (fold_left captureLine ls v) = fst v)
  /\ (k = "port" -> snd (fold_left captureLine ls v) = snd v).
Proof.
  induction ls as [|l ls IH]; intros v F; [now split|].
  apply Forall_cons in F as [Fl F]. cbn [fold_left].
  destruct (IH (captureLine v l) F) as [I1 I2].
  destruct (capture_keeps k _ v Fl) as [C1 C2].
  split; intros ->.
  - now rewrite (I1 eq_refl), <- (C1 eq_refl).
  - now rewrite (I2 eq_refl), <- (C2 eq_refl).
Qed.

(** C3 (amended). While [dataHandler] listens, [pid] and [port] are
    captured as soon as they are seen: in a line that the line aggregator
    hands over, a [pid=] or [port=] token that comes before the first match
    of the line that settles the attempt is stored, and it is the number
    that [pid] or [port] holds after the chunk when no other token of its
    kind is handed to [matchHandler] after it. A chunk that completes a
    line hands over one line, the buffered text followed by the text of the
    chunk. But the chunk whose lines settle the attempt, by readiness or by
    an error, detaches [dataHandler] from both streams, and no chunk
    delivered afterwards changes [pid], [port] or any other field of the
    instance. *)
Theorem pid_and_port_until_the_attempt_settles
    (p inner : nat) (w : World) (pr : Proc) :
  attempt p inner w ->
  procs w !! p = Some pr ->
  (forall st chunk w' ls1 line ls2 ms1 m ms2 s r,
     attached pr = true ->
     snd (Aggregator.getTextLineAggregator (buffer pr) chunk)
     = ls1 ++ line :: ls2 ->
     seen (RegExp.match_keyRE line) = ms1 ++ m :: ms2 ->
     onData p st chunk w = Some w' ->
     (RegExp.pidRE s = Some (m, r) ->
      Forall (fun x => fst (Mongod.keyValue x) <> "pid") ms2 ->
      Forall (fun l => Forall (fun x => fst (Mongod.keyValue x) <> "pid")
                         (seen (RegExp.match_keyRE l))) ls2 ->
      exists a d, m = a +:+ d /\ Js.mapString Js.foldCase a = "pid="
                  /\ pid (server w') = Number (Some d))
     /\ (RegExp.portRE s = Some (m, r) ->
         Forall (fun x => fst (Mongod.keyValue x) <> "port") ms2 ->
         Forall (fun l => Forall (fun x => fst (Mongod.keyValue x) <> "port")
                            (seen (RegExp.match_keyRE l))) ls2 ->
         exists a d, m = a +:+ d /\ Js.mapString Js.foldCase a = "port="
                     /\ port (server w') = Number (Some d)))
  /\ (forall line, plain line = true ->
        Aggregator.getTextLineAggregator (buffer pr) (line +:+ nl)
        = ("", [buffer pr +:+ line]))
  /\ (forall st chunk later w1 w2,
        onData p st chunk w = Some w1 ->
        isSettled w1 inner = true ->
        run (deliveries p later) w1 = Some w2 ->
        server w2 = server w1).
Proof.
  intros Ha Hpr. split; [|split].
  - intros st chunk w' ls1 line ls2 ms1 m ms2 s r Hat Hlines Hseen Hd.
    pose proof (chunk_capture p inner st chunk w w' pr Ha Hpr Hat Hd) as C.
    rewrite Hlines, fold_left_app in C. cbn [fold_left] in C.
    unfold captureLine at 2 in C. rewrite Hseen, fold_left_app in C.
    cbn [fold_left] in C.
    split; intros Hm Hno Hls.
    + destruct (matchHandler_assignment "pid" s m r (or_introl eq_refl) Hm)
        as (a & d & -> & Hfold & _ & _ & Hk).
      exists a, d. split; [reflexivity|]. split; [exact Hfold|].
      apply (f_equal fst) in C. cbn [fst] in C. rewrite C.
      rewrite (proj1 (captureLine_keeps "pid" ls2 _ Hls) eq_refl).
      rewrite (proj1 (capture_keeps "pid" ms2 _ Hno) eq_refl).
      unfold capture. now rewrite Hk.
    + destruct (matchHandler_assignment "port" s m r (or_intror eq_refl) Hm)
        as (a & d & -> & Hfold & _ & _ & Hk).
      exists a, d. split; [reflexivity|]. split; [exact Hfold|].
      apply (f_equal snd) in C. cbn [snd] in C. rewrite C.
      rewrite (proj2 (captureLine_keeps "port" ls2 _ Hls) eq_refl).
      rewrite (proj2 (capture_keeps "port" ms2 _ Hno) eq_refl).
      unfold capture. now rewrite Hk.
  - intros line Hplain. now apply aggregator_completes.
  - intros st chunk later w1 w2 Hd Hs Hl.
    pose proof (attempt_onData _ _ _ _ _ _ Ha Hd) as Ha1.
    pose proof Ha1 as (_ & Hu & _).
    apply attempt_settled in Ha1 as (_ & _ & pr1 & Hpr1 & Hat); [|exact Hs].
    exact (detached_deliveries p later w1 w2 pr1 Hpr1 Hat Hu Hl).
Qed.

(** C3, the claim as stated fails: a [pid=] and a [port=] token in the
    chunk after the readiness line are not captured. *)
Lemma tokens_after_readiness_are_lost :
  option_map (fun w => (isRunning (server w), pid (server w), port (server w)))
    (run [CallOpen; Dequeue;
          Data 0 Stdout ("waiting for connections" +:+ nl);
          Data 0 Stdout ("pid=5 port=7" +:+ nl)]
       (Mongod.constructor VUndefined))
  = Some (true, VNull, VNull).
Proof. vm_compute. reflexivity. Qed.

(** C4, the claim as stated fails: an error token before the phrase takes
    the rest of the line with it, and the attempt is rejected. *)
Lemma error_token_before_the_phrase :
  let w := Mongod.lineHandler 0 3 startedWorld
             "error while waiting for connections" in
  promises w !! 3%nat
  = Some (Rejected (VError "Error" "error while waiting for connections"
                      (VNum (-1))))
  /\ isRunning (server w) = false
  /\ emitted "open" (log w) = 0%nat.
Proof. repeat split; vm_compute; reflexivity. Qed.

(** C5. The claim fails on a new instance after [open()] and the line
    "Error parsing option" on stderr: the attempt is rejected and
    [isOpening] is off, but the instance still holds the handle of the
    process; nothing closes the instance, neither 'closing' nor 'close' is
    emitted. *)
Lemma rejected_attempt_holds_the_handle :
  option_map (fun w => (promises w !! 3%nat, process (server w),
                        isOpening (server w), isRunning (server w),
                        emitted "closing" (log w), emitted "close" (log w)))
    (run [CallOpen; Dequeue; Data 0 Stderr ("Error parsing option" +:+ nl)]
       (Mongod.constructor VUndefined))
  = Some (Some (Rejected (VError "Error" "Error parsing option" (VNum (-1)))),
          Some 0%nat, false, false, 0%nat, 0%nat).
Proof. vm_compute. reflexivity. Qed.

(** ** Calls of [open] while an attempt is pending *)

Lemma open_while_opening (w : World) :
  isOpening (server w) = true ->
  Mongod.open w = (w, openPromise (server w)).
Proof. intros H. unfold Mongod.open. now rewrite H. Qed.

Lemma run_app (a b : list action) : forall w,
  run (a ++ b) w = match run a w with Some w' => run b w' | None => None end.
Proof.
  induction a as [|x a IH]; intros w; [reflexivity|].
  cbn [run app]. destruct (exec x w); [apply IH | reflexivity].
Qed.

Lemma run_repeat_open (n : nat) (w : World) :
  isOpening (server w) = true -> uncaught w = false ->
  run (repeat CallOpen n) w = Some w.
Proof.
  intros Ho Hu. induction n as [|n IH]; [reflexivity|].
  cbn [repeat run]. unfold exec. rewrite Hu, (open_while_opening w Ho).
  exact IH.
Qed.

Lemma propagator_log (p : nat) (st : stream) (chunk : string) (w : World) :
  exists lines,
    log (Mongod.dataPropagator p st chunk w)
    = log w ++ map (fun l => Emit (streamName st) [VStr l]) lines.
Proof.
  unfold Mongod.dataPropagator. destruct (procs w !! p) as [pr|];
    [|exists []; now rewrite List.app_nil_r].
  destruct (Aggregator.getTextLineAggregator (streamBuffer st pr) chunk)
    as [b ls].
  exists ls.
  replace (log w) with (log (setProc p (withStreamBuffer st b) w))
    by apply setProc_fields.
  generalize (setProc p (withStreamBuffer st b) w). clear.
  induction ls as [|l ls IH]; intros w; cbn [fold_left map].
  - now rewrite List.app_nil_r.
  - rewrite IH. cbn. now rewrite <- List.app_assoc.
Qed.

Lemma emitted_app (name : string) (a b : list event) :
  emitted name (a ++ b) = (emitted name a + emitted name b)%nat.
Proof. unfold emitted. now rewrite List.filter_app, length_app. Qed.

Lemma spawned_app (a b : list event) :
  spawned (a ++ b) = (spawned a + spawned b)%nat.
Proof. unfold spawned. now rewrite List.filter_app, length_app. Qed.

Lemma emitted_stream (name : string) (st : stream) (lines : list string) :
  String.eqb (streamName st) name = false ->
  emitted name (map (fun l => Emit (streamName st) [VStr l]) lines) = 0%nat.
Proof.
  intros H. induction lines as [|l ls IH]; [reflexivity|].
  unfold emitted in *. cbn. now rewrite H.
Qed.

Lemma spawned_stream (st : stream) (lines : list string) :
  spawned (map (fun l => Emit (streamName st) [VStr l]) lines) = 0%nat.
Proof. induction lines as [|l ls IH]; [reflexivity|exact IH]. Qed.

Lemma propagator_promises (p : nat) (st : stream) (chunk : string)
    (w : World) :
  promises (Mongod.dataPropagator p st chunk w) = promises w.
Proof.
  unfold Mongod.dataPropagator. destruct (procs w !! p) as [pr|]; [|reflexivity].
  destruct (Aggregator.getTextLineAggregator (streamBuffer st pr) chunk)
    as [b ls].
  replace (promises w) with (promises (setProc p (withStreamBuffer st b) w))
    by apply setProc_fields.
  generalize (setProc p (withStreamBuffer st b) w). clear.
  induction ls as [|l ls IH]; intros w; [reflexivity|].
  cbn [fold_left]. now rewrite IH.
Qed.

Lemma constructor_fresh (configOrPort : value) :
  Mongod.constructor configOrPort
  = freshWorld (config (server (Mongod.constructor configOrPort))).
Proof. reflexivity. Qed.

(** The readiness line handed to the callback of [dataHandler]. *)
Lemma ready_on_line (pre ph post : string) (p inner : nat) (w : World) :
  Js.mapString Js.foldCase ph = "waiting for connections" ->
  failureFree pre (ph +:+ post) = true ->
  uncaught w = false ->
  promises w !! inner = Some Pending ->
  readyAfter inner w (Mongod.lineHandler p inner w (pre +:+ ph +:+ post)).
Proof.
  intros Hph Hf Hu Hp. unfold Mongod.lineHandler, RegExp.match_keyRE.
  rewrite Hu. apply scan_ready; [exact Hph | lia | exact Hf | exact Hp].
Qed.

(** The readiness line, alone in its chunk, while [dataHandler] is attached
    with an empty buffer and the attempt is pending. *)
Lemma ready_chunk (p : nat) (st : stream) (pre ph post : string)
    (w : World) (pr : Proc) :
  Js.mapString Js.foldCase ph = "waiting for connections" ->
  failureFree pre (ph +:+ post) = true ->
  plain (pre +:+ ph +:+ post) = true ->
  procs w !! p = Some pr -> attached pr = true -> closed pr = false ->
  buffer pr = "" -> uncaught w = false ->
  promises w !! settles pr = Some Pending ->
  exists w' extra,
    onData p st ((pre +:+ ph +:+ post) +:+ nl) w = Some w'
    /\ isRunning (server w') = true
    /\ isOpening (server w') = false
    /\ promises w' !! settles pr = Some (Resolved VNull)
    /\ log w' = log w ++ [Emit "open" []; Settle (settles pr)]
                 ++ map (fun l => Emit (streamName st) [VStr l]) extra.
Proof.
  intros Hph Hf Hplain Hpr Ha Hc Hb Hu Hp. unfold onData.
  rewrite Hpr, Hc, Ha. unfold Mongod.dataHandler.
  rewrite Hpr, Hb, (aggregator_line _ Hplain). cbn [fold_left].
  destruct (setProc_fields p (withBuffer "") w) as (_ & P3 & U3 & L3 & _).
  rewrite <- P3 in Hp. rewrite <- L3. rewrite Hu in U3.
  pose proof (ready_on_line pre ph post p (settles pr) _ Hph Hf U3 Hp) as R.
  revert R.
  generalize (Mongod.lineHandler p (settles pr) (setProc p (withBuffer "") w)
                (pre +:+ ph +:+ post)).
  generalize (setProc p (withBuffer "") w).
  intros w3 w4 (R1 & R2 & R3 & R4).
  destruct (uncaught w4).
  - exists w4, []. split; [reflexivity|].
    split; [exact R1|]. split; [exact R2|]. split; [exact R3|].
    rewrite R4. cbn [map]. now rewrite List.app_nil_r.
  - destruct (propagator_log p st ((pre +:+ ph +:+ post) +:+ nl) w4)
      as (extra & L).
    eexists _, extra. split; [reflexivity|].
    rewrite propagator_server, propagator_promises, L, R4.
    split; [exact R1|]. split; [exact R2|]. split; [exact R3|].
    now rewrite <- List.app_assoc.
Qed.

Lemma spawnedWorld_facts (c : gmap string value) :
  accepts c = true ->
  exec Dequeue (calledWorld c) = Some (spawnedWorld c)
  /\ isOpening (server (calledWorld c)) = true
  /\ uncaught (calledWorld c) = false
  /\ isOpening (server (spawnedWorld c)) = true
  /\ uncaught (spawnedWorld c) = false
  /\ procs (spawnedWorld c) !! 0%nat
     = Some {| attached := true; buffer := ""; outBuffer := "";
               errBuffer := ""; settles := 3; onceClose := [];
               closed := false |}
  /\ promises (spawnedWorld c) !! 3%nat = Some Pending
  /\ log (spawnedWorld c)
     = [Enqueue {| body := OpenBody; outer := 2 |};
        BodyStart {| body := OpenBody; outer := 2 |} 3;
        Emit "opening" [];
        Spawn 0 (get c "bin") (Mongod.parseFlags c)].
Proof.
  intros H. unfold accepts in H. unfold spawnedWorld, exec.
  cbv -[ChildProcess.refusal get Mongod.parseFlags].
  destruct (ChildProcess.refusal _ _) as [err|]; [discriminate H|].
  repeat split; reflexivity.
Qed.

(** C6 (amended). While [isOpening] is on, [open] hands back [openPromise]
    and changes nothing: no entry is queued, nothing is spawned or emitted.
    So on a new instance whose [bin] and flags [spawn] accepts, [open()]
    followed by any number of further calls, before and after the body has
    started, and then the readiness line, spawns one process and emits
    'opening' once and 'open' once. (A call of [close] turns [isOpening]
    off; a call of [open] after it makes a new attempt.) *)
Theorem open_calls_coalesce
    (configOrPort : value) (n1 n2 : nat) (pre ph post : string) :
  accepts (config (server (Mongod.constructor configOrPort))) = true ->
  Js.mapString Js.foldCase ph = "waiting for connections" ->
  failureFree pre (ph +:+ post) = true ->
  plain (pre +:+ ph +:+ post) = true ->
  (forall w, isOpening (server w) = true ->
             Mongod.open w = (w, openPromise (server w)))
  /\ exists w',
       run (CallOpen :: repeat CallOpen n1 ++ Dequeue :: repeat CallOpen n2
            ++ [Data 0 Stdout ((pre +:+ ph +:+ post) +:+ nl)])
         (Mongod.constructor configOrPort) = Some w'
       /\ emitted "opening" (log w') = 1%nat
       /\ emitted "open" (log w') = 1%nat
       /\ spawned (log w') = 1%nat
       /\ isRunning (server w') = true
       /\ promises w' !! 3%nat = Some (Resolved VNull).
Proof.
  intros Hacc Hph Hf Hplain. split; [exact open_while_opening|].
  rewrite constructor_fresh. revert Hacc.
  generalize (config (server (Mongod.constructor configOrPort))).
  intros c Hacc.
  destruct (spawnedWorld_facts c Hacc)
    as (Hdq & Ho1 & Hu1 & Ho2 & Hu2 & Hpr & Hp & Hlog).
  destruct (ready_chunk 0 Stdout pre ph post (spawnedWorld c) _ Hph Hf Hplain
              Hpr eq_refl eq_refl eq_refl Hu2 Hp)
    as (w' & extra & Hd & R1 & _ & R3 & R4).
  exists w'. split.
  - assert (E1 : exec CallOpen (freshWorld c) = Some (calledWorld c))
      by reflexivity.
    cbn [run]. rewrite E1, run_app, (run_repeat_open n1 _ Ho1 Hu1).
    cbn [run]. rewrite Hdq, run_app, (run_repeat_open n2 _ Ho2 Hu2).
    cbn [run]. unfold exec. now rewrite Hu2, Hd.
  - rewrite R4, Hlog. cbn [settles]. rewrite !emitted_app, !spawned_app.
    rewrite !emitted_stream, spawned_stream by reflexivity.
    repeat split; try assumption; reflexivity.
Qed.

(** C6, the claim as stated fails: after [open()], a call of [close()] turns
    [isOpening] off while the first attempt is still pending, and the next
    [open()] hands back a new promise; in the end a second process is
    spawned and 'opening' is emitted a second time. *)
Lemma open_after_close_is_a_new_attempt :
  option_map (fun w => (promises w !! 2%nat, openPromise (server w),
                        snd (Mongod.open w)))
    (run [CallOpen; Dequeue; CallClose] (Mongod.constructor VUndefined))
  = Some (Some Pending, 2%nat, 5%nat)
  /\ option_map (fun w => (emitted "opening" (log w), spawned (log w)))
       (run [CallOpen; Dequeue; CallClose; CallOpen;
             Data 0 Stdout ("waiting for connections" +:+ nl); Settled 3;
             Dequeue; ProcClose 0; Settled 6; Dequeue]
          (Mongod.constructor VUndefined))
     = Some (2%nat, 2%nat).
Proof. split; vm_compute; reflexivity. Qed.

(** ** The queue: one body at a time, in the order of the calls *)

Section Queue.

Lemma unsettled_snoc (l : list event) (e : event) :
  unsettled (l ++ [e]) = track (unsettled l) e.
Proof. unfold unsettled. now rewrite fold_left_app. Qed.

Lemma snoc_split {A : Type} (l l1 l2 : list A) (e x : A) :
  l ++ [e] = l1 ++ x :: l2 ->
  (l2 = [] /\ l1 = l /\ x = e) \/ (exists l2', l = l1 ++ x :: l2').
Proof.
  destruct l2 as [|y l2' _] using rev_ind; intros H.
  - apply app_inj_tail in H as [-> ->]. now left.
  - rewrite List.app_comm_cons, List.app_assoc in H.
    apply app_inj_tail in H as [-> _]. right. now exists l2'.
Qed.

Lemma serial_snoc_quiet (l : list event) (e : event) :
  (forall i inner, e <> BodyStart i inner) -> serial l -> serial (l ++ [e]).
Proof.
  intros He Hs l1 i inner l2 H.
  apply snoc_split in H as [(_ & _ & H)|(l2' & ->)].
  - now destruct (He i inner).
  - now apply (Hs l1 i inner l2').
Qed.

Lemma serial_snoc_start (l : list event) (i : item) (inner : nat) :
  unsettled l = [] -> serial l -> serial (l ++ [BodyStart i inner]).
Proof.
  intros Hu Hs l1 i' inner' l2 H.
  apply snoc_split in H as [(_ & -> & _)|(l2' & ->)]; [exact Hu|].
  now apply (Hs l1 i' inner' l2').
Qed.

Lemma enqueued_snoc (l : list event) (e : event) :
  enqueued (l ++ [e])
  = enqueued l ++ match e with Enqueue i => [i] | _ => [] end.
Proof. unfold enqueued. rewrite omap_app. cbn. now destruct e. Qed.

Lemma started_snoc (l : list event) (e : event) :
  started (l ++ [e])
  = started l ++ match e with BodyStart i _ => [i] | _ => [] end.
Proof. unfold started. rewrite omap_app. cbn. now destruct e. Qed.

Lemma queueInv_record (e : event) (w : World) :
  quietEvent e = true -> queueInv w -> queueInv (record e w).
Proof.
  intros He [H1 H2 H3 H5 H4].
  split; cbn [record log pendingPromises reactions promises queue].
  - apply serial_snoc_quiet; [|exact H1]. intros i inner ->. discriminate.
  - exact H2.
  - rewrite unsettled_snoc. destruct e; try discriminate; cbn; try exact H3.
    intros i [Hi _]%filter_In. now apply H3.
  - rewrite unsettled_snoc. destruct e; try discriminate; cbn; try exact H5.
    etransitivity; [apply List.filter_length_le | exact H5].
  - rewrite enqueued_snoc, started_snoc.
    destruct e; try discriminate; now rewrite !List.app_nil_r.
Qed.

Lemma queueInv_settle (i : nat) (s : settlement) (w : World) :
  queueInv w -> queueInv (settle i s w).
Proof.
  intros H. unfold settle.
  destruct (promises w !! i) as [[| |]|] eqn:E; try exact H.
  destruct H as [H1 H2 H3 H5 H4].
  split; cbn [record setPromises log pendingPromises reactions promises queue].
  - apply serial_snoc_quiet; [discriminate | exact H1].
  - exact H2.
  - rewrite unsettled_snoc. cbn. intros j [Hj Hne]%filter_In.
    destruct (H3 j Hj) as [Hr Hp]. split; [exact Hr|].
    rewrite list_lookup_insert_ne; [exact Hp|].
    intros ->. now rewrite Nat.eqb_refl in Hne.
  - rewrite unsettled_snoc. cbn.
    etransitivity; [apply List.filter_length_le | exact H5].
  - rewrite enqueued_snoc, started_snoc. now rewrite !List.app_nil_r.
Qed.

Lemma queueInv_quiet (w w' : World) : quiet w w' -> queueInv w -> queueInv w'.
Proof.
  induction 1 as [w|w1 w2 w3 _ IH1 _ IH2|f w|ps w|e w He|i s w|w]; intros H;
    auto using queueInv_record, queueInv_settle.
  - destruct H; now split.
  - destruct H; now split.
  - destruct H; now split.
Qed.

End Queue.

Section QuietHandlers.

Lemma quiet_setProc (p : nat) (f : Proc -> Proc) (w : World) :
  quiet w (setProc p f w).
Proof. unfold setProc. destruct (procs w !! p); constructor. Qed.

Lemma quiet_emit (name : string) (args : list value) (w : World) :
  quiet w (emit name args w).
Proof. now apply quiet_record. Qed.

Lemma quiet_finish (inner : nat) (err : value) (w : World) :
  quiet w (fst (Mongod.finish inner err w)).
Proof.
  unfold Mongod.finish. cbn [fst].
  apply quiet_trans with (setServer (withOpening false) w);
    [constructor | destruct err; constructor].
Qed.

Lemma quiet_removeListeners (p : nat) (w : World) :
  quiet w (Mongod.removeListeners p w).
Proof.
  unfold Mongod.removeListeners.
  destruct (process (server w)) as [q|]; [destruct (q =? p)%nat|];
    [apply quiet_setProc | constructor | constructor].
Qed.

Lemma quiet_forMatches (p inner : nat) : forall matches w,
  quiet w (Mongod.forMatches p inner matches w).
Proof.
  induction matches as [|m ms IH]; intros w; [constructor|].
  cbn [Mongod.forMatches].
  destruct (matchHandler_cases inner m w)
    as [(msg & code & E)|[E|[(v & E)|[(v & E)|E]]]]; rewrite E.
  - apply quiet_trans
      with (fst (Mongod.finish inner (VError "Error" msg (VNum code)) w));
      [apply quiet_finish | apply quiet_removeListeners].
  - apply quiet_trans
      with (fst (Mongod.finish inner VNull
                   (emit "open" [] (setServer (withRunning true) w))));
      [|apply quiet_removeListeners].
    eapply quiet_trans; [|apply quiet_finish].
    eapply quiet_trans; [apply quiet_setServer | apply quiet_emit].
  - eapply quiet_trans; [apply quiet_setServer | apply IH].
  - eapply quiet_trans; [apply quiet_setServer | apply IH].
  - apply IH.
Qed.

Lemma quiet_fold {A : Type} (f : World -> A -> World) :
  (forall w x, quiet w (f w x)) -> forall l w, quiet w (fold_left f l w).
Proof.
  intros Hf. induction l as [|x l IH]; intros w; [constructor|].
  cbn [fold_left]. eapply quiet_trans; [apply Hf | apply IH].
Qed.

Lemma quiet_dataHandler (p : nat) (data : string) (w : World) :
  quiet w (Mongod.dataHandler p data w).
Proof.
  unfold Mongod.dataHandler. destruct (procs w !! p) as [pr|]; [|constructor].
  destruct (Aggregator.getTextLineAggregator (buffer pr) data) as [b ls].
  eapply quiet_trans; [apply quiet_setProc|]. apply quiet_fold.
  intros w0 l. unfold Mongod.lineHandler.
  destruct (uncaught w0); [constructor | apply quiet_forMatches].
Qed.

Lemma quiet_dataPropagator (p : nat) (st : stream) (data : string) (w : World) :
  quiet w (Mongod.dataPropagator p st data w).
Proof.
  unfold Mongod.dataPropagator. destruct (procs w !! p) as [pr|]; [|constructor].
  destruct (Aggregator.getTextLineAggregator (streamBuffer st pr) data)
    as [b ls].
  eapply quiet_trans; [apply quiet_setProc|]. apply quiet_fold.
  intros w0 l. apply quiet_emit.
Qed.

Lemma quiet_onData (p : nat) (st : stream) (chunk : string) (w w' : World) :
  onData p st chunk w = Some w' -> quiet w w'.
Proof.
  unfold onData. destruct (procs w !! p) as [pr|]; [|discriminate].
  destruct (closed pr); [discriminate|]. intros E. injection E as <-.
  set (w1 := if attached pr then Mongod.dataHandler p chunk w else w).
  assert (Q1 : quiet w w1).
  { subst w1. destruct (attached pr); [apply quiet_dataHandler | constructor]. }
  destruct (uncaught w1); [exact Q1|].
  eapply quiet_trans; [exact Q1 | apply quiet_dataPropagator].
Qed.

Lemma quiet_onClose (p : nat) (w w' : World) :
  onClose p w = Some w' -> quiet w w'.
Proof.
  unfold onClose. destruct (procs w !! p) as [pr|]; [|discriminate].
  destruct (closed pr); [discriminate|]. intros E. injection E as <-.
  eapply quiet_trans; [|apply quiet_setProc].
  eapply quiet_trans; [|apply quiet_fold; intros; apply quiet_settle].
  unfold Mongod.closeListener.
  eapply quiet_trans; [apply quiet_setServer | apply quiet_emit].
Qed.

Lemma quiet_openBody (inner : nat) (w : World) :
  quiet w (Mongod.openBody inner w).
Proof.
  unfold Mongod.openBody.
  destruct (isClosing (server w) || isRunning (server w)).
  - eapply quiet_trans; [apply quiet_setServer | apply quiet_settle].
  - cbn [emit record server].
    destruct (ChildProcess.refusal _ _) as [err|].
    + eapply quiet_trans; [apply quiet_emit | apply quiet_settle].
    + eapply quiet_trans; [|apply quiet_setProcs].
      eapply quiet_trans; [|apply quiet_setServer].
      eapply quiet_trans; [apply quiet_emit | now apply quiet_record].
Qed.

Lemma quiet_closeBody (inner : nat) (w : World) :
  quiet w (Mongod.closeBody inner w).
Proof.
  unfold Mongod.closeBody.
  destruct (isOpening (server w) || negb (isRunning (server w))).
  - eapply quiet_trans; [apply quiet_setServer | apply quiet_settle].
  - eapply quiet_trans; [apply quiet_emit|].
    destruct (process (server (emit "closing" [] w))) as [q|].
    + eapply quiet_trans; [apply quiet_setProc | now apply quiet_record].
    + apply quiet_settle.
Qed.

End QuietHandlers.

Section QueueSteps.

Lemma queueInv_setServer (f : Server -> Server) (w : World) :
  queueInv w -> queueInv (setServer f w).
Proof. apply queueInv_quiet. constructor. Qed.

Lemma queueInv_add (g : generator) (w : World) :
  queueInv w -> queueInv (fst (PromiseQueue.add g w)).
Proof.
  intros [H1 H2 H3 H5 H4]. unfold PromiseQueue.add, newPromise.
  cbn [fst].
  split; cbn [record setQueue setPromises log pendingPromises reactions
              promises queue].
  - apply serial_snoc_quiet; [discriminate | exact H1].
  - exact H2.
  - rewrite unsettled_snoc. cbn [track]. intros i Hi.
    destruct (H3 i Hi) as [Hr Hp]. split; [exact Hr|].
    rewrite lookup_app_l; [exact Hp | now apply lookup_lt_Some in Hp].
  - rewrite unsettled_snoc. exact H5.
  - rewrite enqueued_snoc, started_snoc, H4.
    now rewrite List.app_nil_r, <- List.app_assoc.
Qed.

Lemma queueInv_open (w : World) : queueInv w -> queueInv (fst (Mongod.open w)).
Proof.
  intros H. unfold Mongod.open. destruct (isOpening (server w)); [exact H|].
  match goal with |- context [PromiseQueue.add ?g ?w0] =>
    pose proof (queueInv_add g w0 (queueInv_setServer _ w H)) as H';
    destruct (PromiseQueue.add g w0) as [w1 p] end.
  now apply queueInv_setServer.
Qed.

Lemma queueInv_close (w : World) : queueInv w -> queueInv (fst (Mongod.close w)).
Proof.
  intros H. unfold Mongod.close. destruct (isClosing (server w)); [exact H|].
  match goal with |- context [PromiseQueue.add ?g ?w0] =>
    pose proof (queueInv_add g w0 (queueInv_setServer _ w H)) as H';
    destruct (PromiseQueue.add g w0) as [w1 p] end.
  now apply queueInv_setServer.
Qed.

Lemma idle_unsettled (w : World) :
  queueInv w -> reactions w = [] -> unsettled (log w) = [].
Proof.
  intros H Hr. destruct (unsettled (log w)) as [|i l] eqn:E; [reflexivity|].
  destruct (inv_busy w H i) as [Hi _]; [rewrite E; now left|].
  rewrite Hr in Hi. contradiction.
Qed.

Lemma queueInv_dequeue (w w' : World) :
  queueInv w -> dequeue w = Some w' -> queueInv w'.
Proof.
  intros H. unfold dequeue. destruct (queue w) as [|i q] eqn:Q; [discriminate|].
  unfold PromiseQueue.canStart, PromiseQueue.maxPendingPromises.
  destruct (pendingPromises w <? 1)%nat eqn:C; [|discriminate].
  apply Nat.ltb_lt in C.
  assert (Hr : reactions w = []).
  { destruct (inv_count w H) as [E _]. destruct (reactions w); [reflexivity|].
    cbn in E. lia. }
  pose proof (idle_unsettled w H Hr) as Hu.
  destruct H as [H1 H2 H3 H5 H4]. unfold newPromise.
  cbn [setPromises promises reactions pendingPromises].
  set (w1 := record _ _).
  assert (I1 : queueInv w1).
  { subst w1.
    split; cbn [record setQueue setPromises log pendingPromises reactions
                promises queue].
    - now apply serial_snoc_start.
    - rewrite Hr. cbn. split; [|lia]. f_equal. lia.
    - rewrite unsettled_snoc, Hu. cbn [track]. intros j [<-|[]].
      rewrite Hr. cbn. split; [now left|]. apply list_lookup_middle.
      reflexivity.
    - rewrite unsettled_snoc, Hu, Hr. cbn. lia.
    - rewrite enqueued_snoc, started_snoc, H4, Q.
      now rewrite List.app_nil_r, <- List.app_assoc. }
  intros E. injection E as <-.
  destruct (body i);
    [ apply (queueInv_quiet w1 _ (quiet_openBody _ w1) I1)
    | apply (queueInv_quiet w1 _ (quiet_closeBody _ w1) I1) ].
Qed.

Lemma queueInv_settled (inner : nat) (w w' : World) :
  queueInv w -> settled inner w = Some w' -> queueInv w'.
Proof.
  intros H. unfold settled.
  destruct (find (fun r => (fst r =? inner)%nat) (reactions w))
    as [[x i]|] eqn:F; [|discriminate].
  destruct (isSettled w inner) eqn:S; [|discriminate].
  intros E. injection E as <-.
  apply find_some in F as [Fin Fx]. cbn in Fx. apply Nat.eqb_eq in Fx. subst x.
  destruct (inv_count w H) as [Hc Hle].
  destruct (reactions w) as [|r [|r' rs]] eqn:R; [contradiction| |cbn in Hle; lia].
  destruct Fin as [->|[]].
  assert (Hu : unsettled (log w) = []).
  { destruct (unsettled (log w)) as [|j l] eqn:E; [reflexivity|].
    destruct (inv_busy w H j) as [Hj Hp]; [rewrite E; now left|].
    rewrite R in Hj. cbn in Hj. destruct Hj as [<-|[]].
    unfold isSettled in S. now rewrite Hp in S. }
  unfold PromiseQueue.release.
  cbn [setQueue promises]. 
  set (w1 := setQueue _ _ _ w).
  assert (I1 : queueInv w1).
  { subst w1. destruct H as [H1 H2 H3 H5 H4].
    split; cbn [setQueue log pendingPromises reactions promises queue].
    - exact H1.
    - rewrite R. cbn. rewrite Nat.eqb_refl. cbn. cbn in Hc. lia.
    - rewrite Hu. intros j [].
    - rewrite Hu. cbn. lia.
    - exact H4. }
  destruct (promises w !! inner); [|exact I1].
  apply (queueInv_quiet w1 _ (quiet_settle _ _ w1) I1).
Qed.

Lemma queueInv_exec (a : action) (w w' : World) :
  queueInv w -> exec a w = Some w' -> queueInv w'.
Proof.
  intros H. unfold exec. destruct (uncaught w); [discriminate|].
  destruct a as [| | |inner|p st chunk|p]; intros E.
  - injection E as <-. now apply queueInv_open.
  - injection E as <-. now apply queueInv_close.
  - now apply (queueInv_dequeue w).
  - now apply (queueInv_settled inner w).
  - apply (queueInv_quiet w); [now apply quiet_onData in E | exact H].
  - apply (queueInv_quiet w); [now apply quiet_onClose in E | exact H].
Qed.

Lemma queueInv_constructor (configOrPort : value) :
  queueInv (Mongod.constructor configOrPort).
Proof.
  split; cbn.
  - intros [|e l1] i inner l2 H; discriminate.
  - split; [reflexivity | lia].
  - intros i [].
  - lia.
  - reflexivity.
Qed.

Lemma queueInv_run (acts : list action) : forall w w',
  queueInv w -> run acts w = Some w' -> queueInv w'.
Proof.
  induction acts as [|a acts IH]; intros w w' H E; cbn [run] in E.
  - now injection E as <-.
  - destruct (exec a w) as [w1|] eqn:X; [|discriminate].
    apply (IH w1 w'); [now apply (queueInv_exec a w) | exact E].
Qed.

End QueueSteps.

(** C2. Whatever the calls of [open] and [close] and whatever the events
    between them: no body starts while the promise of a body that started
    before it is unsettled, at most one body is unsettled at any time, and
    the bodies start in the order in which the calls queued them. *)
Theorem bodies_run_one_at_a_time
    (configOrPort : value) (acts : list action) (w : World) :
  run acts (Mongod.constructor configOrPort) = Some w ->
  serial (log w)
  /\ (length (unsettled (log w)) <= 1)%nat
  /\ enqueued (log w) = started (log w) ++ queue w.
Proof.
  intros H.
  pose proof (queueInv_run acts _ _ (queueInv_constructor configOrPort) H)
    as [H1 [H2 H2'] H3 H5 H4].
  split; [exact H1|]. split; [lia | exact H4].
Qed.

(** ** The theorems at concrete inputs *)

Lemma readiness_line_witness :
  Js.mapString Js.foldCase "Waiting For Connections" = "waiting for connections"
  /\ failureFree "I NETWORK [thread1] pid=7 "
       ("Waiting For Connections" +:+ " on port 27017") = true
  /\ uncaught startedWorld = false
  /\ promises startedWorld !! 3%nat = Some Pending
  /\ readyAfter 3 startedWorld (Mongod.lineHandler 0 3 startedWorld readyLine).
Proof.
  assert (H1 : Js.mapString Js.foldCase "Waiting For Connections"
               = "waiting for connections") by (vm_compute; reflexivity).
  assert (H2 : failureFree "I NETWORK [thread1] pid=7 "
                 ("Waiting For Connections" +:+ " on port 27017") = true)
    by (vm_compute; reflexivity).
  assert (H3 : uncaught startedWorld = false) by (vm_compute; reflexivity).
  assert (H4 : promises startedWorld !! 3%nat = Some Pending)
    by (vm_compute; reflexivity).
  split; [exact H1|]. split; [exact H2|]. split; [exact H3|].
  split; [exact H4|].
  exact (readiness_line "I NETWORK [thread1] pid=7 " "Waiting For Connections"
           " on port 27017" 0 3 startedWorld H1 H2 H3 H4).
Defined.

Lemma startedWorld_attempt : attempt 0 3 startedWorld.
Proof.
  split; [vm_compute; reflexivity|]. split; [vm_compute; reflexivity|].
  exists {| attached := true; buffer := ""; outBuffer := ""; errBuffer := "";
            settles := 3; onceClose := []; closed := false |}.
  split; [vm_compute; reflexivity|]. split; [reflexivity|].
  split; [reflexivity|]. left. vm_compute. reflexivity.
Defined.

Lemma pid_and_port_until_the_attempt_settles_witness :
  attempt 0 3 startedWorld
  /\ procs startedWorld !! 0%nat = Some startedProc
  /\ (exists a d, "pid=5" = a +:+ d /\ Js.mapString Js.foldCase a = "pid="
                  /\ pid (server capturedWorld) = Number (Some d))
  /\ (exists a d, "port=7" = a +:+ d /\ Js.mapString Js.foldCase a = "port="
                  /\ port (server capturedWorld) = Number (Some d))
  /\ server lateWorld = server readyWorld.
Proof.
  assert (H1 : procs startedWorld !! 0%nat = Some startedProc)
    by (vm_compute; reflexivity).
  assert (H2 : onData 0 Stdout capturedChunk startedWorld
               = Some capturedWorld) by (vm_compute; reflexivity).
  assert (H3 : snd (Aggregator.getTextLineAggregator (buffer startedProc)
                      capturedChunk)
               = ["pid=5 is here"] ++ "port=7 waiting for connections" :: [])
    by (vm_compute; reflexivity).
  assert (H3' : snd (Aggregator.getTextLineAggregator (buffer startedProc)
                       capturedChunk)
                = [] ++ "pid=5 is here" :: ["port=7 waiting for connections"])
    by (vm_compute; reflexivity).
  assert (H4 : seen (RegExp.match_keyRE "pid=5 is here")
               = [] ++ "pid=5" :: []) by (vm_compute; reflexivity).
  assert (H5 : seen (RegExp.match_keyRE "port=7 waiting for connections")
               = [] ++ "port=7" :: []) by (vm_compute; reflexivity).
  assert (H6 : RegExp.pidRE "pid=5 is here" = Some ("pid=5", " is here"))
    by (vm_compute; reflexivity).
  assert (H7 : RegExp.portRE "port=7 waiting for connections"
               = Some ("port=7", " waiting for connections"))
    by (vm_compute; reflexivity).
  assert (H8 : onData 0 Stdout ("waiting for connections" +:+ nl) startedWorld
               = Some readyWorld) by (vm_compute; reflexivity).
  assert (H9 : isSettled readyWorld 3 = true) by (vm_compute; reflexivity).
  assert (H10 : run (deliveries 0 [(Stdout, "pid=5 port=7" +:+ nl)]) readyWorld
                = Some lateWorld) by (vm_compute; reflexivity).
  assert (H11 : Forall (fun l => Forall
                          (fun x => fst (Mongod.keyValue x) <> "pid")
                          (seen (RegExp.match_keyRE l)))
                  ["port=7 waiting for connections"]).
  { apply List.Forall_cons; [|apply List.Forall_nil]. rewrite H5.
    apply List.Forall_cons; [|apply List.Forall_nil].
    intros N. vm_compute in N. discriminate N. }
  destruct (pid_and_port_until_the_attempt_settles 0 3 startedWorld
              startedProc startedWorld_attempt H1) as (Cap & _ & Stop).
  split; [exact startedWorld_attempt|]. split; [exact H1|].
  split; [|split].
  - exact (proj1 (Cap Stdout capturedChunk capturedWorld [] "pid=5 is here"
                    ["port=7 waiting for connections"] [] "pid=5" []
                    _ _ eq_refl H3' H4 H2) H6 (List.Forall_nil _) H11).
  - exact (proj2 (Cap Stdout capturedChunk capturedWorld ["pid=5 is here"]
                    "port=7 waiting for connections" [] [] "port=7" []
                    _ _ eq_refl H3 H5 H2) H7 (List.Forall_nil _)
             (List.Forall_nil _)).
  - exact (Stop Stdout _ _ readyWorld lateWorld H8 H9 H10).
Defined.

Lemma open_calls_coalesce_witness :
  accepts (config (server (Mongod.constructor VUndefined))) = true
  /\ Js.mapString Js.foldCase "waiting for connections"
     = "waiting for connections"
  /\ failureFree "[initandlisten] " ("waiting for connections" +:+ " on port 27017")
     = true
  /\ plain ("[initandlisten] " +:+ "waiting for connections" +:+ " on port 27017")
     = true
  /\ exists w',
       run (CallOpen :: repeat CallOpen 1 ++ Dequeue :: repeat CallOpen 2
            ++ [Data 0 Stdout
                  (("[initandlisten] " +:+ "waiting for connections"
                    +:+ " on port 27017") +:+ nl)])
         (Mongod.constructor VUndefined) = Some w'
       /\ emitted "opening" (log w') = 1%nat
       /\ emitted "open" (log w') = 1%nat
       /\ spawned (log w') = 1%nat
       /\ isRunning (server w') = true
       /\ promises w' !! 3%nat = Some (Resolved VNull).
Proof.
  assert (H1 : Js.mapString Js.foldCase "waiting for connections"
               = "waiting for connections") by (vm_compute; reflexivity).
  assert (H2 : failureFree "[initandlisten] "
                 ("waiting for connections" +:+ " on port 27017") = true)
    by (vm_compute; reflexivity).
  assert (H3 : plain ("[initandlisten] " +:+ "waiting for connections"
                      +:+ " on port 27017") = true)
    by (vm_compute; reflexivity).
  assert (H0 : accepts (config (server (Mongod.constructor VUndefined)))
               = true) by (vm_compute; reflexivity).
  split; [exact H0|]. split; [exact H1|]. split; [exact H2|].
  split; [exact H3|].
  exact (proj2 (open_calls_coalesce VUndefined 1 2 "[initandlisten] "
                  "waiting for connections" " on port 27017" H0 H1 H2 H3)).
Defined.

Lemma bodies_run_one_at_a_time_witness :
  run openCloseTrace (Mongod.constructor VUndefined) = Some openCloseWorld
  /\ serial (log openCloseWorld)
  /\ (length (unsettled (log openCloseWorld)) <= 1)%nat
  /\ enqueued (log openCloseWorld)
     = started (log openCloseWorld) ++ queue openCloseWorld.
Proof.
  assert (H : run openCloseTrace (Mongod.constructor VUndefined)
              = Some openCloseWorld) by (vm_compute; reflexivity).
  split; [exact H|].
  exact (bodies_run_one_at_a_time VUndefined openCloseTrace openCloseWorld H).
Defined.

(** * Further properties *)

(** ** Lines across chunks *)

Section Lines.
Import Js Aggregator.

Lemma splitNewline_LF (r : string) :
  splitNewline (String LF r) = "" :: splitNewline r.
Proof. reflexivity. Qed.

Lemma splitNewline_CRLF (r : string) :
  splitNewline (String CR (String LF r)) = "" :: splitNewline r.
Proof. reflexivity. Qed.

Lemma splitNewline_keep (c : ascii) (r : string) :
  Ascii.eqb c LF = false -> Ascii.eqb c CR && startsLF r = false ->
  splitNewline (String c r) = pushChar c (splitNewline r).
Proof.
  intros H1 H2. cbn [splitNewline]. rewrite H1.
  destruct r as [|c' r']; [reflexivity|].
  cbn [startsLF] in H2. rewrite H2. reflexivity.
Qed.

(** Induction along the recursion of [splitNewline]. *)
Lemma splitNewline_ind (P : string -> Prop) :
  P "" ->
  (forall r, P r -> P (String LF r)) ->
  (forall r, P r -> P (String CR (String LF r))) ->
  (forall c r, Ascii.eqb c LF = false ->
               Ascii.eqb c CR && startsLF r = false ->
               P r -> P (String c r)) ->
  forall s, P s.
Proof.
  intros H0 H1 H2 H3.
  assert (H : forall s, P s /\ forall c, P (String c s)).
  { induction s as [|c' s [IH1 IH2]].
    - split; [exact H0|]. intros c. destruct (Ascii.eqb c LF) eqn:E.
      + apply Ascii.eqb_eq in E as ->. now apply H1.
      + apply H3; [exact E | apply andb_false_r | exact H0].
    - split; [apply IH2|]. intros c. destruct (Ascii.eqb c LF) eqn:E.
      + apply Ascii.eqb_eq in E as ->. apply H1, IH2.
      + destruct (Ascii.eqb c CR && Ascii.eqb c' LF) eqn:E2.
        * apply andb_prop in E2 as [->%Ascii.eqb_eq ->%Ascii.eqb_eq].
          now apply H2.
        * apply H3; [exact E | exact E2 | apply IH2]. }
  intros s. apply H.
Qed.

Lemma splitNewline_cons (s : string) :
  exists f fs, splitNewline s = f :: fs.
Proof.
  induction s as [| r (f & fs & E) | r (f & fs & E) | c r H1 H2 (f & fs & E)]
    using splitNewline_ind.
  - now exists "", [].
  - rewrite splitNewline_LF. eauto.
  - rewrite splitNewline_CRLF. eauto.
  - rewrite (splitNewline_keep c r H1 H2), E. cbn. eauto.
Qed.

Lemma fragments_noLF (s : string) :
  Forall (fun f => noLF f = true) (splitNewline s).
Proof.
  induction s as [| r IH | r IH | c r H1 H2 IH] using splitNewline_ind.
  - now repeat constructor.
  - rewrite splitNewline_LF. now constructor.
  - rewrite splitNewline_CRLF. now constructor.
  - rewrite (splitNewline_keep c r H1 H2).
    destruct (splitNewline r) as [|f fs]; cbn.
    + repeat constructor. unfold noLF, differs. cbn. now rewrite H1.
    + inversion IH as [|? ? Hf Hfs]; subst. constructor; [|exact Hfs].
      unfold noLF, differs in *. cbn. now rewrite H1, Hf.
Qed.

Lemma endsCR_cons (c : ascii) (r : string) :
  endsCR (String c r)
  = match r with EmptyString => Ascii.eqb c CR | String _ _ => endsCR r end.
Proof. reflexivity. Qed.

Lemma endsCR_tail (c : ascii) (r : string) :
  endsCR (String c r) = false -> endsCR r = false.
Proof. rewrite endsCR_cons. now destruct r. Qed.

(** A text that splits into one fragment is that fragment; and the last
    fragment ends as the text does. *)
Lemma last_fragment (s : string) :
  (forall f, splitNewline s = [f] -> f = s)
  /\ endsCR (List.last (splitNewline s) "") = endsCR s.
Proof.
  induction s as [| r [IH1 IH2] | r [IH1 IH2] | c r H1 H2 [IH1 IH2]]
    using splitNewline_ind.
  - split; [|reflexivity]. intros f E. now injection E as <-.
  - rewrite splitNewline_LF. destruct (splitNewline_cons r) as (f & fs & E).
    split; [intros g Hg; rewrite E in Hg; discriminate|].
    rewrite E in *.
    change (List.last ("" :: f :: fs) "") with (List.last (f :: fs) "").
    rewrite IH2, endsCR_cons. now destruct r.
  - rewrite splitNewline_CRLF. destruct (splitNewline_cons r) as (f & fs & E).
    split; [intros g Hg; rewrite E in Hg; discriminate|].
    rewrite E in *.
    change (List.last ("" :: f :: fs) "") with (List.last (f :: fs) "").
    rewrite IH2, !endsCR_cons. now destruct r.
  - rewrite (splitNewline_keep c r H1 H2).
    destruct (splitNewline_cons r) as (f & fs & E). rewrite E in *.
    cbn [pushChar]. split.
    + intros g Hg. injection Hg as <- ->. now rewrite (IH1 f eq_refl).
    + destruct fs as [|f' fs].
      * rewrite (IH1 f eq_refl) in *. reflexivity.
      * change (List.last (String c f :: f' :: fs) "")
          with (List.last (f :: f' :: fs) "").
        rewrite IH2, endsCR_cons.
        destruct r; [discriminate E|reflexivity].
Qed.

Lemma pushChar_glue (c : ascii) (x y : list string) :
  x <> [] -> y <> [] ->
  pushChar c (removelast x ++ glue (List.last x "") y)
  = removelast (pushChar c x) ++ glue (List.last (pushChar c x) "") y.
Proof.
  intros Hx Hy. destruct x as [|f [|f' fs]]; [contradiction| |].
  - destruct y as [|g gs]; [contradiction|]. reflexivity.
  - reflexivity.
Qed.

(** The fragments of two texts in a row: those of the first, the last of
    them completed by the first fragment of the second, and the rest of the
    second; unless a CR at the end of the first meets a LF at the start of
    the second. *)
Lemma splitNewline_app (b : string) : forall a,
  endsCR a = false ->
  splitNewline (a +:+ b)
  = removelast (splitNewline a)
    ++ glue (List.last (splitNewline a) "") (splitNewline b).
Proof.
  destruct (splitNewline_cons b) as (g & gs & Eb).
  induction a as [| r IH | r IH | c r H1 H2 IH] using splitNewline_ind;
    intros Ha.
  - cbn. now rewrite Eb.
  - pose proof (endsCR_tail _ _ Ha) as Hr.
    change (String LF r +:+ b) with (String LF (r +:+ b)).
    rewrite !splitNewline_LF, (IH Hr).
    destruct (splitNewline_cons r) as (f & fs & E). now rewrite E.
  - pose proof (endsCR_tail _ _ (endsCR_tail _ _ Ha)) as Hr.
    change (String CR (String LF r) +:+ b) with (String CR (String LF (r +:+ b))).
    rewrite !splitNewline_CRLF, (IH Hr).
    destruct (splitNewline_cons r) as (f & fs & E). now rewrite E.
  - pose proof (endsCR_tail _ _ Ha) as Hr.
    change (String c r +:+ b) with (String c (r +:+ b)).
    rewrite (splitNewline_keep c r H1 H2), splitNewline_keep, (IH Hr).
    + destruct (splitNewline_cons r) as (f & fs & E).
      apply pushChar_glue; [now rewrite E | now rewrite Eb].
    + exact H1.
    + destruct r as [|c' r']; [|exact H2].
      cbn in Ha. rewrite Ha. reflexivity.
Qed.

Lemma splitNewline_noLF (s : string) : noLF s = true -> splitNewline s = [s].
Proof.
  intros H. apply splitNewline_without_LF. exact H.
Qed.

Lemma splitNewline_buffer (buffer text : string) :
  noLF buffer = true -> endsCR buffer = false ->
  splitNewline (buffer +:+ text) = glue buffer (splitNewline text).
Proof.
  intros H1 H2. rewrite (splitNewline_app text buffer H2).
  now rewrite (splitNewline_noLF buffer H1).
Qed.

Lemma hasLF_fragments (s : string) :
  hasLF s = true -> exists f f' fs, splitNewline s = f :: f' :: fs.
Proof.
  unfold hasLF, noLF.
  induction s as [| r IH | r IH | c r H1 H2 IH] using splitNewline_ind;
    intros H.
  - discriminate.
  - rewrite splitNewline_LF. destruct (splitNewline_cons r) as (f & fs & ->).
    eauto.
  - rewrite splitNewline_CRLF. destruct (splitNewline_cons r) as (f & fs & ->).
    eauto.
  - rewrite (splitNewline_keep c r H1 H2).
    cbn [all] in H. unfold differs at 1 in H. rewrite H1 in H.
    destruct (IH H) as (f & f' & fs & ->). cbn. eauto.
Qed.

Lemma removelast_glue (f : string) (l : list string) :
  l <> [] -> removelast (glue f l) = glue f (removelast l) \/ removelast l = [].
Proof.
  destruct l as [|g [|g' gs]]; [contradiction|now right|left; reflexivity].
Qed.

Lemma feed_buffer : forall chunks buffer,
  noLF buffer = true -> endsCR buffer = false ->
  Forall (fun c => hasLF c = true /\ endsCR c = false) chunks ->
  feed buffer chunks
  = removelast (splitNewline (buffer +:+ Aggregator.concat chunks)).
Proof.
  induction chunks as [|c rest IH]; intros buffer Hb1 Hb2 Hc.
  - cbn. rewrite splitNewline_buffer by assumption. reflexivity.
  - inversion Hc as [|? ? [Hc1 Hc2] Hrest]; subst.
    cbn [feed Aggregator.concat fold_right].
    fold (Aggregator.concat rest).
    unfold getTextLineAggregator.
    destruct (hasLF_fragments c Hc1) as (f & f' & fs & E).
    pose proof (fragments_noLF c) as Hn.
    pose proof (proj2 (last_fragment c)) as Hl.
    rewrite E in *. rewrite Hc2 in Hl.
    assert (Hn' : noLF (List.last (f :: f' :: fs) "") = true).
    { clear - Hn. revert Hn. generalize (f :: f' :: fs).
      induction l as [|x [|y l] IHl]; intros Hn; [reflexivity| |].
      - now inversion Hn.
      - inversion Hn; subst. now apply IHl. }
    rewrite (IH _ Hn' Hl Hrest).
    rewrite (splitNewline_buffer buffer) by assumption.
    rewrite (splitNewline_app (Aggregator.concat rest) c Hc2), E.
    rewrite (splitNewline_buffer _ _ Hn' Hl).
    destruct (splitNewline_cons (Aggregator.concat rest)) as (g & gs & ->).
    change (removelast (f :: f' :: fs)) with (f :: removelast (f' :: fs)).
    cbn [glue app].
    symmetry. rewrite app_comm_cons, List.removelast_app by discriminate.
    reflexivity.
Qed.

(** X1. Fed chunks that each hold a line feed and do not end with a
    carriage return, the aggregator hands over exactly the newline
    terminated lines of the chunks put in a row, in order and once each;
    the text after the last separator is not handed over. *)
Theorem feed_terminated_lines (chunks : list string) :
  Forall (fun c => hasLF c = true /\ endsCR c = false) chunks ->
  feed "" chunks = terminatedLines (Aggregator.concat chunks).
Proof.
  intros H. unfold terminatedLines.
  now rewrite (feed_buffer chunks "" eq_refl eq_refl H).
Qed.

Lemma Forall_removelast {A : Type} (P : A -> Prop) (l : list A) :
  Forall P l -> Forall P (removelast l).
Proof.
  induction l as [|x [|y l] IH]; intros H; [constructor|constructor|].
  inversion H; subst. constructor; [assumption | now apply IH].
Qed.

Lemma Forall_last {A : Type} (P : A -> Prop) (l : list A) (d : A) :
  Forall P l -> P d -> P (List.last l d).
Proof.
  induction l as [|x [|y l] IH]; intros H Hd; [exact Hd| |].
  - now inversion H.
  - inversion H; subst. now apply IH.
Qed.

(** X2. Whatever the chunks, no text handed to the callback holds a line
    feed, when the buffer holds none at the start, as the empty buffer of a
    new aggregator. *)
Theorem feed_lines_without_LF : forall chunks buffer,
  noLF buffer = true ->
  Forall (fun line => noLF line = true) (feed buffer chunks).
Proof.
  induction chunks as [|c rest IH]; intros buffer Hb; [constructor|].
  cbn [feed]. unfold getTextLineAggregator.
  pose proof (fragments_noLF c) as Hn.
  apply Forall_app. split.
  - pose proof (Forall_removelast _ _ Hn) as Hr.
    destruct (removelast (splitNewline c)) as [|l0 ls].
    + repeat constructor. unfold noLF in *. now rewrite all_app, Hb.
    + inversion Hr; subst. constructor; [|assumption].
      unfold noLF in *. rewrite all_app, Hb. assumption.
  - apply IH. now apply Forall_last.
Qed.

End Lines.

(** ** Configuration and flags *)

Section Config.

Lemma lookup_copyField (k k' : string) (s : value) (t : gmap string value) :
  Mongod.copyField k s t !! k'
  = if decide (k = k')
    then (if notNullish (prop s k) then Some (prop s k) else t !! k')
    else t !! k'.
Proof.
  unfold Mongod.copyField.
  destruct (notNullish (prop s k)); case_decide; subst;
    rewrite ?lookup_insert_eq, ?lookup_insert_ne by assumption; reflexivity.
Qed.

Lemma get_copyField (k k' : string) (s : value) (t : gmap string value) :
  get (Mongod.copyField k s t) k'
  = if decide (k = k')
    then (if notNullish (prop s k) then prop s k else get t k')
    else get t k'.
Proof.
  unfold get. rewrite lookup_copyField.
  case_decide; [|reflexivity]. now destruct (notNullish (prop s k)).
Qed.

Lemma get_empty (k : string) : get ∅ k = VUndefined.
Proof. unfold get. now rewrite lookup_empty. Qed.

Lemma parseFlags_notNullish (c : gmap string value) :
  Forall (fun v => notNullish v = true) (Mongod.parseFlags c).
Proof.
  unfold Mongod.parseFlags.
  destruct (notNullish (get c "conf")) eqn:C; [now repeat constructor|].
  destruct (notNullish (get c "dbpath")) eqn:D;
    destruct (notNullish (get c "port")) eqn:P; now repeat constructor.
Qed.

(** X3. The flags of a parsed options object are the flags of the object
    itself: [parseConfig] into a new target loses nothing that
    [parseFlags] reads. *)
Theorem parseFlags_parseConfig (o : gmap string value) :
  Mongod.parseFlags (Mongod.parseConfig (VObject o) None) = Mongod.parseFlags o.
Proof.
  unfold Mongod.parseConfig, Mongod.parseFlags.
  cbn [notNullish negb default prop]. unfold id.
  destruct (notNullish (get o "conf")) eqn:C.
  - now rewrite get_insert_eq, C.
  - rewrite !get_copyField. cbn [prop]. rewrite !get_empty.
    repeat case_decide; try discriminate; try congruence.
    cbn [notNullish].
    destruct (notNullish (get o "dbpath")) eqn:D;
      destruct (notNullish (get o "port")) eqn:P;
      cbn [notNullish]; rewrite ?D, ?P; reflexivity.
Qed.

(** X4. A source with a [conf] makes the flags [--config conf], whatever
    the target holds and whatever [dbpath] and [port] the source has. *)
Theorem conf_overrides_dbpath_and_port (source : value)
    (target : option (gmap string value)) :
  notNullish (prop source "conf") = true ->
  Mongod.parseFlags (Mongod.parseConfig source target)
  = [VStr "--config"; prop source "conf"].
Proof.
  intros H. unfold Mongod.parseConfig.
  assert (notNullish source = true) as ->
    by (destruct source; try reflexivity; discriminate H).
  cbn [negb]. rewrite H. unfold Mongod.parseFlags.
  now rewrite get_insert_eq, H.
Qed.

(** X5. [parseConfig] reads four fields of the source and no other: two
    options objects that agree on [bin], [conf], [dbpath] and [port] give
    the same result. *)
Theorem parseConfig_reads_four_fields (o o' : gmap string value)
    (target : option (gmap string value)) :
  (forall k, In k configKeys -> get o k = get o' k) ->
  Mongod.parseConfig (VObject o) target = Mongod.parseConfig (VObject o') target.
Proof.
  intros H. unfold Mongod.parseConfig, Mongod.copyField. cbn [prop].
  rewrite (H "bin"), (H "conf"), (H "dbpath"), (H "port");
    unfold configKeys; cbn [In]; auto 10.
Qed.

(** X6. [parseConfig] writes four fields of the target and no other: a
    field of another name is in the result exactly as it is in the target,
    and is missing when the target is. *)
Theorem parseConfig_keeps_other_fields (source : value)
    (target : option (gmap string value)) (k : string) :
  ~ In k configKeys ->
  Mongod.parseConfig source target !! k = default ∅ target !! k.
Proof.
  intros H. unfold configKeys in H. cbn [In] in H.
  unfold Mongod.parseConfig.
  destruct (negb (notNullish source)); [reflexivity|].
  destruct (notNullish (prop source "conf")).
  - rewrite lookup_insert_ne by intuition. rewrite lookup_copyField.
    case_decide; [exfalso; intuition | reflexivity].
  - rewrite !lookup_copyField.
    repeat (case_decide; [exfalso; intuition|]). reflexivity.
Qed.

(** X7. [parseConfig] is idempotent: parsing the same source into its own
    result changes nothing. *)
Theorem parseConfig_idempotent (source : value)
    (target : option (gmap string value)) :
  Mongod.parseConfig source (Some (Mongod.parseConfig source target))
  = Mongod.parseConfig source target.
Proof.
  unfold Mongod.parseConfig at 1. cbn [default]. unfold id.
  destruct (negb (notNullish source)) eqn:N; [reflexivity|].
  unfold Mongod.parseConfig. rewrite N.
  apply map_eq. intros k.
  destruct (notNullish (prop source "conf")) eqn:C.
  - destruct (decide ("conf" = k)) as [<-|Hk].
    + now rewrite !lookup_insert_eq.
    + rewrite !lookup_insert_ne by assumption. rewrite !lookup_copyField.
      rewrite lookup_insert_ne by assumption. rewrite lookup_copyField.
      case_decide; [|reflexivity].
      now destruct (notNullish (prop source "bin")).
  - rewrite !lookup_copyField.
    repeat case_decide; subst; try discriminate;
      repeat match goal with
             | |- context [notNullish ?v] => destruct (notNullish v)
             end; reflexivity.
Qed.

Lemma constructor_bin (configOrPort : value) :
  notNullish (get (config (server (Mongod.constructor configOrPort))) "bin")
  = true.
Proof.
  cbn [Mongod.constructor server config].
  destruct (String.eqb (typeOf configOrPort) "number"
            || String.eqb (typeOf configOrPort) "string"); [reflexivity|].
  destruct (String.eqb (typeOf configOrPort) "object"); [|reflexivity].
  unfold Mongod.parseConfig. cbn [default]. unfold id.
  destruct (negb (notNullish configOrPort)); [reflexivity|].
  destruct (notNullish (prop configOrPort "conf")).
  - rewrite get_insert_ne by discriminate. rewrite get_copyField.
    case_decide; [|congruence].
    destruct (notNullish (prop configOrPort "bin")) eqn:B; [exact B|reflexivity].
  - rewrite !get_copyField.
    repeat (case_decide; [discriminate|]). case_decide; [|congruence].
    destruct (notNullish (prop configOrPort "bin")) eqn:B; [exact B|reflexivity].
Qed.

(** X8. The first [open()] of a new instance, once its body starts, emits
    'opening' and calls [spawn] with the [bin] of the config and the flags
    of [parseFlags], none of them [null] or [undefined]. If [spawn] accepts
    them, process 0 is spawned and the instance holds its handle; if not,
    nothing is spawned, the promise of the body is rejected with what
    [spawn] threw, the handle stays [null] and [isOpening] stays on. For a
    port given as a number or a string the call is [mongod --port <port>]. *)
Theorem first_open_spawns (configOrPort : value) :
  let c := config (server (Mongod.constructor configOrPort)) in
  exists w,
    run [CallOpen; Dequeue] (Mongod.constructor configOrPort) = Some w
    /\ notNullish (get c "bin") = true
    /\ Forall (fun v => notNullish v = true) (Mongod.parseFlags c)
    /\ match ChildProcess.refusal (get c "bin") (Mongod.parseFlags c) with
       | None =>
           log w = [Enqueue {| body := OpenBody; outer := 2 |};
                    BodyStart {| body := OpenBody; outer := 2 |} 3;
                    Emit "opening" [];
                    Spawn 0 (get c "bin") (Mongod.parseFlags c)]
           /\ process (server w) = Some 0%nat
           /\ promises w !! 3%nat = Some Pending
       | Some err =>
           log w = [Enqueue {| body := OpenBody; outer := 2 |};
                    BodyStart {| body := OpenBody; outer := 2 |} 3;
                    Emit "opening" []; Settle 3]
           /\ process (server w) = None
           /\ promises w !! 3%nat = Some (Rejected err)
           /\ isOpening (server w) = true
       end
    /\ (typeOf configOrPort = "number" \/ typeOf configOrPort = "string" ->
        get c "bin" = VStr "mongod"
        /\ Mongod.parseFlags c = [VStr "--port"; configOrPort]).
Proof.
  intros c.
  assert (R : exists w,
             run [CallOpen; Dequeue] (freshWorld c) = Some w
             /\ match ChildProcess.refusal (get c "bin") (Mongod.parseFlags c)
                with
                | None =>
                    log w = [Enqueue {| body := OpenBody; outer := 2 |};
                             BodyStart {| body := OpenBody; outer := 2 |} 3;
                             Emit "opening" [];
                             Spawn 0 (get c "bin") (Mongod.parseFlags c)]
                    /\ process (server w) = Some 0%nat
                    /\ promises w !! 3%nat = Some Pending
                | Some err =>
                    log w = [Enqueue {| body := OpenBody; outer := 2 |};
                             BodyStart {| body := OpenBody; outer := 2 |} 3;
                             Emit "opening" []; Settle 3]
                    /\ process (server w) = None
                    /\ promises w !! 3%nat = Some (Rejected err)
                    /\ isOpening (server w) = true
                end).
  { clearbody c. cbv -[ChildProcess.refusal get Mongod.parseFlags].
    destruct (ChildProcess.refusal _ _) as [err|]; eexists;
      (split; [reflexivity|]); repeat split; reflexivity. }
  destruct R as (w & E & M). exists w.
  split; [now rewrite constructor_fresh|].
  split; [apply constructor_bin|].
  split; [apply parseFlags_notNullish|]. split; [exact M|].
  intros H. subst c. cbn [Mongod.constructor server config].
  assert (String.eqb (typeOf configOrPort) "number"
          || String.eqb (typeOf configOrPort) "string" = true) as ->.
  { destruct H as [-> | ->]; reflexivity. }
  split; [reflexivity|].
  unfold Mongod.parseFlags. rewrite get_insert_ne by discriminate.
  rewrite get_insert_ne by discriminate.
  rewrite get_insert_eq.
  assert (notNullish configOrPort = true) as ->
    by (destruct configOrPort; try reflexivity; destruct H; discriminate).
  reflexivity.
Qed.

End Config.

(** ** The matches of [keyRE] and their keys *)

Section Tokens.
Import Js RegExp.

Ltac each_char c :=
  destruct c as [[] [] [] [] [] [] [] []]; vm_compute; intuition congruence.

Lemma fold_facts (c : ascii) :
  foldCase (foldCase c) = foldCase c
  /\ isSpace (foldCase c) = isSpace c /\ isDigit (foldCase c) = isDigit c
  /\ Ascii.eqb (foldCase c) CR = Ascii.eqb c CR
  /\ Ascii.eqb (foldCase c) "="%char = Ascii.eqb c "="%char
  /\ Ascii.eqb (foldCase c) " "%char = Ascii.eqb c " "%char
  /\ lowerChar (foldCase c) = lowerChar c
  /\ isSpace (lowerChar c) = isSpace c.
Proof. each_char c. Qed.

Lemma Matches_restOfLine : Matches (fun _ => True) restOfLine.
Proof.
  intros s m r H. unfold restOfLine in H. injection H as H.
  apply span_inv in H as (-> & _). now split.
Qed.

Lemma Matches_weaken (P : string -> Prop) (mt : matcher) :
  Matches P mt -> Matches (fun _ => True) mt.
Proof. apply Matches_impl. auto. Qed.

Lemma Matches_word (x : ascii) (p : string) :
  Matches (fun m => m <> "") (lit (String x p)).
Proof.
  eapply Matches_impl; [|apply Matches_lit]. intros m H ->. discriminate.
Qed.

Lemma Matches_then (P : string -> Prop) (m1 m2 : matcher) :
  Matches (fun m => m <> "") m1 -> Matches P m2 ->
  Matches (fun m => m <> "") (seq m1 m2).
Proof.
  intros H1 H2. eapply Matches_impl; [|apply (Matches_seq _ _ _ _ H1 H2)].
  intros m (a & b & -> & Ha & _). now destruct a.
Qed.

Lemma Matches_either (P : string -> Prop) (m1 m2 : matcher) :
  Matches P m1 -> Matches P m2 -> Matches P (alt m1 m2).
Proof.
  intros H1 H2. eapply Matches_impl; [|apply (Matches_alt _ _ _ _ H1 H2)].
  intros m [H|H]; exact H.
Qed.

(** A match of [keyRE] is a prefix of the input that is not empty. *)
Lemma Matches_keyRE : Matches (fun m => m <> "") keyRE.
Proof.
  unfold keyRE, failureRE, pidRE, portRE, waitingRE, inUseRE, deniedRE,
    genericRE, errorWord, phrase.
  repeat apply Matches_either;
    (eapply Matches_then;
     [ repeat apply Matches_either; apply Matches_word
     | repeat first [ eapply Matches_seq | apply Matches_lit
                    | apply Matches_many1 | apply Matches_restOfLine ] ]).
Qed.

Lemma matchAll_skip (b : string) : forall a,
  matchAll (String.length a) (a +:+ b) = matchAll 0 b.
Proof. induction a as [|c a IH]; [reflexivity | exact IH]. Qed.

Lemma length_append (a b : string) :
  String.length (a +:+ b) = (String.length a + String.length b)%nat.
Proof. induction a; simpl; [reflexivity | now f_equal]. Qed.

Lemma pieces (n : nat) : forall s, (String.length s <= n)%nat ->
  exists gaps tail,
    length gaps = length (matchAll 0 s)
    /\ s = interleave gaps (matchAll 0 s) +:+ tail
    /\ Forall (fun m => m <> "") (matchAll 0 s).
Proof.
  induction n as [|n IH]; intros s Hn.
  - destruct s; [|simpl in Hn; lia]. now exists [], "".
  - destruct s as [|c s]; [now exists [], ""|].
    cbn [matchAll]. destruct (keyRE (String c s)) as [[m r]|] eqn:E.
    + destruct (Matches_keyRE _ _ _ E) as [Hs Hm].
      destruct m as [|c' m]; [contradiction|].
      simpl in Hs. injection Hs as <- ->.
      replace (String.length (String c m) - 1)%nat with (String.length m)
        by (simpl; lia).
      rewrite matchAll_skip.
      destruct (IH r) as (gaps & tail & Hl & Hr & Hf).
      { simpl in Hn. rewrite length_append in Hn. lia. }
      exists ("" :: gaps), tail. repeat split.
      * simpl. now rewrite Hl.
      * cbn [interleave]. simpl. rewrite app_assoc_s. now rewrite <- Hr.
      * constructor; [discriminate | exact Hf].
    + destruct (IH s) as (gaps & tail & Hl & Hr & Hf).
      { simpl in Hn. lia. }
      destruct gaps as [|g gs], (matchAll 0 s) as [|m ms]; try discriminate.
      * exists [], (String c s). now repeat split.
      * exists (String c g :: gs), tail. repeat split; [exact Hl| |exact Hf].
        cbn [interleave] in *. simpl. now rewrite <- Hr.
Qed.

(** X9. The matches of [keyRE] on a line are pieces of the line: none is
    empty, and they lie in the line from left to right without overlap,
    each after a gap of skipped text. *)
Theorem matches_are_pieces_of_the_line (line : string) :
  exists gaps tail,
    length gaps = length (match_keyRE line)
    /\ line = interleave gaps (match_keyRE line) +:+ tail
    /\ Forall (fun m => m <> "") (match_keyRE line).
Proof. apply (pieces (String.length line)). lia. Qed.

(** *** Letter case *)

Lemma fold_app (a b : string) : fold (a +:+ b) = fold a +:+ fold b.
Proof. apply mapString_app. Qed.

Lemma length_fold (s : string) : String.length (fold s) = String.length s.
Proof. induction s; simpl; [reflexivity | now f_equal]. Qed.

Lemma Folds_lit (p : string) : Folds (lit p).
Proof.
  induction p as [|x p IH]; intros s; [reflexivity|].
  destruct s as [|c s]; [reflexivity|].
  change (fold (String c s)) with (String (foldCase c) (fold s)).
  cbn [lit]. destruct (fold_facts c) as (-> & _).
  destruct (Ascii.eqb (foldCase c) x); [|reflexivity].
  rewrite (IH s). now destruct (lit p s) as [[m r]|].
Qed.

Lemma span_fold (q : ascii -> bool) :
  (forall c, q (foldCase c) = q c) ->
  forall s, span q (fold s) = foldPair (span q s).
Proof.
  intros Hq. induction s as [|c s IH]; [reflexivity|].
  change (fold (String c s)) with (String (foldCase c) (fold s)).
  cbn [span]. rewrite Hq. destruct (q c); [|reflexivity].
  rewrite IH. now destruct (span q s).
Qed.

Lemma Folds_many1 (q : ascii -> bool) :
  (forall c, q (foldCase c) = q c) -> Folds (many1 q).
Proof.
  intros Hq s. unfold many1. rewrite (span_fold q Hq).
  destruct (span q s) as [[|c m] r]; reflexivity.
Qed.

Lemma Folds_restOfLine : Folds restOfLine.
Proof.
  intros s. unfold restOfLine. rewrite span_fold; [reflexivity|].
  intros c. destruct (fold_facts c) as (_ & _ & _ & -> & _). reflexivity.
Qed.

Lemma Folds_seq (m1 m2 : matcher) : Folds m1 -> Folds m2 -> Folds (seq m1 m2).
Proof.
  intros H1 H2 s. unfold seq. rewrite H1.
  destruct (m1 s) as [[a r]|]; [|reflexivity]. unfold option_map, foldPair; cbn [fst snd].
  rewrite H2. destruct (m2 r) as [[b r']|]; [|reflexivity].
  unfold option_map, foldPair; cbn [fst snd]. now rewrite fold_app.
Qed.

Lemma Folds_alt (m1 m2 : matcher) : Folds m1 -> Folds m2 -> Folds (alt m1 m2).
Proof.
  intros H1 H2 s. unfold alt. rewrite H1.
  destruct (m1 s) as [x|]; [reflexivity | apply H2].
Qed.

Lemma Folds_keyRE : Folds keyRE.
Proof.
  unfold keyRE, failureRE, pidRE, portRE, waitingRE, inUseRE, deniedRE,
    genericRE, errorWord, phrase, spaces, digits.
  repeat first
    [ apply Folds_alt | apply Folds_seq | apply Folds_lit
    | apply Folds_restOfLine
    | apply Folds_many1; intros c; destruct (fold_facts c) as (_ & H1 & H2 & _);
      first [exact H1 | exact H2] ].
Qed.

Lemma matchAll_fold : forall s k,
  matchAll k (fold s) = map fold (matchAll k s).
Proof.
  induction s as [|c s IH]; intros k; [reflexivity|].
  change (fold (String c s)) with (String (foldCase c) (fold s)).
  cbn [matchAll]. destruct k as [|k]; [|apply IH].
  change (String (foldCase c) (fold s)) with (fold (String c s)).
  rewrite Folds_keyRE. destruct (keyRE (String c s)) as [[m r]|].
  - unfold option_map, foldPair; cbn [fst snd]. rewrite length_fold, IH. reflexivity.
  - apply IH.
Qed.

Lemma search_eq (mt : matcher) (s : string) :
  search mt s
  = match mt s with
    | Some _ => true
    | None => match s with
              | EmptyString => false
              | String _ r => search mt r
              end
    end.
Proof. now destruct s. Qed.

Lemma search_fold (p : string) : forall s,
  search (lit p) (fold s) = search (lit p) s.
Proof.
  induction s as [|c s IH].
  - rewrite (search_eq _ (fold "")), (search_eq _ ""), Folds_lit.
    now destruct (lit p "").
  - rewrite (search_eq _ (fold (String c s))), (search_eq _ (String c s)).
    rewrite Folds_lit. destruct (lit p (String c s)); [reflexivity|].
    exact IH.
Qed.

Lemma errorRE_test_fold (m : string) :
  errorRE_test (fold m) = errorRE_test m.
Proof.
  unfold errorRE_test. rewrite Folds_lit, !search_fold.
  now destruct (lit "error" m).
Qed.

Lemma splitEq_fold (s : string) : splitEq (fold s) = map fold (splitEq s).
Proof.
  induction s as [|c s IH]; [reflexivity|].
  change (fold (String c s)) with (String (foldCase c) (fold s)).
  cbn [splitEq]. destruct (fold_facts c) as (_ & _ & _ & _ & -> & _).
  destruct (Ascii.eqb c "="%char); [now rewrite IH|].
  rewrite IH. now destruct (splitEq s).
Qed.

Lemma removeSpaces_fold (s : string) :
  removeSpaces (fold s) = fold (removeSpaces s).
Proof.
  induction s as [|c s IH]; [reflexivity|].
  change (fold (String c s)) with (String (foldCase c) (fold s)).
  cbn [removeSpaces]. destruct (fold_facts c) as (_ & _ & _ & _ & _ & -> & _).
  destruct (Ascii.eqb c " "%char); [exact IH|].
  change (fold (String c (removeSpaces s)))
    with (String (foldCase c) (fold (removeSpaces s))).
  now rewrite IH.
Qed.

Lemma toLowerCase_fold (s : string) : toLowerCase (fold s) = toLowerCase s.
Proof.
  unfold toLowerCase, fold. induction s as [|c s IH]; [reflexivity|].
  cbn [mapString]. destruct (fold_facts c) as (_ & _ & _ & _ & _ & _ & -> & _).
  now rewrite IH.
Qed.

Lemma keyOf_fold (m : string) : keyOf (fold m) = keyOf m.
Proof.
  unfold keyOf, Mongod.keyValue. rewrite errorRE_test_fold.
  destruct (errorRE_test m); [reflexivity|]. cbn [fst].
  rewrite splitEq_fold.
  destruct (splitEq m) as [|f fs]; [reflexivity|]. cbn [map hd].
  now rewrite removeSpaces_fold, toLowerCase_fold.
Qed.

(** X10. The classification of a line does not depend on the case of its
    ASCII letters: two lines that fold to the same text have the same
    matches up to case, and [matchHandler] switches on the same keys in
    the same order. *)
Theorem classification_ignores_case (line line' : string) :
  fold line = fold line' ->
  map fold (match_keyRE line) = map fold (match_keyRE line')
  /\ map keyOf (match_keyRE line) = map keyOf (match_keyRE line').
Proof.
  intros H. unfold match_keyRE.
  assert (E : map fold (matchAll 0 line) = map fold (matchAll 0 line'))
    by now rewrite <- !matchAll_fold, H.
  split; [exact E|].
  assert (K : forall l, map keyOf l = map keyOf (map fold l)).
  { intros l. rewrite map_map. apply map_ext. intros m.
    now rewrite keyOf_fold. }
  now rewrite (K (matchAll 0 line)), (K (matchAll 0 line')), E.
Qed.

(** *** White space inside a phrase *)

Lemma dense_key (m : string) :
  dense (toLowerCase (removeSpaces m)) = spaced m.
Proof.
  unfold dense, spaced, toLowerCase. induction m as [|c m IH]; [reflexivity|].
  cbn [removeSpaces all]. destruct (Ascii.eqb c " "%char) eqn:E.
  - rewrite IH. now rewrite orb_true_r.
  - cbn [mapString all]. rewrite IH.
    destruct (fold_facts c) as (_ & _ & _ & _ & _ & _ & _ & ->).
    now rewrite orb_false_r.
Qed.

Lemma letters_no_eq (a : string) :
  letters a = true -> all (fun c => negb (Ascii.eqb c "="%char)) a = true.
Proof.
  apply all_impl. intros c Hc.
  destruct (letter_facts c Hc) as (_ & _ & _ & -> & _). reflexivity.
Qed.

Lemma spaces_no_eq (a : string) :
  all isSpace a = true -> all (fun c => negb (Ascii.eqb c "="%char)) a = true.
Proof.
  apply all_impl. intros c Hc.
  destruct (space_facts c Hc) as (_ & _ & _ & ->). reflexivity.
Qed.

Lemma phrase_key (a b c s m r : string) :
  all isLower a = true -> all isLower b = true -> all isLower c = true ->
  phrase a b c s = Some (m, r) ->
  errorRE_test m = false ->
  Mongod.keyValue m = (toLowerCase (removeSpaces m), None).
Proof.
  intros La Lb Lc H He. unfold Mongod.keyValue. rewrite He.
  apply phrase_inv in H as (ma & s1 & mb & s2 & mc & -> & Ha & H1 & Hb & H2 & Hc).
  rewrite splitEq_none; [reflexivity|].
  rewrite !all_app.
  rewrite (letters_no_eq ma (letters_of_fold _ _ Ha La)).
  rewrite (letters_no_eq mb (letters_of_fold _ _ Hb Lb)).
  rewrite (letters_no_eq mc (letters_of_fold _ _ Hc Lc)).
  now rewrite (spaces_no_eq s1 H1), (spaces_no_eq s2 H2).
Qed.

Lemma key_not_error (m k : string) (v : option string) (x : ascii) :
  Mongod.keyValue m = (String x k, v) -> Ascii.eqb x "e"%char = false ->
  errorRE_test m = false.
Proof.
  intros H Hx. destruct (errorRE_test m) eqn:E; [|reflexivity].
  unfold Mongod.keyValue in H. rewrite E in H. injection H as <- _ _.
  discriminate.
Qed.

Lemma phrase_not_error (s m r : string) :
  waitingRE s = Some (m, r) \/ inUseRE s = Some (m, r)
  \/ deniedRE s = Some (m, r) ->
  errorRE_test m = false.
Proof.
  intros [H|[H|H]].
  - destruct (keyValue_phrase "w"%char "aiting" "for" "connections" s m r)
      as (k & v & Hk); try reflexivity; [exact H|].
    now apply (key_not_error _ _ _ _ Hk).
  - destruct (keyValue_phrase "a"%char "lready" "in" "use" s m r)
      as (k & v & Hk); try reflexivity; [exact H|].
    now apply (key_not_error _ _ _ _ Hk).
  - destruct (keyValue_phrase "d"%char "enied" "for" "socket" s m r)
      as (k & v & Hk); try reflexivity; [exact H|].
    now apply (key_not_error _ _ _ _ Hk).
Qed.

(** A phrase whose words are not separated by U+0020 alone has a key that
    no [case] of [matchHandler] has. *)
Lemma phrase_unspaced (s m r : string) :
  waitingRE s = Some (m, r) \/ inUseRE s = Some (m, r)
  \/ deniedRE s = Some (m, r) ->
  spaced m = false ->
  forall inner w, Mongod.matchHandler inner m w = (w, false).
Proof.
  intros H Hsp inner w.
  pose proof (phrase_not_error s m r H) as He.
  assert (Hk : Mongod.keyValue m = (toLowerCase (removeSpaces m), None)).
  { destruct H as [H|[H|H]];
      [ apply (phrase_key "waiting" "for" "connections" s m r)
      | apply (phrase_key "already" "in" "use" s m r)
      | apply (phrase_key "denied" "for" "socket" s m r) ];
      try reflexivity; assumption. }
  pose proof (dense_key m) as Hd. rewrite Hsp in Hd.
  unfold Mongod.matchHandler. rewrite Hk.
  repeat match goal with
         | |- context [String.eqb ?k ?l] =>
             let E := fresh "E" in
             destruct (String.eqb k l) eqn:E;
             [apply String.eqb_eq in E; rewrite E in Hd; discriminate Hd|]
         end.
  reflexivity.
Qed.


(** X11. A match of "waiting for connections", "already in use" or "denied
    for socket" whose words are separated by white space other than
    U+0020, a tab for one, is ignored by [matchHandler]: the attempt is
    neither resolved nor rejected, and nothing else changes. *)
Theorem phrase_with_other_white_space_is_ignored (s m r : string) :
  waitingRE s = Some (m, r) \/ inUseRE s = Some (m, r)
  \/ deniedRE s = Some (m, r) ->
  spaced m = false ->
  forall inner w, Mongod.matchHandler inner m w = (w, false).
Proof. exact (phrase_unspaced s m r). Qed.

Lemma error_match_generic (s m r : string) :
  keyRE s = Some (m, r) -> errorRE_test m = true -> genericRE s = Some (m, r).
Proof.
  intros H He.
  destruct (keyRE_cases _ _ _ H) as [H1|[H1|[H1|[H1|[H1|H1]]]]];
    [| | | | |exact H1]; exfalso.
  - destruct (matchHandler_assignment "pid" s m r (or_introl eq_refl) H1)
      as (a & d & _ & _ & _ & _ & Hk).
    unfold Mongod.keyValue in Hk. rewrite He in Hk. discriminate.
  - destruct (matchHandler_assignment "port" s m r (or_intror eq_refl) H1)
      as (a & d & _ & _ & _ & _ & Hk).
    unfold Mongod.keyValue in Hk. rewrite He in Hk. discriminate.
  - rewrite (phrase_not_error s m r) in He; [discriminate|tauto].
  - rewrite (phrase_not_error s m r) in He; [discriminate|tauto].
  - rewrite (phrase_not_error s m r) in He; [discriminate|tauto].
Qed.

(** X12. Among the matches of [keyRE] on a line, [errorRE] singles out
    those of the last alternative: a match tests as an error exactly when
    it starts with "error", "exception" or "badvalue" and runs to the end
    of the line; a [pid=], a [port=] or a phrase never does. *)
Theorem errorRE_singles_out_the_error_alternative (line m : string) :
  In m (match_keyRE line) ->
  (errorRE_test m = true <-> exists s r, genericRE s = Some (m, r)).
Proof.
  intros Hin. split.
  - intros He. apply matchAll_In in Hin as (s & r & H).
    exists s, r. now apply error_match_generic.
  - intros (s & r & H). now apply (errorRE_test_generic s m r).
Qed.

(** A match of the error alternative in a text without a carriage return
    takes the text to its end. *)
Lemma generic_takes_the_rest (s m r : string) :
  noCR s = true -> genericRE s = Some (m, r) -> r = "".
Proof.
  intros Hs H. apply seq_inv in H as (a & b & r1 & Ha & Hb & ->).
  assert (Hw : Matches (fun _ => True) errorWord).
  { unfold errorWord.
    repeat apply Matches_either; eapply Matches_weaken; apply Matches_lit. }
  destruct (Hw _ _ _ Ha) as [-> _].
  unfold restOfLine in Hb. injection Hb as Hb.
  apply span_inv in Hb as (-> & _ & Hr).
  destruct r as [|c r]; [reflexivity|].
  unfold noCR in Hs. rewrite !all_app in Hs.
  apply andb_prop in Hs as [_ Hs]. apply andb_prop in Hs as [_ Hs].
  cbn [all] in Hs. apply andb_prop in Hs as [Hc _].
  unfold differs in Hc. rewrite Hr in Hc. discriminate.
Qed.

Lemma append_empty_r (s : string) : s +:+ "" = s.
Proof. induction s; simpl; [reflexivity | now f_equal]. Qed.

Lemma noCR_tail (c : ascii) (s : string) :
  noCR (String c s) = true -> noCR s = true.
Proof. unfold noCR. cbn [all]. now intros [_ H]%andb_prop. Qed.

Lemma error_match_ends (m : string) :
  errorRE_test m = true ->
  forall s k, noCR s = true -> In m (matchAll k s) ->
    (exists pre, s = pre +:+ m) /\ List.last (matchAll k s) "" = m.
Proof.
  intros He. induction s as [|c s IH]; intros k Hs Hin; [contradiction|].
  pose proof (noCR_tail _ _ Hs) as Hs'.
  cbn [matchAll] in *. destruct k as [|k].
  - destruct (keyRE (String c s)) as [[m0 r]|] eqn:E.
    + destruct Hin as [<-|Hin].
      * pose proof (error_match_generic _ _ _ E He) as G.
        pose proof (generic_takes_the_rest _ _ _ Hs G) as ->.
        destruct (Matches_keyRE _ _ _ E) as [Hm Hne].
        destruct m0 as [|c0 m0]; [contradiction|].
        cbn in Hm. injection Hm as <- ->.
        replace (String.length (String c m0) - 1)%nat with (String.length m0)
          by (simpl; lia).
        rewrite matchAll_skip. split; [|reflexivity].
        exists "". cbn. now rewrite append_empty_r.
      * destruct (IH _ Hs' Hin) as [(pre & ->) Hl].
        split; [now exists (String c pre)|].
        destruct (matchAll (String.length m0 - 1) (pre +:+ m)) as [|x l];
          [contradiction | exact Hl].
    + destruct (IH _ Hs' Hin) as [(pre & ->) Hl].
      split; [now exists (String c pre) | exact Hl].
  - destruct (IH _ Hs' Hin) as [(pre & ->) Hl].
    split; [now exists (String c pre) | exact Hl].
Qed.

(** X13. On a line without a carriage return, a match that tests as an
    error runs to the end of the line and is the last match of the line:
    whatever follows an error, exception or badvalue token is part of the
    message and is not searched for further tokens. *)
Theorem error_match_runs_to_the_end (line m : string) :
  noCR line = true ->
  In m (match_keyRE line) ->
  errorRE_test m = true ->
  (exists pre, line = pre +:+ m) /\ List.last (match_keyRE line) "" = m.
Proof. intros Hl Hin He. now apply error_match_ends. Qed.

(** *** The errors of an open attempt *)

Lemma dropWhile_split (q : ascii -> bool) : forall s,
  exists a, s = a +:+ dropWhile q s /\ all q a = true
            /\ match dropWhile q s with
               | String c _ => q c = false
               | EmptyString => True
               end.
Proof.
  induction s as [|c s IH]; [now exists ""|].
  cbn [dropWhile]. destruct (q c) eqn:E.
  - destruct IH as (a & E1 & A & F). exists (String c a).
    cbn [all]. rewrite E, A. split; [|now split].
    change (String c a +:+ dropWhile q s) with (String c (a +:+ dropWhile q s)).
    now rewrite <- E1.
  - exists "". now split.
Qed.

Lemma append_empty (s : string) : s +:+ "" = s.
Proof. induction s as [|c s IH]; [reflexivity|]. simpl. now rewrite IH. Qed.

Lemma rev_app (a b : string) : rev (a +:+ b) = rev b +:+ rev a.
Proof.
  induction a as [|c a IH]; [simpl; now rewrite append_empty|].
  change (String c a +:+ b) with (String c (a +:+ b)). cbn [rev].
  now rewrite IH, app_assoc_s.
Qed.

Lemma rev_rev (s : string) : rev (rev s) = s.
Proof.
  induction s as [|c s IH]; [reflexivity|].
  cbn [rev]. rewrite rev_app, IH. reflexivity.
Qed.

Lemma all_rev (q : ascii -> bool) (s : string) : all q (rev s) = all q s.
Proof.
  induction s as [|c s IH]; [reflexivity|].
  cbn [rev all]. rewrite all_app, IH. cbn [all].
  rewrite andb_true_r. apply andb_comm.
Qed.

Lemma endsDense_snoc (c : ascii) : forall s,
  endsDense (s +:+ String c "") = negb (isSpace c).
Proof.
  induction s as [|b s IH]; [reflexivity|].
  change (String b s +:+ String c "") with (String b (s +:+ String c "")).
  cbn [endsDense]. rewrite IH. now destruct s.
Qed.

(** [String.prototype.trim] takes the white space off the two ends, and
    nothing else. *)
Lemma trim_trimmed (s : string) : trimmed s (trim s).
Proof.
  unfold trimmed, trim.
  destruct (dropWhile_split isSpace s) as (a & Ea & Ha & Fa).
  set (t1 := dropWhile isSpace s) in *.
  destruct (dropWhile_split isSpace (rev t1)) as (b & Eb & Hb & Fb).
  set (t2 := dropWhile isSpace (rev t1)) in *.
  assert (E1 : t1 = rev t2 +:+ rev b).
  { rewrite <- (rev_rev t1), Eb. apply rev_app. }
  exists a, (rev b). split; [now rewrite <- E1|].
  split; [exact Ha|]. split; [now rewrite all_rev|]. split.
  - destruct (rev t2) as [|c r] eqn:R; [reflexivity|].
    rewrite E1 in Fa. cbn in Fa. cbn [startsDense]. now rewrite Fa.
  - destruct t2 as [|c r]; [reflexivity|].
    cbn [rev]. rewrite endsDense_snoc. now rewrite Fb.
Qed.

Lemma dropWhile_all (q : ascii -> bool) (a s : string) :
  all q a = true -> dropWhile q (a +:+ s) = dropWhile q s.
Proof.
  induction a as [|c a IH]; [reflexivity|].
  cbn [all]. intros [Hc Ha]%andb_prop.
  change (String c a +:+ s) with (String c (a +:+ s)).
  cbn [dropWhile]. rewrite Hc. now apply IH.
Qed.

Lemma dropWhile_dense (s : string) :
  startsDense s = true -> dropWhile isSpace s = s.
Proof.
  destruct s as [|c s]; [reflexivity|]. cbn [startsDense dropWhile].
  intros H. apply negb_true_iff in H. now rewrite H.
Qed.

Lemma endsDense_rev (s : string) : endsDense (rev s) = startsDense s.
Proof.
  destruct s as [|c s]; [reflexivity|]. cbn [rev]. apply endsDense_snoc.
Qed.

(** The text without the white space at its ends is the one that [trim]
    returns, and no other. *)
Lemma trimmed_trim (s t : string) : trimmed s t -> t = trim s.
Proof.
  intros (a & b & -> & Ha & Hb & Hs & He). unfold trim.
  rewrite (dropWhile_all isSpace a _ Ha).
  destruct t as [|c t].
  - change ("" +:+ b) with b.
    rewrite <- (append_empty b) at 1.
    rewrite (dropWhile_all isSpace b "" Hb). reflexivity.
  - rewrite (dropWhile_dense (String c t +:+ b)) by exact Hs.
    rewrite rev_app, dropWhile_all by (now rewrite all_rev).
    rewrite dropWhile_dense; [now rewrite rev_rev|].
    now rewrite <- endsDense_rev, rev_rev.
Qed.

(** C9 (amended). On a match of [keyRE], while the attempt is pending: an
    error with which [matchHandler] rejects the attempt is the generic one
    (message: the match without the white space at its ends, code -1) on a
    match of the error alternative, 'Address already in use' with code -2
    on an "already in use" match, or 'Permission denied' with code -3 on a
    "denied for socket" match, the words of the two phrases being separated
    by U+0020 alone.
    Every match of the error alternative rejects with its error, and so
    does every match of the two phrases whose words are separated by
    U+0020 alone; a match of the two phrases with other white space between
    its words rejects nothing: the attempt stays pending. *)
Theorem rejection_code_and_message
    (line m : string) (inner : nat) (w : World) :
  In m (match_keyRE line) ->
  promises w !! inner = Some Pending ->
  let after := promises (fst (Mongod.matchHandler inner m w)) !! inner in
  (forall e, after = Some (Rejected e) ->
     (exists msg, trimmed m msg /\ e = VError "Error" msg (VNum (-1))
                  /\ exists s r, genericRE s = Some (m, r))
     \/ (e = VError "Error" "Address already in use" (VNum (-2))
         /\ spaced m = true /\ exists s r, inUseRE s = Some (m, r))
     \/ (e = VError "Error" "Permission denied" (VNum (-3))
         /\ spaced m = true /\ exists s r, deniedRE s = Some (m, r)))
  /\ ((exists s r, genericRE s = Some (m, r)) ->
      exists msg, trimmed m msg
        /\ after = Some (Rejected (VError "Error" msg (VNum (-1)))))
  /\ ((exists s r, inUseRE s = Some (m, r)) ->
      after = Some (if spaced m
                    then Rejected (VError "Error" "Address already in use"
                                     (VNum (-2)))
                    else Pending))
  /\ ((exists s r, deniedRE s = Some (m, r)) ->
      after = Some (if spaced m
                    then Rejected (VError "Error" "Permission denied"
                                     (VNum (-3)))
                    else Pending)).
Proof.
  intros Hin Hp after. subst after.
  assert (G3 : (exists s r, inUseRE s = Some (m, r)) ->
               promises (fst (Mongod.matchHandler inner m w)) !! inner
               = Some (if spaced m
                       then Rejected (VError "Error" "Address already in use"
                                        (VNum (-2)))
                       else Pending)).
  { intros (s & r & H). destruct (spaced m) eqn:Hsp.
    - rewrite (matchHandler_inUse_spaced _ _ _ _ _ H Hsp).
      now rewrite (finish_promise _ _ _ Hp).
    - now rewrite (phrase_unspaced s m r (or_intror (or_introl H)) Hsp). }
  assert (G4 : (exists s r, deniedRE s = Some (m, r)) ->
               promises (fst (Mongod.matchHandler inner m w)) !! inner
               = Some (if spaced m
                       then Rejected (VError "Error" "Permission denied"
                                        (VNum (-3)))
                       else Pending)).
  { intros (s & r & H). destruct (spaced m) eqn:Hsp.
    - rewrite (matchHandler_denied_spaced _ _ _ _ _ H Hsp).
      now rewrite (finish_promise _ _ _ Hp).
    - now rewrite (phrase_unspaced s m r (or_intror (or_intror H)) Hsp). }
  split; [|split; [|split; [exact G3 | exact G4]]].
  - intros e He. apply matchAll_In in Hin as (s & r & Hk).
    apply keyRE_cases in Hk as [H|[H|[H|[H|[H|H]]]]].
    + destruct (matchHandler_pid _ _ _ H) as (d & _ & _ & Hm).
      rewrite Hm in He. cbn in He. congruence.
    + destruct (matchHandler_port _ _ _ H) as (d & _ & _ & Hm).
      rewrite Hm in He. cbn in He. congruence.
    + destruct (matchHandler_waiting _ _ _ H inner w) as [Hm|Hm];
        rewrite Hm in He.
      * rewrite finish_promise in He; [discriminate | exact Hp].
      * cbn in He. congruence.
    + right; left. rewrite G3 in He by eauto.
      destruct (spaced m); [|discriminate He].
      injection He as <-. split; [reflexivity|]. split; [reflexivity|eauto].
    + right; right. rewrite G4 in He by eauto.
      destruct (spaced m); [|discriminate He].
      injection He as <-. split; [reflexivity|]. split; [reflexivity|eauto].
    + left. rewrite (matchHandler_generic _ _ _ H) in He.
      rewrite (finish_promise _ _ _ Hp) in He. cbn in He.
      injection He as <-. exists (trim m).
      split; [apply trim_trimmed|]. split; [reflexivity | eauto].
  - intros (s & r & H). exists (trim m). split; [apply trim_trimmed|].
    rewrite (matchHandler_generic _ _ _ H).
    now rewrite (finish_promise _ _ _ Hp).
Qed.

(** C9, the claim as stated fails: an "already in use" match whose words a
    tab separates rejects nothing, and the attempt stays pending; and the
    attempt of an instance whose [bin] is a number is rejected with the
    [TypeError] of [spawn], whose code is a text. *)
Lemma errors_outside_the_categories :
  (let m := "already" +:+ tab +:+ "in use" in
   In m (match_keyRE ("address " +:+ m))
   /\ inUseRE m = Some (m, "")
   /\ promises startedWorld !! 3%nat = Some Pending
   /\ promises (fst (Mongod.matchHandler 3 m startedWorld)) !! 3%nat
      = Some Pending
   /\ isOpening (server (fst (Mongod.matchHandler 3 m startedWorld))) = true)
  /\ option_map (fun w => promises w !! 3%nat)
       (run [CallOpen; Dequeue] (Mongod.constructor numberBin))
     = Some (Some (Rejected (VError "TypeError"
                              "The 'file' argument must be of type string"
                              (VStr "ERR_INVALID_ARG_TYPE")))).
Proof.
  split; [|vm_compute; reflexivity].
  cbv zeta. split; [vm_compute; left; reflexivity|].
  repeat split; vm_compute; reflexivity.
Qed.

Lemma rejection_code_and_message_witness :
  In "Error parsing option  " (match_keyRE "Error parsing option  ")
  /\ promises startedWorld !! 3%nat = Some Pending
  /\ (exists msg, trimmed "Error parsing option  " msg
        /\ promises (fst (Mongod.matchHandler 3 "Error parsing option  "
                            startedWorld)) !! 3%nat
           = Some (Rejected (VError "Error" msg (VNum (-1)))))
  /\ promises (fst (Mongod.matchHandler 3 "Error parsing option  "
                      startedWorld)) !! 3%nat
     = Some (Rejected (VError "Error" "Error parsing option" (VNum (-1)))).
Proof.
  assert (H4 : promises (fst (Mongod.matchHandler 3 "Error parsing option  "
                                startedWorld)) !! 3%nat
               = Some (Rejected (VError "Error" "Error parsing option"
                                   (VNum (-1)))))
    by (vm_compute; reflexivity).
  assert (H1 : In "Error parsing option  "
                 (match_keyRE "Error parsing option  "))
    by (vm_compute; left; reflexivity).
  assert (H2 : promises startedWorld !! 3%nat = Some Pending)
    by (vm_compute; reflexivity).
  assert (H3 : genericRE "Error parsing option  "
               = Some ("Error parsing option  ", ""))
    by (vm_compute; reflexivity).
  split; [exact H1|]. split; [exact H2|]. split; [|exact H4].
  destruct (rejection_code_and_message "Error parsing option  "
              "Error parsing option  " 3 startedWorld H1 H2) as (_ & G & _).
  apply G. exists "Error parsing option  ", "". exact H3.
Defined.

End Tokens.

(** ** What every reachable world satisfies *)

Section Soundness.

Lemma killed_app (a b : list event) :
  killed (a ++ b) = (killed a + killed b)%nat.
Proof. unfold killed. now rewrite List.filter_app, length_app. Qed.

Lemma neutral_counts (e : event) (l : list event) :
  neutral e = true ->
  emitted "opening" (l ++ [e]) = emitted "opening" l
  /\ emitted "closing" (l ++ [e]) = emitted "closing" l
  /\ spawned (l ++ [e]) = spawned l /\ killed (l ++ [e]) = killed l.
Proof.
  intros H. rewrite !emitted_app, spawned_app, killed_app.
  destruct e as [i|i inner|i|n args|p b f|p]; try discriminate H;
    try (cbn; repeat split; lia).
  cbn [neutral] in H.
  apply andb_prop in H as [H1 H2]. apply negb_true_iff in H1, H2.
  unfold emitted. cbn [List.filter]. rewrite H1, H2. cbn. repeat split; lia.
Qed.

Lemma sound_record {c : gmap string value} (e : event) (w : World) :
  neutral e = true -> sound c w -> sound c (record e w).
Proof.
  intros He [H0 H1 H2 H3 H4 H5].
  destruct (neutral_counts e (log w) He) as (E1 & E2 & E3 & E4).
  split; cbn [record server promises log];
    [exact H0 | exact H1 | exact H2 | exact H3 | now rewrite E3, E1
    | congruence].
Qed.

Lemma sound_setServer {c : gmap string value} (f : Server -> Server)
    (w : World) :
  config (f (server w)) = config (server w) ->
  isOpening (f (server w)) && isClosing (f (server w)) = false ->
  (forall q, process (f (server w)) = Some q -> process (server w) = Some q) ->
  sound c w -> sound c (setServer f w).
Proof.
  intros Hc Hf Hp [H0 H1 H2 H3 H4 H5].
  split; cbn [setServer server promises log]; try assumption.
  - now rewrite Hc.
  - intros q Hq. apply H2, Hp, Hq.
Qed.

Lemma sound_setProc {c : gmap string value}
    (p : nat) (f : Proc -> Proc) (w : World) :
  (forall pr, closed (f pr) = closed pr) -> sound c w -> sound c (setProc p f w).
Proof.
  intros Hf [H0 H1 H2 H3 H4 H5]. unfold setProc.
  destruct (procs w !! p) as [pr|] eqn:E; [|now split].
  split; cbn [setProcs server promises log]; try assumption.
  intros q Hq. destruct (H2 q Hq) as (pr' & Hl & Hc).
  cbn [setProcs procs]. destruct (decide (q = p)) as [->|Hne].
  - exists (f pr). rewrite list_lookup_insert_eq
      by (now apply lookup_lt_Some in E).
    split; [reflexivity|]. rewrite Hf. congruence.
  - exists pr'. rewrite list_lookup_insert_ne by congruence. now split.
Qed.

Lemma sound_setProc_idle {c : gmap string value}
    (p : nat) (f : Proc -> Proc) (w : World) :
  process (server w) = None -> sound c w -> sound c (setProc p f w).
Proof.
  intros Hn [H0 H1 H2 H3 H4 H5]. unfold setProc.
  destruct (procs w !! p) as [pr|] eqn:E; [|now split].
  split; cbn [setProcs server promises log]; try assumption.
  intros q Hq. cbn [setProcs server] in Hq. congruence.
Qed.

Lemma sound_settle {c : gmap string value}
    (i : nat) (s : settlement) (w : World) :
  classified c s -> sound c w -> sound c (settle i s w).
Proof.
  intros Hs H. unfold settle.
  destruct (promises w !! i) as [[| |]|]; try exact H.
  apply sound_record; [reflexivity|]. destruct H as [H0 H1 H2 H3 H4 H5].
  split; cbn [setPromises server promises log]; try assumption.
  now apply Forall_insert.
Qed.

Lemma sound_throw {c : gmap string value} (w : World) :
  sound c w -> sound c (throwUncaught w).
Proof. intros [H0 H1 H2 H3 H4 H5]. now split. Qed.

Lemma sound_setQueue {c : gmap string value}
    (q : list item) (n : nat) (rs : list (nat * item))
    (w : World) :
  sound c w -> sound c (setQueue q n rs w).
Proof. intros [H0 H1 H2 H3 H4 H5]. now split. Qed.

Lemma sound_newPromise {c : gmap string value} (w : World) :
  sound c w -> sound c (fst (newPromise w)).
Proof.
  intros [H0 H1 H2 H3 H4 H5].
  split; cbn [newPromise fst setPromises server promises log]; try assumption.
  apply Forall_app. split; [exact H3 | now repeat constructor].
Qed.

Lemma sound_fold {A : Type} {c : gmap string value} (f : World -> A -> World) :
  (forall w x, sound c w -> sound c (f w x)) ->
  forall l w, sound c w -> sound c (fold_left f l w).
Proof.
  intros Hf. induction l as [|x l IH]; intros w H; [exact H|].
  cbn [fold_left]. apply IH, Hf, H.
Qed.

Lemma sound_finish {c : gmap string value}
    (inner : nat) (err : value) (w : World) :
  classified c (match err with VNull => Resolved VNull | _ => Rejected err end) ->
  sound c w -> sound c (fst (Mongod.finish inner err w)).
Proof.
  intros Hc H. unfold Mongod.finish. cbn [fst].
  assert (H' : sound c (setServer (withOpening false) w))
    by (apply sound_setServer; [reflexivity | reflexivity | auto | exact H]).
  destruct err; now apply sound_settle.
Qed.

Lemma sound_removeListeners {c : gmap string value} (p : nat) (w : World) :
  sound c w -> sound c (Mongod.removeListeners p w).
Proof.
  intros H. unfold Mongod.removeListeners.
  destruct (process (server w)) as [q|]; [|now apply sound_throw].
  destruct (q =? p)%nat; [|exact H]. now apply sound_setProc.
Qed.

(** The outcomes of [matchHandler], with the codes of the errors. *)
Lemma matchHandler_outcomes (inner : nat) (m : string) (w : World) :
  (exists msg code,
      (code = -1 \/ code = -2 \/ code = -3)%Z
      /\ Mongod.matchHandler inner m w
         = Mongod.finish inner (VError "Error" msg (VNum code)) w)
  \/ Mongod.matchHandler inner m w
     = Mongod.finish inner VNull (emit "open" [] (setServer (withRunning true) w))
  \/ (exists v, Mongod.matchHandler inner m w = (setServer (withPid v) w, false))
  \/ (exists v, Mongod.matchHandler inner m w = (setServer (withPort v) w, false))
  \/ Mongod.matchHandler inner m w = (w, false).
Proof.
  unfold Mongod.matchHandler, Mongod.newError.
  destruct (Mongod.keyValue m) as [k v].
  repeat match goal with
         | |- context [if String.eqb k ?l then _ else _] =>
             destruct (String.eqb k l)
         end; eauto 12.
Qed.

Lemma sound_forMatches {c : gmap string value}
    (p inner : nat) : forall matches w,
  sound c w -> sound c (Mongod.forMatches p inner matches w).
Proof.
  induction matches as [|m ms IH]; intros w H; [exact H|].
  cbn [Mongod.forMatches].
  destruct (matchHandler_outcomes inner m w)
    as [(msg & code & Hc & E)|[E|[(v & E)|[(v & E)|E]]]]; rewrite E.
  - apply sound_removeListeners.
    apply (sound_finish inner (VError "Error" msg (VNum code))); [|exact H].
    left. now exists msg, code.
  - apply sound_removeListeners.
    apply (sound_finish inner VNull); [reflexivity|].
    apply sound_record; [reflexivity|].
    apply sound_setServer; [reflexivity | apply H | auto | exact H].
  - apply IH. apply sound_setServer; [reflexivity | apply H | auto | exact H].
  - apply IH. apply sound_setServer; [reflexivity | apply H | auto | exact H].
  - now apply IH.
Qed.

Lemma sound_dataHandler {c : gmap string value}
    (p : nat) (data : string) (w : World) :
  sound c w -> sound c (Mongod.dataHandler p data w).
Proof.
  intros H. unfold Mongod.dataHandler.
  destruct (procs w !! p) as [pr|]; [|exact H].
  destruct (Aggregator.getTextLineAggregator (buffer pr) data) as [b ls].
  apply sound_fold; [|now apply sound_setProc].
  intros w0 l H0. unfold Mongod.lineHandler.
  destruct (uncaught w0); [exact H0 | now apply sound_forMatches].
Qed.

Lemma sound_dataPropagator {c : gmap string value}
    (p : nat) (st : stream) (data : string)
    (w : World) :
  sound c w -> sound c (Mongod.dataPropagator p st data w).
Proof.
  intros H. unfold Mongod.dataPropagator.
  destruct (procs w !! p) as [pr|]; [|exact H].
  destruct (Aggregator.getTextLineAggregator (streamBuffer st pr) data)
    as [b ls].
  apply sound_fold; [|apply sound_setProc; [now destruct st | exact H]].
  intros w0 l H0. apply sound_record; [now destruct st | exact H0].
Qed.

Lemma sound_onData {c : gmap string value}
    (p : nat) (st : stream) (chunk : string) (w w' : World) :
  sound c w -> onData p st chunk w = Some w' -> sound c w'.
Proof.
  intros H. unfold onData. destruct (procs w !! p) as [pr|]; [|discriminate].
  destruct (closed pr); [discriminate|]. intros E. injection E as <-.
  assert (H1 : sound c (if attached pr then Mongod.dataHandler p chunk w else w))
    by (destruct (attached pr); [now apply sound_dataHandler | exact H]).
  destruct (uncaught _); [exact H1 | now apply sound_dataPropagator].
Qed.

Lemma sound_onClose {c : gmap string value} (p : nat) (w w' : World) :
  sound c w -> onClose p w = Some w' -> sound c w'.
Proof.
  intros H. unfold onClose. destruct (procs w !! p) as [pr|]; [|discriminate].
  destruct (closed pr); [discriminate|]. intros E. injection E as <-.
  assert (F : forall l w0,
             server (fold_left (fun w i => settle i (Resolved VNull) w) l w0)
             = server w0).
  { clear. induction l as [|i l IH]; intros w0; [reflexivity|].
    cbn [fold_left]. rewrite IH. apply settle_fields. }
  apply sound_setProc_idle; [now rewrite F|].
  apply sound_fold; [intros w0 i H0; now apply sound_settle|].
  unfold Mongod.closeListener. apply sound_record; [reflexivity|].
  apply sound_setServer; [reflexivity | apply andb_false_r | discriminate | exact H].
Qed.

Lemma sound_openBody {c : gmap string value} (inner : nat) (w : World) :
  sound c w -> sound c (Mongod.openBody inner w).
Proof.
  intros H. unfold Mongod.openBody.
  destruct (isClosing (server w) || isRunning (server w)).
  - apply sound_settle; [reflexivity|].
    apply sound_setServer; [reflexivity | reflexivity | auto | exact H].
  - cbn [emit record server]. destruct H as [H0 H1 H2 H3 H4 H5].
    rewrite H0. unfold accepts in H4.
    destruct (ChildProcess.refusal (get c "bin") (Mongod.parseFlags c))
      as [err|] eqn:R.
    + apply sound_settle; [now right|].
      split; cbn [emit record server promises log]; try assumption.
      * unfold accepts. now rewrite R, spawned_app, H4.
      * now rewrite emitted_app, killed_app, H5.
    + split; cbn [setProcs setServer record emit server promises log procs
                  withProcess isOpening isClosing process config].
      * exact H0.
      * exact H1.
      * intros q Hq. injection Hq as <-. eexists.
        split; [apply list_lookup_middle; reflexivity | reflexivity].
      * exact H3.
      * unfold accepts. rewrite R.
        rewrite <- !List.app_assoc, emitted_app, spawned_app, H4.
        cbn. lia.
      * rewrite <- !List.app_assoc, emitted_app, killed_app, H5. reflexivity.
Qed.

Lemma setProc_record (p : nat) (f : Proc -> Proc) (e : event) (w : World) :
  setProc p f (record e w) = record e (setProc p f w).
Proof. unfold setProc. cbn [record procs]. now destruct (procs w !! p). Qed.

Lemma sound_closeBody {c : gmap string value} (inner : nat) (w : World) :
  held w -> uncaught w = false -> sound c w -> sound c (Mongod.closeBody inner w).
Proof.
  intros Hh Hu H. unfold Mongod.closeBody.
  destruct (isOpening (server w) || negb (isRunning (server w))) eqn:C.
  - apply sound_settle; [reflexivity|].
    apply sound_setServer; [reflexivity | apply andb_false_r | auto | exact H].
  - apply orb_false_elim in C as [_ C]. apply negb_false_iff in C.
    pose proof (Hh Hu C) as Hp. unfold emit. cbn [record server].
    destruct (process (server w)) as [q|] eqn:P; [|contradiction].
    rewrite setProc_record.
    assert (H' : sound c (setProc q
                          (fun pr => withOnceClose (onceClose pr ++ [inner]) pr)
                          w))
      by now apply sound_setProc.
    destruct H' as [G0 G1 G2 G3 G4 G5].
    split; cbn [emit record server promises log]; try assumption.
    + rewrite <- !List.app_assoc, emitted_app, spawned_app, G4.
      cbn. destruct (accepts c); lia.
    + rewrite <- !List.app_assoc, emitted_app, killed_app, G5. reflexivity.
Qed.

Lemma sound_add {c : gmap string value} (g : generator) (w : World) :
  sound c w -> sound c (fst (PromiseQueue.add g w)).
Proof.
  intros H. unfold PromiseQueue.add.
  pose proof (sound_newPromise w H) as H'. unfold newPromise in *.
  cbn [fst] in *. apply sound_record; [reflexivity|].
  now apply sound_setQueue.
Qed.

Lemma sound_open {c : gmap string value} (w : World) :
  sound c w -> sound c (fst (Mongod.open w)).
Proof.
  intros H. unfold Mongod.open. destruct (isOpening (server w)); [exact H|].
  match goal with |- context [PromiseQueue.add ?g ?w0] =>
    assert (H' : sound c (fst (PromiseQueue.add g w0)));
    [ apply sound_add, sound_setServer; [reflexivity | reflexivity | auto | exact H]
    | destruct (PromiseQueue.add g w0) as [w1 p] ] end.
  cbn [fst] in *. apply sound_setServer; [reflexivity | apply H' | auto | exact H'].
Qed.

Lemma sound_close {c : gmap string value} (w : World) :
  sound c w -> sound c (fst (Mongod.close w)).
Proof.
  intros H. unfold Mongod.close. destruct (isClosing (server w)); [exact H|].
  match goal with |- context [PromiseQueue.add ?g ?w0] =>
    assert (H' : sound c (fst (PromiseQueue.add g w0)));
    [ apply sound_add, sound_setServer; [reflexivity | reflexivity | auto | exact H]
    | destruct (PromiseQueue.add g w0) as [w1 p] ] end.
  cbn [fst] in *. apply sound_setServer; [reflexivity | apply H' | auto | exact H'].
Qed.

(** *** The handle of a running instance *)

Lemma held_eq (w w' : World) :
  (uncaught w' = false -> uncaught w = false) ->
  isRunning (server w') = isRunning (server w) ->
  process (server w') = process (server w) ->
  held w -> held w'.
Proof. unfold held. intros Hu -> ->. auto. Qed.

Lemma held_setProc (p : nat) (f : Proc -> Proc) (w : World) :
  held w -> held (setProc p f w).
Proof.
  destruct (setProc_fields p f w) as (Es & _ & Eu & _).
  apply held_eq; now rewrite ?Es, ?Eu.
Qed.

Lemma held_settle (i : nat) (s : settlement) (w : World) :
  held w -> held (settle i s w).
Proof.
  destruct (settle_fields i s w) as (Es & _ & Eu & _).
  apply held_eq; now rewrite ?Es, ?Eu.
Qed.

Lemma held_removeListeners (p : nat) (w : World) :
  held (Mongod.removeListeners p w).
Proof.
  unfold Mongod.removeListeners.
  destruct (process (server w)) as [q|] eqn:P.
  - assert (H : held w) by (intros _ _; now rewrite P).
    destruct (q =? p)%nat; [now apply held_setProc | exact H].
  - intros Hu. discriminate Hu.
Qed.

Lemma held_forMatches (p inner : nat) : forall matches w,
  held w -> held (Mongod.forMatches p inner matches w).
Proof.
  induction matches as [|m ms IH]; intros w H; [exact H|].
  cbn [Mongod.forMatches].
  destruct (matchHandler_outcomes inner m w)
    as [(msg & code & Hc & E)|[E|[(v & E)|[(v & E)|E]]]]; rewrite E.
  - apply held_removeListeners.
  - apply held_removeListeners.
  - apply IH. revert H. now apply held_eq.
  - apply IH. revert H. now apply held_eq.
  - now apply IH.
Qed.

Lemma held_fold {A : Type} (f : World -> A -> World) :
  (forall w x, held w -> held (f w x)) ->
  forall l w, held w -> held (fold_left f l w).
Proof.
  intros Hf. induction l as [|x l IH]; intros w H; [exact H|].
  cbn [fold_left]. apply IH, Hf, H.
Qed.

Lemma held_onData (p : nat) (st : stream) (chunk : string) (w w' : World) :
  held w -> onData p st chunk w = Some w' -> held w'.
Proof.
  intros H. unfold onData. destruct (procs w !! p) as [pr|]; [|discriminate].
  destruct (closed pr); [discriminate|]. intros E. injection E as <-.
  assert (H1 : held (if attached pr then Mongod.dataHandler p chunk w else w)).
  { destruct (attached pr); [|exact H]. unfold Mongod.dataHandler.
    destruct (procs w !! p) as [pr0|]; [|exact H].
    destruct (Aggregator.getTextLineAggregator (buffer pr0) chunk) as [b ls].
    apply held_fold; [|now apply held_setProc].
    intros w0 l H0. unfold Mongod.lineHandler.
    destruct (uncaught w0); [exact H0 | now apply held_forMatches]. }
  destruct (uncaught _); [exact H1|].
  unfold Mongod.dataPropagator.
  destruct (procs _ !! p) as [pr1|]; [|exact H1].
  destruct (Aggregator.getTextLineAggregator (streamBuffer st pr1) chunk)
    as [b ls].
  apply held_fold; [|now apply held_setProc].
  intros w0 l. now apply held_eq.
Qed.

Lemma held_onClose (p : nat) (w w' : World) : onClose p w = Some w' -> held w'.
Proof.
  intros E. destruct (onClose_server p w w' E) as (_ & _ & _ & Hr & _).
  intros _ Hr'. congruence.
Qed.

Lemma held_openBody (inner : nat) (w : World) :
  held w -> held (Mongod.openBody inner w).
Proof.
  intros H. unfold Mongod.openBody.
  destruct (isClosing (server w) || isRunning (server w)).
  - apply held_settle. revert H. now apply held_eq.
  - destruct (ChildProcess.refusal _ _) as [err|].
    + apply held_settle. revert H. now apply held_eq.
    + intros _ _. discriminate.
Qed.

Lemma held_closeBody (inner : nat) (w : World) :
  held w -> held (Mongod.closeBody inner w).
Proof.
  intros H. unfold Mongod.closeBody.
  destruct (isOpening (server w) || negb (isRunning (server w))).
  - apply held_settle. revert H. now apply held_eq.
  - cbn [emit record server].
    destruct (process (server w)) as [q|] eqn:P.
    + assert (H' : held (setProc q
                           (fun pr => withOnceClose (onceClose pr ++ [inner]) pr)
                           (emit "closing" [] w)))
        by (apply held_setProc; revert H; now apply held_eq).
      revert H'. now apply held_eq.
    + apply held_settle. revert H. now apply held_eq.
Qed.

Lemma held_open (w : World) : held w -> held (fst (Mongod.open w)).
Proof.
  intros H. unfold Mongod.open. destruct (isOpening (server w)); [exact H|].
  unfold PromiseQueue.add, newPromise. cbn [fst]. revert H. now apply held_eq.
Qed.

Lemma held_close (w : World) : held w -> held (fst (Mongod.close w)).
Proof.
  intros H. unfold Mongod.close. destruct (isClosing (server w)); [exact H|].
  unfold PromiseQueue.add, newPromise. cbn [fst]. revert H. now apply held_eq.
Qed.

(** *** Every action *)

Lemma sound_dequeue {c : gmap string value} (w w' : World) :
  uncaught w = false -> sound c w -> held w -> dequeue w = Some w' ->
  sound c w' /\ held w'.
Proof.
  intros Hu H Hh. unfold dequeue. destruct (queue w) as [|i q]; [discriminate|].
  destruct (PromiseQueue.canStart w); [|discriminate].
  pose proof (sound_newPromise w H) as H1. unfold newPromise in *.
  cbn [fst setPromises promises reactions pendingPromises] in *.
  set (w1 := record _ _).
  assert (S1 : sound c w1)
    by (subst w1; apply sound_record; [reflexivity|]; now apply sound_setQueue).
  assert (K1 : held w1) by (subst w1; revert Hh; now apply held_eq).
  assert (U1 : uncaught w1 = false) by exact Hu.
  intros E. injection E as <-. destruct (body i).
  - split; [now apply sound_openBody | now apply held_openBody].
  - split; [now apply sound_closeBody | now apply held_closeBody].
Qed.

Lemma sound_settled {c : gmap string value} (inner : nat) (w w' : World) :
  sound c w -> held w -> settled inner w = Some w' -> sound c w' /\ held w'.
Proof.
  intros H Hh. unfold settled.
  destruct (find _ (reactions w)) as [[x i]|]; [|discriminate].
  destruct (isSettled w inner); [|discriminate].
  intros E. injection E as <-. unfold PromiseQueue.release.
  cbn [setQueue promises].
  set (w1 := setQueue _ _ _ w).
  assert (S1 : sound c w1) by (subst w1; now apply sound_setQueue).
  assert (K1 : held w1) by (subst w1; revert Hh; now apply held_eq).
  destruct (promises w !! inner) as [s|] eqn:P; [|now split].
  split; [|now apply held_settle].
  apply sound_settle; [|exact S1].
  destruct H as [_ _ _ H3 _ _]. rewrite Forall_lookup in H3. exact (H3 _ _ P).
Qed.

Lemma sound_exec {c : gmap string value} (a : action) (w w' : World) :
  sound c w -> held w -> exec a w = Some w' -> sound c w' /\ held w'.
Proof.
  intros H Hh. unfold exec. destruct (uncaught w) eqn:Hu; [discriminate|].
  destruct a as [| | |inner|p st chunk|p]; intros E.
  - injection E as <-. split; [now apply sound_open | now apply held_open].
  - injection E as <-. split; [now apply sound_close | now apply held_close].
  - now apply (sound_dequeue w).
  - now apply (sound_settled inner w).
  - split; [now apply (sound_onData p st chunk w)
           | now apply (held_onData p st chunk w)].
  - split; [now apply (sound_onClose p w) | now apply (held_onClose p w)].
Qed.

Lemma sound_run {c : gmap string value} (acts : list action) : forall w w',
  sound c w -> held w -> run acts w = Some w' -> sound c w' /\ held w'.
Proof.
  induction acts as [|a acts IH]; intros w w' H Hh E; cbn [run] in E.
  - injection E as <-. now split.
  - destruct (exec a w) as [w1|] eqn:X; [|discriminate].
    destruct (sound_exec a w w1 H Hh X) as [H1 Hh1]. now apply (IH w1 w').
Qed.

Lemma sound_constructor (configOrPort : value) :
  sound (config (server (Mongod.constructor configOrPort)))
    (Mongod.constructor configOrPort)
  /\ held (Mongod.constructor configOrPort).
Proof.
  split; [split; try reflexivity|].
  - intros q Hq. discriminate.
  - cbn [Mongod.constructor promises]. now repeat constructor.
  - cbn [Mongod.constructor log]. now destruct (accepts _).
  - intros _ Hr. discriminate.
Qed.

(** X14. Whatever the calls and the events, [isOpening] and [isClosing]
    are never on together. *)
Theorem never_opening_and_closing (configOrPort : value)
    (acts : list action) (w : World) :
  run acts (Mongod.constructor configOrPort) = Some w ->
  isOpening (server w) && isClosing (server w) = false.
Proof.
  intros E. destruct (sound_constructor configOrPort) as [H Hh].
  destruct (sound_run acts _ _ H Hh E) as [[_ H1 _ _ _ _] _]. exact H1.
Qed.

(** X15. Whatever the calls and the events, while no exception has
    escaped: the handle that the instance holds is of a process that was
    spawned and has not closed, and a running instance holds a handle; so
    [kill] in the body of [close] has a live process to go to. *)
Theorem running_instance_holds_a_live_process (configOrPort : value)
    (acts : list action) (w : World) :
  run acts (Mongod.constructor configOrPort) = Some w ->
  (forall q, process (server w) = Some q ->
             exists pr, procs w !! q = Some pr /\ closed pr = false)
  /\ (uncaught w = false -> isRunning (server w) = true ->
      exists q, process (server w) = Some q).
Proof.
  intros E. destruct (sound_constructor configOrPort) as [H Hh].
  destruct (sound_run acts _ _ H Hh E) as [[_ _ H2 _ _ _] Hh'].
  split; [exact H2|]. intros Hu Hr. specialize (Hh' Hu Hr).
  destruct (process (server w)) as [q|]; [now exists q | contradiction].
Qed.

(** X16. Whatever the calls and the events, every promise of the instance
    is pending, resolved with [null], rejected with an [Error] whose code is
    -1, -2 or -3, or rejected with the [TypeError] that [spawn] throws for
    the [bin] and the flags of the config: no promise is settled with
    anything else, and the [TypeError] of a [null] handle in the body of
    [close] never happens. When [spawn] accepts the config, a rejection is
    one of the three errors. *)
Theorem promises_settle_as_classified (configOrPort : value)
    (acts : list action) (w : World) (i : nat) (s : settlement) :
  run acts (Mongod.constructor configOrPort) = Some w ->
  promises w !! i = Some s ->
  let c := config (server (Mongod.constructor configOrPort)) in
  classified c s
  /\ (accepts c = true ->
      forall e, s = Rejected e ->
        exists msg code, e = VError "Error" msg (VNum code)
                         /\ (code = -1 \/ code = -2 \/ code = -3)%Z).
Proof.
  intros E P c. destruct (sound_constructor configOrPort) as [H Hh].
  destruct (sound_run acts _ _ H Hh E) as [[_ _ _ H3 _ _] _].
  rewrite Forall_lookup in H3. pose proof (H3 _ _ P) as K.
  split; [exact K|]. intros A e ->. cbn [classified] in K.
  destruct K as [K|K]; [exact K|].
  unfold accepts in A. fold c in K. rewrite K in A. discriminate A.
Qed.

(** X17. Whatever the calls and the events: when [spawn] accepts the [bin]
    and the flags of the config, a process is spawned each time 'opening'
    is emitted and at no other time; when it does not, no process is ever
    spawned. And [kill] is called each time 'closing' is emitted and at no
    other time. *)
Theorem spawn_with_opening_and_kill_with_closing (configOrPort : value)
    (acts : list action) (w : World) :
  run acts (Mongod.constructor configOrPort) = Some w ->
  spawned (log w)
  = (if accepts (config (server (Mongod.constructor configOrPort)))
     then emitted "opening" (log w) else 0%nat)
  /\ killed (log w) = emitted "closing" (log w).
Proof.
  intros E. destruct (sound_constructor configOrPort) as [H Hh].
  destruct (sound_run acts _ _ H Hh E) as [[_ _ _ _ H4 H5] _]. now split.
Qed.

End Soundness.

(** ** The raw output *)

Section Propagation.

Lemma emits_log (name : string) : forall lines w,
  log (fold_left (fun w line => emit name [VStr line] w) lines w)
  = log w ++ map (fun l => Emit name [VStr l]) lines.
Proof.
  induction lines as [|l ls IH]; intros w; cbn [fold_left map].
  - now rewrite List.app_nil_r.
  - rewrite IH. cbn. now rewrite <- List.app_assoc.
Qed.

Lemma emits_procs (name : string) : forall lines w,
  procs (fold_left (fun w line => emit name [VStr line] w) lines w) = procs w
  /\ uncaught (fold_left (fun w line => emit name [VStr line] w) lines w)
     = uncaught w.
Proof.
  induction lines as [|l ls IH]; intros w; cbn [fold_left]; [now split|].
  destruct (IH (emit name [VStr l] w)) as [-> ->]. now split.
Qed.

(** One chunk on a stream of a process whose [dataHandler] is detached. *)
Lemma detached_chunk (p : nat) (st : stream) (chunk : string) (w : World)
    (pr : Proc) :
  procs w !! p = Some pr -> attached pr = false -> closed pr = false ->
  uncaught w = false ->
  exists w',
    onData p st chunk w = Some w'
    /\ log w' = log w
                ++ map (fun l => Emit (streamName st) [VStr l])
                     (snd (Aggregator.getTextLineAggregator
                             (streamBuffer st pr) chunk))
    /\ procs w' !! p
       = Some (withStreamBuffer st
                 (fst (Aggregator.getTextLineAggregator
                         (streamBuffer st pr) chunk)) pr)
    /\ uncaught w' = false /\ server w' = server w
    /\ promises w' = promises w.
Proof.
  intros Hp Ha Hc Hu. unfold onData. rewrite Hp, Hc, Ha, Hu.
  eexists. split; [reflexivity|].
  rewrite propagator_server, propagator_promises.
  unfold Mongod.dataPropagator. rewrite Hp.
  destruct (Aggregator.getTextLineAggregator (streamBuffer st pr) chunk)
    as [b ls]. cbn [fst snd].
  destruct (emits_procs (streamName st) ls
              (setProc p (withStreamBuffer st b) w)) as [-> ->].
  rewrite emits_log.
  destruct (setProc_fields p (withStreamBuffer st b) w)
    as (_ & _ & -> & -> & _).
  rewrite (setProc_lookup p _ w pr Hp). auto.
Qed.

(** X19. Once [dataHandler] is detached, the chunks of one stream of the
    process reach the listeners of the instance as events of the name of
    the stream, one for each text that the aggregator of that stream hands
    over, in order; nothing else is logged, and neither the instance nor a
    promise changes. *)
Theorem detached_stream_is_passed_on (p : nat) (st : stream) :
  forall (chunks : list string) (w : World) (pr : Proc),
    procs w !! p = Some pr -> attached pr = false -> closed pr = false ->
    uncaught w = false ->
    exists w',
      run (deliveries p (map (pair st) chunks)) w = Some w'
      /\ log w' = log w
                  ++ map (fun l => Emit (streamName st) [VStr l])
                       (Aggregator.feed (streamBuffer st pr) chunks)
      /\ server w' = server w /\ promises w' = promises w.
Proof.
  induction chunks as [|c rest IH]; intros w pr Hp Ha Hc Hu.
  - exists w. cbn. now rewrite List.app_nil_r.
  - destruct (detached_chunk p st c w pr Hp Ha Hc Hu)
      as (w1 & E1 & L1 & P1 & U1 & S1 & Q1).
    destruct (IH w1 _ P1) as (w' & E & L & S & Q);
      [now destruct st | now destruct st | exact U1|].
    exists w'. split; [|split; [|split; congruence]].
    + cbn [map deliveries run fst snd]. unfold exec. rewrite Hu, E1. exact E.
    + rewrite L, L1. cbn [Aggregator.feed].
      destruct (Aggregator.getTextLineAggregator (streamBuffer st pr) c)
        as [b ls]. cbn [fst snd].
      rewrite map_app, <- List.app_assoc. repeat f_equal. now destruct st.
Qed.

End Propagation.

(** ** Attempts on an instance at rest *)

Section Rest.

Lemma settle_middle (i : nat) (s : settlement) (w : World)
    (ps rest : list settlement) :
  promises w = ps ++ Pending :: rest -> i = length ps ->
  settle i s w = record (Settle i) (setPromises (ps ++ s :: rest) w).
Proof.
  intros E ->. unfold settle. rewrite E.
  rewrite list_lookup_middle by reflexivity.
  rewrite insert_app_r_alt by lia. rewrite Nat.sub_diag. reflexivity.
Qed.

Lemma lookup_last1 {A : Type} (l : list A) (a : A) :
  (l ++ [a]) !! length l = Some a.
Proof. now apply list_lookup_middle. Qed.

Lemma lookup_last2 {A : Type} (l : list A) (a b : A) :
  ((l ++ [a]) ++ [b]) !! S (length l) = Some b.
Proof. apply list_lookup_middle. rewrite length_app. simpl. lia. Qed.

Lemma lookup_second {A : Type} (l : list A) (a b : A) :
  (l ++ [a; b]) !! S (length l) = Some b.
Proof.
  rewrite lookup_app_r by lia.
  now replace (S (length l) - length l)%nat with 1%nat by lia.
Qed.

Ltac symbolic :=
  cbn [run exec dequeue settled onClose Mongod.open Mongod.close
       PromiseQueue.add PromiseQueue.canStart PromiseQueue.maxPendingPromises
       PromiseQueue.release newPromise setServer record setPromises setProcs
       setQueue withOpening withClosing withClosePromise
       withOpenPromise withRunning withProcess withPid withPort
       server promises queue pendingPromises reactions procs uncaught log
       config pid port process openPromise closePromise
       isClosing isOpening isRunning fst snd body outer
       Mongod.closeBody Mongod.openBody Mongod.closeListener
       orb negb andb Nat.ltb Nat.leb app].

Ltac normal :=
  cbv [setServer record setPromises setProcs setQueue withOpening withClosing
       withClosePromise withOpenPromise withRunning withProcess withPid
       withPort server promises queue pendingPromises reactions procs
       uncaught log config pid port process openPromise closePromise
       isClosing isOpening isRunning].

(** One action at a time: the world it yields is written out before the
    next action runs. *)
Ltac step :=
  lazymatch goal with
  | |- context [exec ?a ?w] =>
      let E := fresh "E" in
      eassert (E : exec a w = Some _);
      [ | rewrite E; clear E; cbv beta iota ]
  end.

Ltac release_with ps s :=
  rewrite ?length_app; cbn [length]; rewrite ?Nat.add_1_r;
  symbolic; unfold settled, isSettled; normal;
  cbn [find fst Nat.eqb]; rewrite Nat.eqb_refl, lookup_last2;
  unfold PromiseQueue.release; normal; rewrite lookup_last2;
  cbn [List.filter fst negb Nat.eqb]; rewrite Nat.eqb_refl; cbn [negb];
  rewrite (settle_middle _ _ _ ps [s])
    by (try reflexivity; cbn; now rewrite <- List.app_assoc);
  normal; reflexivity.

Ltac release_step ps := release_with ps (Resolved VNull).

Ltac observe :=
  unfold atRest;
  cbn [log server closePromise openPromise promises isRunning process procs
       queue pendingPromises reactions isOpening isClosing uncaught outer
       pid port Nat.sub];
  rewrite <- ?List.app_assoc.

(** X20. [close()] on an instance at rest that is not running: once the
    queue has run the body, the promise is resolved with [null]; 'closing'
    is not emitted, nothing is killed, and the instance is at rest as
    before. *)
Theorem close_of_a_stopped_instance (w : World) :
  atRest w -> isRunning (server w) = false ->
  exists w',
    run [CallClose; Dequeue; Settled (S (length (promises w)))] w = Some w'
    /\ log w'
       = log w
         ++ [Enqueue {| body := CloseBody; outer := length (promises w) |};
             BodyStart {| body := CloseBody; outer := length (promises w) |}
               (S (length (promises w)));
             Settle (S (length (promises w)));
             Settle (length (promises w))]
    /\ closePromise (server w') = length (promises w)
    /\ promises w' !! length (promises w) = Some (Resolved VNull)
    /\ isRunning (server w') = false
    /\ process (server w') = process (server w)
    /\ procs w' = procs w
    /\ atRest w'.
Proof.
  intros (Hq & Hn & Hr & Ho & Hc & Hu) Hrun.
  destruct w as [[cfg pd pt pc op cp ic ir io] ps q n rs prs u l].
  cbn in Hq, Hn, Hr, Ho, Hc, Hu, Hrun. subst.
  cbn [promises server log process procs].
  eexists. split.
  - cbn [run].
    step. { symbolic. normal. reflexivity. }
    step. { symbolic.
            rewrite (settle_middle _ _ _ (ps ++ [Pending]) []) by reflexivity.
            normal. reflexivity. }
    step. { release_step ps. }
    reflexivity.
  - observe. rewrite list_lookup_middle by reflexivity. repeat split.
Qed.

(** X21. [open()] on an instance at rest that is running: once the queue
    has run the body, the promise is resolved with [null]; 'opening' is
    not emitted, no second process is spawned, and the instance is running
    and at rest as before. *)
Theorem open_of_a_running_instance (w : World) :
  atRest w -> isRunning (server w) = true ->
  exists w',
    run [CallOpen; Dequeue; Settled (S (length (promises w)))] w = Some w'
    /\ log w'
       = log w
         ++ [Enqueue {| body := OpenBody; outer := length (promises w) |};
             BodyStart {| body := OpenBody; outer := length (promises w) |}
               (S (length (promises w)));
             Settle (S (length (promises w)));
             Settle (length (promises w))]
    /\ openPromise (server w') = length (promises w)
    /\ promises w' !! length (promises w) = Some (Resolved VNull)
    /\ isRunning (server w') = true
    /\ process (server w') = process (server w)
    /\ procs w' = procs w
    /\ atRest w'.
Proof.
  intros (Hq & Hn & Hr & Ho & Hc & Hu) Hrun.
  destruct w as [[cfg pd pt pc op cp ic ir io] ps q n rs prs u l].
  cbn in Hq, Hn, Hr, Ho, Hc, Hu, Hrun. subst.
  cbn [promises server log process procs].
  eexists. split.
  - cbn [run].
    step. { symbolic. normal. reflexivity. }
    step. { symbolic.
            rewrite (settle_middle _ _ _ (ps ++ [Pending]) []) by reflexivity.
            normal. reflexivity. }
    step. { release_step ps. }
    reflexivity.
  - observe. rewrite list_lookup_middle by reflexivity. repeat split.
Qed.

(** X22. [close()] on a running instance at rest: the body emits 'closing'
    and kills the process, and the promise stays pending; it is resolved
    with [null] once 'close' of the process has been handled, which emits
    'close' and clears the handle, [pid], [port] and [isRunning]. The
    instance is then at rest, and the process is closed. *)
Theorem close_of_a_running_instance (w : World) (p : nat) (pr : Proc) :
  atRest w -> isRunning (server w) = true ->
  process (server w) = Some p ->
  procs w !! p = Some pr -> closed pr = false -> onceClose pr = [] ->
  exists w1 w',
    run [CallClose; Dequeue] w = Some w1
    /\ promises w1 !! length (promises w) = Some Pending
    /\ isClosing (server w1) = true
    /\ run [ProcClose p; Settled (S (length (promises w)))] w1 = Some w'
    /\ log w'
       = log w
         ++ [Enqueue {| body := CloseBody; outer := length (promises w) |};
             BodyStart {| body := CloseBody; outer := length (promises w) |}
               (S (length (promises w)));
             Emit "closing" []; Kill p; Emit "close" [];
             Settle (S (length (promises w)));
             Settle (length (promises w))]
    /\ closePromise (server w') = length (promises w)
    /\ promises w' !! length (promises w) = Some (Resolved VNull)
    /\ isRunning (server w') = false
    /\ process (server w') = None
    /\ pid (server w') = VNull /\ port (server w') = VNull
    /\ procs w' !! p = Some (withClosed true pr)
    /\ atRest w'.
Proof.
  intros (Hq & Hn & Hr & Ho & Hc & Hu) Hrun Hpc Hp Hcl Hon.
  destruct w as [[cfg pd pt pc op cp ic ir io] ps q n rs prs u l].
  destruct pr as [at_ bf ob eb st oc cl].
  cbn in Hq, Hn, Hr, Ho, Hc, Hu, Hrun, Hpc, Hp, Hcl, Hon. subst.
  cbn [promises server log process procs].
  assert (Hlt : (p < length prs)%nat) by now apply lookup_lt_Some in Hp.
  eexists. eexists. split; [|split; [|split; [|split]]].
  - cbn [run].
    step. { symbolic. normal. reflexivity. }
    step. { symbolic. unfold emit, setProc. normal. rewrite Hp.
            normal. reflexivity. }
    reflexivity.
  - observe. now apply list_lookup_middle.
  - reflexivity.
  - cbn [run].
    step. { unfold exec, onClose. normal.
            rewrite list_lookup_insert_eq by exact Hlt.
            cbn [closed withOnceClose onceClose fold_left app].
            unfold Mongod.closeListener, emit. normal.
            rewrite (settle_middle _ _ _ (ps ++ [Pending]) [])
              by (try reflexivity; rewrite length_app; simpl; lia).
            unfold setProc. normal.
            rewrite list_lookup_insert_eq by exact Hlt.
            normal. reflexivity. }
    step. { release_step ps. }
    reflexivity.
  - observe. rewrite list_lookup_middle by reflexivity.
    rewrite list_insert_insert_eq.
    rewrite list_lookup_insert_eq by exact Hlt.
    repeat split.
Qed.

(** X23. [open()] on an instance at rest that is not running, when [spawn]
    accepts the [bin] and the flags of the config: once the queue starts
    the body, 'opening' is emitted and a new process is spawned with them;
    the instance holds its handle, [dataHandler] listens with an empty
    buffer, and the promise is pending until the output of the process
    settles it. *)
Theorem open_of_a_stopped_instance (w : World) :
  atRest w -> isRunning (server w) = false ->
  accepts (config (server w)) = true ->
  exists w',
    run [CallOpen; Dequeue] w = Some w'
    /\ log w'
       = log w
         ++ [Enqueue {| body := OpenBody; outer := length (promises w) |};
             BodyStart {| body := OpenBody; outer := length (promises w) |}
               (S (length (promises w)));
             Emit "opening" [];
             Spawn (length (procs w)) (get (config (server w)) "bin")
               (Mongod.parseFlags (config (server w)))]
    /\ openPromise (server w') = length (promises w)
    /\ promises w' !! length (promises w) = Some Pending
    /\ promises w' !! S (length (promises w)) = Some Pending
    /\ isOpening (server w') = true
    /\ process (server w') = Some (length (procs w))
    /\ procs w'
       = procs w
         ++ [ {| attached := true; buffer := ""; outBuffer := "";
                 errBuffer := ""; settles := S (length (promises w));
                 onceClose := []; closed := false |} ].
Proof.
  intros (Hq & Hn & Hr & Ho & Hc & Hu) Hrun Hacc.
  destruct w as [[cfg pd pt pc op cp ic ir io] ps q n rs prs u l].
  cbn in Hq, Hn, Hr, Ho, Hc, Hu, Hrun, Hacc. subst.
  cbn [promises server log process procs config].
  unfold accepts in Hacc.
  destruct (ChildProcess.refusal (get cfg "bin") (Mongod.parseFlags cfg))
    as [err|] eqn:R; [discriminate Hacc|].
  eexists. split.
  - cbn [run].
    step. { symbolic. normal. reflexivity. }
    step. { symbolic. unfold emit. normal. rewrite R.
            rewrite !length_app. cbn [length]. rewrite !Nat.add_1_r.
            reflexivity. }
    reflexivity.
  - observe. cbn [config app]. rewrite lookup_second.
    rewrite list_lookup_middle by reflexivity. repeat split.
Qed.

(** X28. [open()] on an instance at rest that is not running, when [spawn]
    refuses the [bin] or the flags of the config: once the queue starts the
    body, 'opening' is emitted and nothing is spawned; the promise of the
    body, and then the promise that [open()] handed back, is rejected with
    what [spawn] threw. The handle and the processes are as before, and
    [isOpening] stays on: every later [open()] gets the same rejected
    promise and queues nothing, until [close()] is called. *)
Theorem open_with_a_refused_bin (w : World) (err : value) :
  atRest w -> isRunning (server w) = false ->
  ChildProcess.refusal (get (config (server w)) "bin")
    (Mongod.parseFlags (config (server w))) = Some err ->
  exists w1 w2,
    run [CallOpen; Dequeue] w = Some w1
    /\ log w1
       = log w
         ++ [Enqueue {| body := OpenBody; outer := length (promises w) |};
             BodyStart {| body := OpenBody; outer := length (promises w) |}
               (S (length (promises w)));
             Emit "opening" []; Settle (S (length (promises w)))]
    /\ promises w1 !! S (length (promises w)) = Some (Rejected err)
    /\ run [Settled (S (length (promises w)))] w1 = Some w2
    /\ promises w2 !! length (promises w) = Some (Rejected err)
    /\ process (server w2) = process (server w)
    /\ procs w2 = procs w
    /\ spawned (log w2) = spawned (log w)
    /\ isOpening (server w2) = true
    /\ queue w2 = [] /\ pendingPromises w2 = 0%nat
    /\ Mongod.open w2 = (w2, length (promises w)).
Proof.
  intros (Hq & Hn & Hr & Ho & Hc & Hu) Hrun R.
  destruct w as [[cfg pd pt pc op cp ic ir io] ps q n rs prs u l].
  cbn in Hq, Hn, Hr, Ho, Hc, Hu, Hrun, R. subst.
  cbn [promises server log process procs config].
  eexists. eexists. split; [|split; [|split; [|split]]].
  - cbn [run].
    step. { symbolic. normal. reflexivity. }
    step. { symbolic. unfold emit. normal. rewrite R.
            rewrite !length_app. cbn [length]. rewrite !Nat.add_1_r.
            rewrite (settle_middle _ _ _ (ps ++ [Pending]) [])
              by (try reflexivity; rewrite length_app; simpl; lia).
            normal. reflexivity. }
    reflexivity.
  - observe. reflexivity.
  - observe. cbn [app]. apply lookup_second.
  - cbn [run].
    step. { release_with ps (Rejected err). }
    reflexivity.
  - observe. cbn [config app]. unfold Mongod.open. normal.
    rewrite !spawned_app. cbn [spawned List.filter length].
    rewrite list_lookup_middle by reflexivity.
    repeat split; lia.
Qed.

(** X26. A running instance at rest, whose [bin] and flags [spawn]
    accepts, can be restarted: after [close()],
    the end of the process and the settlement of the promise, an [open()]
    spawns a new process under the next handle; the old process stays
    closed, the promise of [close] is resolved and that of [open] is
    pending. *)
Theorem restart_spawns_a_new_process (w : World) (p : nat) (pr : Proc) :
  atRest w -> isRunning (server w) = true ->
  process (server w) = Some p ->
  procs w !! p = Some pr -> closed pr = false -> onceClose pr = [] ->
  accepts (config (server w)) = true ->
  exists w',
    run [CallClose; Dequeue; ProcClose p; Settled (S (length (promises w)));
         CallOpen; Dequeue] w = Some w'
    /\ process (server w') = Some (length (procs w))
    /\ isOpening (server w') = true
    /\ isRunning (server w') = false
    /\ spawned (log w') = S (spawned (log w))
    /\ killed (log w') = S (killed (log w))
    /\ promises w' !! length (promises w) = Some (Resolved VNull)
    /\ promises w' !! (2 + length (promises w))%nat = Some Pending
    /\ procs w' !! p = Some (withClosed true pr)
    /\ procs w' !! length (procs w)
       = Some {| attached := true; buffer := ""; outBuffer := "";
                 errBuffer := ""; settles := 3 + length (promises w);
                 onceClose := []; closed := false |}.
Proof.
  intros (Hq & Hn & Hr & Ho & Hc & Hu) Hrun Hpc Hp Hcl Hon Hacc.
  destruct w as [[cfg pd pt pc op cp ic ir io] ps q n rs prs u l].
  destruct pr as [at_ bf ob eb st oc cl].
  cbn in Hq, Hn, Hr, Ho, Hc, Hu, Hrun, Hpc, Hp, Hcl, Hon, Hacc. subst.
  cbn [promises server log process procs].
  unfold accepts in Hacc.
  destruct (ChildProcess.refusal (get cfg "bin") (Mongod.parseFlags cfg))
    as [err|] eqn:R; [discriminate Hacc|].
  assert (Hlt : (p < length prs)%nat) by now apply lookup_lt_Some in Hp.
  eexists. split.
  - cbn [run].
    step. { symbolic. normal. reflexivity. }
    step. { symbolic. unfold emit, setProc. normal. rewrite Hp.
            normal. reflexivity. }
    step. { unfold exec, onClose. normal.
            rewrite list_lookup_insert_eq by exact Hlt.
            cbn [closed withOnceClose onceClose fold_left app].
            unfold Mongod.closeListener, emit. normal.
            rewrite (settle_middle _ _ _ (ps ++ [Pending]) [])
              by (try reflexivity; rewrite length_app; simpl; lia).
            unfold setProc. normal.
            rewrite list_lookup_insert_eq by exact Hlt.
            normal. reflexivity. }
    step. { release_step ps. }
    step. { symbolic. normal. reflexivity. }
    step. { symbolic. unfold emit. normal. rewrite R. reflexivity. }
    reflexivity.
  - observe. cbn [app].
    rewrite !length_app, !length_insert. cbn [length].
    rewrite list_insert_insert_eq.
    replace (ps ++ [Resolved VNull; Resolved VNull; Pending; Pending])
      with ((ps ++ [Resolved VNull; Resolved VNull]) ++ [Pending; Pending])
      by now rewrite <- List.app_assoc.
    rewrite (lookup_app_l _ _ (length ps))
      by (rewrite length_app; simpl; lia).
    rewrite list_lookup_middle by reflexivity.
    rewrite (list_lookup_middle (ps ++ [Resolved VNull; Resolved VNull]))
      by (rewrite length_app; simpl; lia).
    rewrite lookup_app_l by (now rewrite length_insert).
    rewrite list_lookup_insert_eq by exact Hlt.
    rewrite list_lookup_middle by (now rewrite length_insert).
    rewrite !spawned_app, !killed_app.
    repeat split; try reflexivity.
    + cbn. lia.
    + cbn. lia.
    + do 2 f_equal. lia.
Qed.

End Rest.

(** ** The bookkeeping of the promises *)

Section Bookkeeping.

Lemma alloc_snoc (l : list event) (e : event) :
  alloc (l ++ [e]) = alloc l ++ allocOf e.
Proof. unfold alloc. rewrite flat_map_app. cbn. now rewrite List.app_nil_r. Qed.

Lemma alloc_quiet (l : list event) (e : event) :
  quietEvent e = true -> alloc (l ++ [e]) = alloc l.
Proof.
  intros H. rewrite alloc_snoc.
  destruct e; try discriminate H; cbn; now rewrite List.app_nil_r.
Qed.

Lemma same_role (L : list (nat * (role * generator))) (id : nat)
    (r1 r2 : role * generator) :
  List.NoDup (map fst L) -> In (id, r1) L -> In (id, r2) L -> r1 = r2.
Proof.
  induction L as [|[k r] L IH]; intros Hn H1 H2; [contradiction|].
  cbn in Hn. apply List.NoDup_cons_iff in Hn as [Hk Hn].
  destruct H1 as [E1|H1], H2 as [E2|H2].
  - congruence.
  - injection E1 as -> ->. exfalso. apply Hk.
    apply (in_map fst) in H2. exact H2.
  - injection E2 as -> ->. exfalso. apply Hk.
    apply (in_map fst) in H1. exact H1.
  - now apply IH.
Qed.

Lemma NoDup_snoc {A : Type} (l : list A) (a : A) :
  List.NoDup l -> ~ In a l -> List.NoDup (l ++ [a]).
Proof.
  induction l as [|x l IH]; intros Hn Ha; cbn.
  - constructor; [intros []|constructor].
  - apply List.NoDup_cons_iff in Hn as [Hx Hn].
    apply List.NoDup_cons_iff. split.
    + rewrite in_app_iff. intros [H|[H|[]]]; [now apply Hx|].
      apply Ha. now left.
    + apply IH; [exact Hn|]. intros H. apply Ha. now right.
Qed.

Lemma tidy_eq (w w' : World) :
  promises w' = promises w -> procs w' = procs w ->
  reactions w' = reactions w -> queue w' = queue w ->
  alloc (log w') = alloc (log w) ->
  tidy w -> tidy w'.
Proof.
  intros E1 E2 E3 E4 E5 [F N P S R Q C L].
  split; rewrite ?E1, ?E2, ?E3, ?E4, ?E5; assumption.
Qed.

Lemma settle_other (i j : nat) (s : settlement) (w : World) :
  i <> j -> promises (settle i s w) !! j = promises w !! j.
Proof.
  intros H. unfold settle. destruct (promises w !! i) as [[| |]|]; try reflexivity.
  cbn [record setPromises promises]. now apply list_lookup_insert_ne.
Qed.

Lemma settle_pending_back (i j : nat) (s : settlement) (w : World) :
  promises (settle i s w) !! j = Some Pending ->
  promises w !! j = Some Pending.
Proof.
  destruct (decide (i = j)) as [->|H]; [|now rewrite settle_other].
  unfold settle. destruct (promises w !! j) as [[| |]|] eqn:E; auto.
  all: rewrite E; auto.
Qed.

Lemma settle_log (i : nat) (s : settlement) (w : World) :
  alloc (log (settle i s w)) = alloc (log w)
  /\ length (promises (settle i s w)) = length (promises w).
Proof.
  unfold settle. destruct (promises w !! i) as [[| |]|]; try (now split).
  cbn [record setPromises promises log].
  rewrite alloc_quiet by reflexivity. now rewrite length_insert.
Qed.

Lemma tidy_settle (i : nat) (s : settlement) (w : World) :
  tidy w ->
  (forall r e, s = Rejected e -> ~ In (i, (r, CloseBody)) (alloc (log w))) ->
  tidy (settle i s w).
Proof.
  intros [F N P S R Q C L] Hs.
  destruct (settle_log i s w) as [El En].
  destruct (settle_fields i s w) as (_ & Ep & _ & Eq & _ & Er).
  split; rewrite ?El, ?En, ?Ep, ?Eq, ?Er; try assumption.
  - intros id r e Hin. destruct (decide (i = id)) as [->|Hne].
    + destruct (settle_cases id s w) as [[_ E]|E]; [|rewrite E; eauto].
      rewrite E. intros X. injection X as ->. exact (Hs r e eq_refl Hin).
    + rewrite settle_other by exact Hne. eauto.
  - intros p pr Hp Hpend. apply (L p pr Hp).
    now apply settle_pending_back in Hpend.
Qed.

Lemma insert_proc_back (prs : list Proc) (p q : nat) (pr x y : Proc) :
  prs !! p = Some pr -> <[p := y]> prs !! q = Some x ->
  (q = p /\ x = y) \/ (q <> p /\ prs !! q = Some x).
Proof.
  intros Hp H. destruct (decide (q = p)) as [->|Hne].
  - left. rewrite list_lookup_insert_eq in H
      by (now apply lookup_lt_Some in Hp).
    injection H as <-. auto.
  - right. rewrite list_lookup_insert_ne in H by congruence. auto.
Qed.

Lemma tidy_setProc (p : nat) (f : Proc -> Proc) (w : World) :
  (forall pr, settles (f pr) = settles pr
              /\ forall j, In j (onceClose (f pr)) ->
                   In j (onceClose pr)
                   \/ In (j, (Inner, CloseBody)) (alloc (log w))) ->
  tidy w -> tidy (setProc p f w).
Proof.
  intros Hf [F N P S R Q C L]. unfold setProc.
  destruct (procs w !! p) as [pr|] eqn:E; [|now split].
  assert (B : forall q x, <[p := f pr]> (procs w) !! q = Some x ->
                exists y, procs w !! q = Some y /\ settles x = settles y
                  /\ forall j, In j (onceClose x) ->
                       In j (onceClose y)
                       \/ In (j, (Inner, CloseBody)) (alloc (log w))).
  { intros q x Hx.
    destruct (insert_proc_back _ _ _ _ _ _ E Hx) as [[-> ->]|[_ Hq]].
    - exists pr. split; [exact E|]. apply Hf.
    - exists x. split; [exact Hq|]. split; [reflexivity|]. auto. }
  split; cbn [setProcs promises procs reactions queue log]; try assumption.
  - intros q x Hx. destruct (B q x Hx) as (y & Hy & Es & Ho).
    destruct (P q y Hy) as [P1 P2]. rewrite Es. split; [exact P1|].
    intros j Hj. destruct (Ho j Hj) as [H|H]; auto.
  - intros q1 q2 x1 x2 H1 H2 Hs.
    destruct (B q1 x1 H1) as (y1 & Hy1 & Es1 & _).
    destruct (B q2 x2 H2) as (y2 & Hy2 & Es2 & _).
    apply (S q1 q2 y1 y2 Hy1 Hy2). congruence.
  - intros q x Hx Hpend. destruct (B q x Hx) as (y & Hy & Es & _).
    rewrite Es in *. now apply (L q y).
Qed.

Lemma tidy_mild (w w' : World) : mild w w' -> tidy w -> tidy w'.
Proof.
  induction 1 as [w|w1 w2 w3 _ IH1 _ IH2|f w _ _ _ _|p f w Hf|e w He
                 |p pr s w Hp Hc _|p pr j w Hp Hj _|w]; intros H.
  - exact H.
  - auto.
  - revert H. now apply tidy_eq.
  - apply tidy_setProc; [|exact H]. intros pr. destruct (Hf pr) as (E & I & _).
    split; [exact E|]. auto.
  - revert H. apply tidy_eq; try reflexivity.
    cbn [record log]. now apply alloc_quiet.
  - apply tidy_settle; [exact H|]. intros r e _ Hin.
    destruct H as [F N P S R Q C L]. destruct (P p pr Hp) as [P1 _].
    pose proof (same_role _ _ _ _ N Hin P1) as X. discriminate X.
  - apply tidy_settle; [exact H|]. intros r e X. discriminate X.
  - revert H. now apply tidy_eq.
Qed.

(** *** The listeners are mild *)

Lemma listening_eq (p inner : nat) (w w' : World) :
  procs w' = procs w -> listening p inner w -> listening p inner w'.
Proof. intros E (pr & H). exists pr. now rewrite E. Qed.

Lemma listening_setProc (p inner q : nat) (f : Proc -> Proc) (w : World) :
  (forall pr, settles (f pr) = settles pr /\ closed (f pr) = closed pr) ->
  listening p inner w -> listening p inner (setProc q f w).
Proof.
  intros Hf (pr & Hp & Hs & Hc). unfold setProc.
  destruct (procs w !! q) as [prq|] eqn:E; [|now exists pr].
  unfold listening. cbn [setProcs procs].
  destruct (decide (p = q)) as [->|Hne].
  - exists (f prq). rewrite list_lookup_insert_eq
      by (now apply lookup_lt_Some in E).
    destruct (Hf prq) as [-> ->]. split; [reflexivity|]. split; congruence.
  - exists pr. rewrite list_lookup_insert_ne by congruence. auto.
Qed.

Lemma mild_finish_step (p inner : nat) (err : value) (w : World) :
  listening p inner w ->
  mild w (fst (Mongod.finish inner err w))
  /\ listening p inner (fst (Mongod.finish inner err w)).
Proof.
  intros Hl. unfold Mongod.finish. cbn [fst].
  assert (Hl' : listening p inner (setServer (withOpening false) w))
    by (revert Hl; now apply listening_eq).
  destruct Hl' as (pr & Hp & <- & Hc).
  split.
  - apply mild_trans with (setServer (withOpening false) w);
      [apply mild_setServer; cbn; auto; discriminate|].
    destruct err; now apply (mild_finish p pr).
  - assert (K : forall s, listening p (settles pr)
                            (settle (settles pr) s
                               (setServer (withOpening false) w))).
    { intros s. apply listening_eq with (setServer (withOpening false) w);
        [apply settle_fields | now exists pr]. }
    destruct err; apply K.
Qed.

Lemma mild_removeListeners (p inner : nat) (w : World) :
  listening p inner w ->
  mild w (Mongod.removeListeners p w)
  /\ listening p inner (Mongod.removeListeners p w).
Proof.
  intros Hl. unfold Mongod.removeListeners.
  destruct (process (server w)) as [q|].
  - destruct (q =? p)%nat.
    + split; [apply mild_setProc; intros pr; cbn; auto|].
      now apply listening_setProc.
    + split; [constructor | exact Hl].
  - split; [constructor|]. revert Hl. now apply listening_eq.
Qed.

Lemma mild_forMatches (p inner : nat) : forall matches w,
  listening p inner w ->
  mild w (Mongod.forMatches p inner matches w)
  /\ listening p inner (Mongod.forMatches p inner matches w).
Proof.
  induction matches as [|m ms IH]; intros w Hl; [split; [constructor|exact Hl]|].
  cbn [Mongod.forMatches].
  destruct (matchHandler_cases inner m w)
    as [(msg & code & E)|[E|[(v & E)|[(v & E)|E]]]]; rewrite E.
  - destruct (mild_finish_step p inner (VError "Error" msg (VNum code)) w Hl)
      as [M1 L1].
    destruct (mild_removeListeners p inner _ L1) as [M2 L2].
    split; [now apply mild_trans with (2 := M2) | exact L2].
  - set (w0 := emit "open" [] (setServer (withRunning true) w)).
    assert (M0 : mild w w0).
    { apply mild_trans with (setServer (withRunning true) w);
        [apply mild_setServer; cbn; auto|].
      now apply mild_record. }
    assert (L0 : listening p inner w0) by (revert Hl; now apply listening_eq).
    destruct (mild_finish_step p inner VNull w0 L0) as [M1 L1].
    destruct (mild_removeListeners p inner _ L1) as [M2 L2].
    split; [|exact L2].
    apply mild_trans with (2 := M2). now apply mild_trans with (2 := M1).
  - destruct (IH (setServer (withPid v) w)) as [M L];
      [revert Hl; now apply listening_eq|].
    split; [|exact L]. apply mild_trans with (2 := M).
    apply mild_setServer; cbn; auto.
  - destruct (IH (setServer (withPort v) w)) as [M L];
      [revert Hl; now apply listening_eq|].
    split; [|exact L]. apply mild_trans with (2 := M).
    apply mild_setServer; cbn; auto.
  - now apply IH.
Qed.

Lemma mild_lines (p inner : nat) : forall lines w,
  listening p inner w ->
  mild w (fold_left (Mongod.lineHandler p inner) lines w).
Proof.
  induction lines as [|l ls IH]; intros w Hl; [constructor|].
  cbn [fold_left]. unfold Mongod.lineHandler at 2.
  destruct (uncaught w); [now apply IH|].
  destruct (mild_forMatches p inner (RegExp.match_keyRE l) w Hl) as [M L].
  apply mild_trans with (1 := M). now apply IH.
Qed.

Lemma mild_fold {A : Type} (f : World -> A -> World) :
  (forall w x, mild w (f w x)) -> forall l w, mild w (fold_left f l w).
Proof.
  intros Hf. induction l as [|x l IH]; intros w; [constructor|].
  cbn [fold_left]. eapply mild_trans; [apply Hf | apply IH].
Qed.

Lemma mild_onData (p : nat) (st : stream) (chunk : string) (w w' : World) :
  onData p st chunk w = Some w' -> mild w w'.
Proof.
  unfold onData. destruct (procs w !! p) as [pr|] eqn:Hp; [|discriminate].
  destruct (closed pr) eqn:Hc; [discriminate|]. intros E. injection E as <-.
  set (w1 := if attached pr then Mongod.dataHandler p chunk w else w).
  assert (M1 : mild w w1).
  { subst w1. destruct (attached pr); [|constructor].
    unfold Mongod.dataHandler. rewrite Hp.
    destruct (Aggregator.getTextLineAggregator (buffer pr) chunk) as [b ls].
    apply mild_trans with (setProc p (withBuffer b) w).
    - apply mild_setProc. intros pr0. cbn. auto.
    - apply mild_lines. apply listening_setProc; [intros pr0; cbn; auto|].
      now exists pr. }
  destruct (uncaught w1); [exact M1|].
  apply mild_trans with (1 := M1). unfold Mongod.dataPropagator.
  destruct (procs w1 !! p) as [pr1|]; [|constructor].
  destruct (Aggregator.getTextLineAggregator (streamBuffer st pr1) chunk)
    as [b ls].
  apply mild_trans with (setProc p (withStreamBuffer st b) w1).
  - apply mild_setProc. intros pr0. cbn. auto.
  - apply mild_fold. intros w0 l. now apply mild_record.
Qed.

Lemma mild_onClose (p : nat) (w w' : World) :
  onClose p w = Some w' -> mild w w'.
Proof.
  unfold onClose. destruct (procs w !! p) as [pr|] eqn:Hp; [|discriminate].
  destruct (closed pr); [discriminate|]. intros E. injection E as <-.
  eapply mild_trans; [|apply mild_setProc; intros pr0; cbn; intuition].
  apply mild_trans with (Mongod.closeListener w).
  { unfold Mongod.closeListener, emit.
    eapply mild_trans; [|now apply mild_record].
    apply mild_setServer; cbn; auto; discriminate. }
  assert (Hp0 : procs (Mongod.closeListener w) !! p = Some pr) by exact Hp.
  assert (Hc0 : isClosing (server (Mongod.closeListener w)) = false)
    by reflexivity.
  revert Hp0 Hc0. generalize (Mongod.closeListener w).
  assert (G : forall l w0, procs w0 !! p = Some pr ->
                isClosing (server w0) = false ->
                (forall j, In j l -> In j (onceClose pr)) ->
                mild w0 (fold_left (fun w i => settle i (Resolved VNull) w) l w0)).
  { induction l as [|j l IH]; intros w0 H0 C0 Hl; [constructor|].
    cbn [fold_left].
    apply mild_trans with (settle j (Resolved VNull) w0).
    - apply (mild_once p pr); [exact H0 | apply Hl; now left | exact C0].
    - destruct (settle_fields j (Resolved VNull) w0) as (Es & Ep & _).
      apply IH; [now rewrite Ep | now rewrite Es|].
      intros k Hk. apply Hl. now right. }
  intros w0 H0 C0. apply G; auto.
Qed.

(** *** The queue keeps the books *)

Lemma tidy_allocate (w : World) (e : event) (q' : list item) (n' : nat)
    (rs' : list (nat * item)) (r : role * generator) :
  allocOf e = [(length (promises w), r)] ->
  (forall i, In i q' ->
     In i (queue w) \/ (outer i, (Outer, body i)) = (length (promises w), r)) ->
  (forall inner i, In (inner, i) rs' ->
     In (inner, i) (reactions w)
     \/ ((inner, (Inner, body i)) = (length (promises w), r)
         /\ In i (queue w))) ->
  (forall x, In x (reactions w) -> In x rs') ->
  tidy w ->
  tidy (record e (setQueue q' n' rs' (fst (newPromise w)))).
Proof.
  intros He Hq Hr Hk [F N P S R Q C L].
  assert (Hfresh : ~ In (length (promises w)) (map fst (alloc (log w)))).
  { intros H. apply in_map_iff in H as ([id r0] & E & H). cbn in E. subst id.
    apply F in H. lia. }
  split; cbn [record setQueue newPromise fst setPromises promises procs
              reactions queue log]; rewrite ?alloc_snoc, ?He.
  - intros id r0 H. rewrite length_app. cbn [length].
    apply in_app_iff in H as [H|[H|[]]]; [apply F in H; lia|].
    injection H as <- _. lia.
  - rewrite map_app. cbn [map fst]. now apply NoDup_snoc.
  - intros p pr Hp. destruct (P p pr Hp) as [P1 P2].
    split; [apply in_or_app; now left|].
    intros j Hj. apply in_or_app. left. auto.
  - exact S.
  - intros inner i H. destruct (Hr inner i H) as [H'|[E H']].
    + destruct (R inner i H') as [R1 R2].
      split; apply in_or_app; now left.
    + split; apply in_or_app; [right; left; now rewrite E|left; auto].
  - intros i H. apply in_or_app. destruct (Hq i H) as [H'|E].
    + left. auto.
    + right. left. now rewrite E.
  - intros id r0 e0 H. apply in_app_iff in H as [H|[H|[]]].
    + rewrite lookup_app_l by (now apply F in H). eauto.
    + injection H as <- _. rewrite list_lookup_middle by reflexivity.
      discriminate.
  - intros p pr Hp Hpend. destruct (P p pr Hp) as [P1 _].
    apply F in P1. rewrite lookup_app_l in Hpend by exact P1.
    pose proof (L p pr Hp Hpend) as H.
    apply in_map_iff in H as (x & Ex & Hx). apply in_map_iff.
    exists x. split; [exact Ex | auto].
Qed.

Lemma tidy_add (g : generator) (w : World) :
  tidy w -> tidy (fst (PromiseQueue.add g w)).
Proof.
  intros H. unfold PromiseQueue.add.
  change (fst (let '(w0, p) := newPromise w in
               (record (Enqueue {| body := g; outer := p |})
                  (setQueue (queue w0 ++ [{| body := g; outer := p |}])
                     (pendingPromises w0) (reactions w0) w0), p)))
    with (record (Enqueue {| body := g; outer := length (promises w) |})
            (setQueue (queue w ++ [{| body := g;
                                      outer := length (promises w) |}])
               (pendingPromises w) (reactions w) (fst (newPromise w)))).
  apply (tidy_allocate w _ _ _ _ (Outer, g)); [reflexivity| | |auto|exact H].
  - intros i Hi. apply in_app_iff in Hi as [Hi|[<-|[]]]; auto.
  - intros inner i Hi. now left.
Qed.

Lemma tidy_open (w : World) : tidy w -> tidy (fst (Mongod.open w)).
Proof.
  intros H. unfold Mongod.open. destruct (isOpening (server w)); [exact H|].
  match goal with |- context [PromiseQueue.add ?g ?w0] =>
    assert (H' : tidy (fst (PromiseQueue.add g w0)));
    [ apply tidy_add; revert H; now apply tidy_eq
    | destruct (PromiseQueue.add g w0) as [w1 p] ] end.
  cbn [fst] in *. revert H'. now apply tidy_eq.
Qed.

Lemma tidy_close_call (w : World) : tidy w -> tidy (fst (Mongod.close w)).
Proof.
  intros H. unfold Mongod.close. destruct (isClosing (server w)); [exact H|].
  match goal with |- context [PromiseQueue.add ?g ?w0] =>
    assert (H' : tidy (fst (PromiseQueue.add g w0)));
    [ apply tidy_add; revert H; now apply tidy_eq
    | destruct (PromiseQueue.add g w0) as [w1 p] ] end.
  cbn [fst] in *. revert H'. now apply tidy_eq.
Qed.

Lemma tidy_openBody (inner : nat) (w : World) :
  tidy w ->
  In (inner, (Inner, OpenBody)) (alloc (log w)) ->
  In inner (map fst (reactions w)) ->
  (forall p pr, procs w !! p = Some pr -> settles pr <> inner) ->
  tidy (Mongod.openBody inner w).
Proof.
  intros H Hin Hre Hnew. unfold Mongod.openBody.
  destruct (isClosing (server w) || isRunning (server w)).
  - apply tidy_settle; [revert H; now apply tidy_eq|].
    intros r e X. discriminate X.
  - cbn [emit record server].
    destruct (ChildProcess.refusal _ _) as [err|].
  { apply tidy_settle.
    - revert H. apply tidy_eq; try reflexivity.
      cbn [emit record log]. now rewrite alloc_quiet.
    - intros r e _ Hc. cbn [emit record log] in Hc.
      rewrite alloc_quiet in Hc by reflexivity.
      destruct H as [F N P S R Q C L].
      pose proof (same_role _ _ _ _ N Hin Hc) as X. discriminate X. }
    destruct H as [F N P S R Q C L].
    split; cbn [setProcs setServer record emit promises procs reactions
                queue log];
      rewrite ?alloc_quiet by reflexivity; try assumption.
    + intros p pr Hp. apply lookup_app_Some in Hp as [Hp|[_ Hp]]; [eauto|].
      destruct (p - length (procs w))%nat; [|discriminate].
      injection Hp as <-. cbn [settles onceClose]. split; [exact Hin|].
      intros j [].
    + intros p q pr pr' Hp Hq Hs.
      apply lookup_app_Some in Hp as [Hp|[Lp Hp]];
        apply lookup_app_Some in Hq as [Hq|[Lq Hq]].
      * eauto.
      * destruct (q - length (procs w))%nat; [|discriminate].
        injection Hq as <-. cbn [settles] in Hs.
        now destruct (Hnew p pr Hp).
      * destruct (p - length (procs w))%nat; [|discriminate].
        injection Hp as <-. cbn [settles] in Hs.
        now destruct (Hnew q pr' Hq).
      * cbn [emit record procs] in Lp, Lq.
        destruct (p - length (procs w))%nat eqn:Ep; [|discriminate].
        destruct (q - length (procs w))%nat eqn:Eq; [|discriminate].
        lia.
    + intros p pr Hp Hpend.
      apply lookup_app_Some in Hp as [Hp|[_ Hp]]; [eauto|].
      destruct (p - length (procs w))%nat; [|discriminate].
      injection Hp as <-. exact Hre.
Qed.

Lemma tidy_closeBody (inner : nat) (w : World) :
  held w -> uncaught w = false -> tidy w ->
  In (inner, (Inner, CloseBody)) (alloc (log w)) ->
  tidy (Mongod.closeBody inner w).
Proof.
  intros Hh Hu H Hin. unfold Mongod.closeBody.
  destruct (isOpening (server w) || negb (isRunning (server w))) eqn:C.
  - apply tidy_settle; [revert H; now apply tidy_eq|].
    intros r e X. discriminate X.
  - apply orb_false_elim in C as [_ C]. apply negb_false_iff in C.
    pose proof (Hh Hu C) as Hp. unfold emit. cbn [record server].
    destruct (process (server w)) as [q|] eqn:P; [|contradiction].
    rewrite setProc_record.
    assert (H' : tidy (setProc q
                         (fun pr => withOnceClose (onceClose pr ++ [inner]) pr)
                         w)).
    { apply tidy_setProc; [|exact H]. intros pr. cbn. split; [reflexivity|].
      intros j Hj. apply in_app_iff in Hj as [Hj|[<-|[]]]; auto. }
    revert H'. apply tidy_eq; try reflexivity.
    cbn [record log]. now rewrite !alloc_quiet.
Qed.

Lemma tidy_dequeue (w w' : World) :
  held w -> uncaught w = false -> tidy w -> dequeue w = Some w' -> tidy w'.
Proof.
  intros Hh Hu H. unfold dequeue.
  destruct (queue w) as [|i q] eqn:Q; [discriminate|].
  destruct (PromiseQueue.canStart w); [|discriminate].
  unfold newPromise.
  cbn [fst setPromises promises reactions pendingPromises].
  set (w1 := record _ _).
  assert (T1 : tidy w1).
  { subst w1.
    apply (tidy_allocate w _ _ _ _ (Inner, body i));
      [reflexivity| | | |exact H].
    - intros j Hj. left. rewrite Q. now right.
    - intros inner j Hj. apply in_app_iff in Hj as [Hj|[Hj|[]]]; [now left|].
      injection Hj as <- <-. right. split; [reflexivity|]. rewrite Q. now left.
    - intros x Hx. apply in_or_app. now left. }
  assert (A1 : In (length (promises w), (Inner, body i)) (alloc (log w1))).
  { subst w1. cbn [record log]. rewrite alloc_snoc. apply in_or_app.
    right. now left. }
  intros E. injection E as <-. destruct (body i) eqn:B.
  - apply tidy_openBody; [exact T1 | exact A1 | |].
    + subst w1. cbn [record setQueue reactions]. rewrite map_app.
      apply in_or_app. right. now left.
    + intros p pr Hp Hs. destruct H as [F N P S R Q0 C L].
      destruct (P p pr Hp) as [P1 _]. apply F in P1. lia.
  - apply tidy_closeBody; [| |exact T1|exact A1].
    + revert Hh. now apply held_eq.
    + exact Hu.
Qed.

Lemma tidy_settled (inner : nat) (w w' : World) :
  tidy w -> settled inner w = Some w' -> tidy w'.
Proof.
  intros H. unfold settled.
  destruct (find _ (reactions w)) as [[x i]|] eqn:Fd; [|discriminate].
  destruct (isSettled w inner) eqn:Hs; [|discriminate].
  intros E. injection E as <-.
  apply find_some in Fd as [Fin Fx]. cbn in Fx. apply Nat.eqb_eq in Fx.
  subst x. unfold PromiseQueue.release. cbn [setQueue promises].
  set (w1 := setQueue _ _ _ w).
  assert (T1 : tidy w1).
  { subst w1. destruct H as [F N P S R Q C L].
    split; cbn [setQueue promises procs reactions queue log]; try assumption.
    - intros j it Hj. apply filter_In in Hj as [Hj _]. auto.
    - intros p pr Hp Hpend. pose proof (L p pr Hp Hpend) as Hin.
      apply in_map_iff in Hin as ([k it] & Ek & Hin). cbn in Ek. subst k.
      apply in_map_iff. exists (settles pr, it). split; [reflexivity|].
      apply filter_In. split; [exact Hin|]. cbn.
      destruct (settles pr =? inner)%nat eqn:Eq; [|reflexivity].
      apply Nat.eqb_eq in Eq. rewrite Eq in Hpend.
      unfold isSettled in Hs. rewrite Hpend in Hs. discriminate. }
  destruct (promises w !! inner) as [s|] eqn:Ps; [|exact T1].
  apply tidy_settle; [exact T1|].
  intros r e -> Hin. destruct H as [F N P S R Q C L].
  destruct (R inner i Fin) as [R1 R2].
  pose proof (same_role _ _ _ _ N Hin R2) as X. injection X as _ X.
  rewrite <- X in R1. exact (C inner Inner e R1 Ps).
Qed.

Lemma tidy_exec (a : action) (w w' : World) :
  held w -> tidy w -> exec a w = Some w' -> tidy w'.
Proof.
  intros Hh H. unfold exec. destruct (uncaught w) eqn:Hu; [discriminate|].
  destruct a as [| | |inner|p st chunk|p]; intros E.
  - injection E as <-. now apply tidy_open.
  - injection E as <-. now apply tidy_close_call.
  - now apply (tidy_dequeue w).
  - now apply (tidy_settled inner w).
  - apply (tidy_mild w); [now apply mild_onData in E | exact H].
  - apply (tidy_mild w); [now apply mild_onClose in E | exact H].
Qed.

Lemma tidy_constructor (configOrPort : value) :
  tidy (Mongod.constructor configOrPort).
Proof.
  split; cbn; try (intros; contradiction); try (intros; discriminate);
    try constructor.
Qed.

(** Soundness, the handle and the books along a run. *)
Lemma reachable_run {c : gmap string value} (acts : list action) : forall w w',
  sound c w -> held w -> tidy w -> queueInv w -> run acts w = Some w' ->
  sound c w' /\ held w' /\ tidy w' /\ queueInv w'.
Proof.
  induction acts as [|a acts IH]; intros w w' H Hh Ht Hq E; cbn [run] in E.
  - injection E as <-. auto.
  - destruct (exec a w) as [w1|] eqn:X; [|discriminate].
    destruct (sound_exec a w w1 H Hh X) as [H1 Hh1].
    apply (IH w1 w'); auto.
    + now apply (tidy_exec a w).
    + now apply (queueInv_exec a w).
Qed.

Lemma reachable (configOrPort : value) (acts : list action) (w : World) :
  run acts (Mongod.constructor configOrPort) = Some w ->
  sound (config (server (Mongod.constructor configOrPort))) w
  /\ held w /\ tidy w /\ queueInv w.
Proof.
  destruct (sound_constructor configOrPort) as [H Hh].
  apply reachable_run; auto using tidy_constructor, queueInv_constructor.
Qed.

(** X24. Whatever the calls and the events, a promise that a call of
    [close()] put in the queue is never rejected: it is pending or
    resolved with [null]. *)
Theorem close_is_never_rejected (configOrPort : value) (acts : list action)
    (w : World) (o : nat) :
  run acts (Mongod.constructor configOrPort) = Some w ->
  In (Enqueue {| body := CloseBody; outer := o |}) (log w) ->
  promises w !! o = Some Pending \/ promises w !! o = Some (Resolved VNull).
Proof.
  intros E Hin. destruct (reachable _ _ _ E) as ([_ _ _ H3 _ _] & _ & Ht & _).
  assert (A : In (o, (Outer, CloseBody)) (alloc (log w))).
  { unfold alloc. apply in_flat_map. eexists. split; [exact Hin|]. now left. }
  destruct Ht as [F N P S R Q C L].
  pose proof (F _ _ A) as Hlt. apply lookup_lt_is_Some in Hlt as [s Hs].
  rewrite Forall_lookup in H3. pose proof (H3 _ _ Hs) as Hc.
  destruct s as [|v|e]; cbn in Hc; subst; auto.
  now destruct (C o Outer e A).
Qed.

(** *** A process that closes before its attempt is settled *)

Lemma stuck_eq (p i : nat) (w w' : World) :
  procs w' = procs w -> promises w' = promises w ->
  stuck p i w -> stuck p i w'.
Proof. intros E1 E2 (pr & H). exists pr. now rewrite E1, E2. Qed.

Lemma stuck_settle (p i j : nat) (s : settlement) (w : World) :
  j <> i -> stuck p i w -> stuck p i (settle j s w).
Proof.
  intros Hne (pr & Hp & Hs & Hc & Hi). exists pr.
  destruct (settle_fields j s w) as (_ & -> & _).
  now rewrite settle_other.
Qed.

Lemma stuck_setProc (p i q : nat) (f : Proc -> Proc) (w : World) :
  (forall pr, settles (f pr) = settles pr
              /\ (closed pr = true -> closed (f pr) = true)) ->
  stuck p i w -> stuck p i (setProc q f w).
Proof.
  intros Hf (pr & Hp & Hs & Hc & Hi). unfold setProc.
  destruct (procs w !! q) as [prq|] eqn:E; [|now exists pr].
  unfold stuck. cbn [setProcs procs promises].
  destruct (decide (p = q)) as [->|Hne].
  - exists (f prq). rewrite list_lookup_insert_eq
      by (now apply lookup_lt_Some in E).
    assert (prq = pr) as -> by congruence.
    destruct (Hf pr) as [-> Hc']. auto.
  - exists pr. rewrite list_lookup_insert_ne by congruence. auto.
Qed.

Lemma stuck_alloc (p i : nat) (w : World) :
  tidy w -> stuck p i w ->
  In (i, (Inner, OpenBody)) (alloc (log w)) /\ (i < length (promises w))%nat.
Proof.
  intros [F N P S R Q C L] (pr & Hp & <- & _).
  destruct (P p pr Hp) as [P1 _]. split; [exact P1 | now apply F in P1].
Qed.

Lemma stuck_mild (p i : nat) (w w' : World) :
  mild w w' -> tidy w -> stuck p i w -> stuck p i w'.
Proof.
  induction 1 as [w|w1 w2 w3 M1 IH1 M2 IH2|f w _ _ _ _|q f w Hf|e w He
                 |q prq s w Hq Hc _|q prq j w Hq Hj _|w]; intros Ht Hs.
  - exact Hs.
  - apply IH2; [now apply (tidy_mild w1) | now apply IH1].
  - revert Hs. now apply stuck_eq.
  - apply stuck_setProc; [|exact Hs]. intros pr. destruct (Hf pr) as (E & _ & K).
    auto.
  - revert Hs. now apply stuck_eq.
  - apply stuck_settle; [|exact Hs]. intros E.
    destruct Hs as (pr & Hp & Hi & Hcl & _). destruct Ht as [F N P S R Q C L].
    assert (q = p) by (apply (S q p prq pr Hq Hp); congruence).
    subst q. congruence.
  - apply stuck_settle; [|exact Hs]. intros ->.
    destruct (stuck_alloc p i w Ht Hs) as [A _].
    destruct Ht as [F N P S R Q C L]. destruct (P q prq Hq) as [_ P2].
    pose proof (same_role _ _ _ _ N A (P2 i Hj)) as X. discriminate X.
  - revert Hs. now apply stuck_eq.
Qed.

Lemma stuck_newPromise (p i : nat) (w : World) :
  stuck p i w -> stuck p i (fst (newPromise w)).
Proof.
  intros (pr & Hp & Hs & Hc & Hi). exists pr.
  cbn [newPromise fst setPromises procs promises].
  rewrite lookup_app_l by (now apply lookup_lt_Some in Hi). auto.
Qed.

Lemma stuck_add (p i : nat) (g : generator) (w : World) :
  stuck p i w -> stuck p i (fst (PromiseQueue.add g w)).
Proof.
  intros H. apply stuck_newPromise in H. unfold PromiseQueue.add.
  unfold newPromise in *. cbn [fst] in *. revert H. now apply stuck_eq.
Qed.

Lemma stuck_exec (p i : nat) (a : action) (w w' : World) :
  tidy w -> stuck p i w -> exec a w = Some w' -> stuck p i w'.
Proof.
  intros Ht Hs. unfold exec. destruct (uncaught w); [discriminate|].
  destruct (stuck_alloc p i w Ht Hs) as [A Hlt].
  destruct a as [| | |inner|q st chunk|q]; intros E.
  - injection E as <-. unfold Mongod.open.
    destruct (isOpening (server w)); [exact Hs|].
    match goal with |- context [PromiseQueue.add ?g ?w0] =>
      assert (H' : stuck p i (fst (PromiseQueue.add g w0)));
      [ apply stuck_add; revert Hs; now apply stuck_eq
      | destruct (PromiseQueue.add g w0) as [w1 o] ] end.
    cbn [fst] in *. revert H'. now apply stuck_eq.
  - injection E as <-. unfold Mongod.close.
    destruct (isClosing (server w)); [exact Hs|].
    match goal with |- context [PromiseQueue.add ?g ?w0] =>
      assert (H' : stuck p i (fst (PromiseQueue.add g w0)));
      [ apply stuck_add; revert Hs; now apply stuck_eq
      | destruct (PromiseQueue.add g w0) as [w1 o] ] end.
    cbn [fst] in *. revert H'. now apply stuck_eq.
  - unfold dequeue in E. destruct (queue w) as [|it q]; [discriminate|].
    destruct (PromiseQueue.canStart w); [|discriminate].
    pose proof (stuck_newPromise p i w Hs) as H1. unfold newPromise in *.
    cbn [fst setPromises promises reactions pendingPromises] in *.
    set (w1 := record _ _) in E.
    assert (S1 : stuck p i w1) by (subst w1; revert H1; now apply stuck_eq).
    assert (Hne : length (promises w) <> i) by lia.
    injection E as <-. destruct (body it).
    + unfold Mongod.openBody.
      destruct (isClosing (server w1) || isRunning (server w1)).
      * apply stuck_settle; [exact Hne|]. revert S1. now apply stuck_eq.
      * cbn [emit record server].
        destruct (ChildProcess.refusal _ _) as [err|].
        -- apply stuck_settle; [exact Hne|]. revert S1. now apply stuck_eq.
        -- destruct S1 as (pr & Hp & Hi & Hc & Hpe). exists pr.
           cbn [setProcs setServer record emit procs promises].
           rewrite lookup_app_l by (now apply lookup_lt_Some in Hp). auto.
    + unfold Mongod.closeBody.
      destruct (isOpening (server w1) || negb (isRunning (server w1))).
      * apply stuck_settle; [exact Hne|]. revert S1. now apply stuck_eq.
      * unfold emit. cbn [record server].
        destruct (process (server w1)) as [k|].
        -- rewrite setProc_record.
           apply stuck_eq with (setProc k
             (fun pr => withOnceClose (onceClose pr ++ [length (promises w)]) pr)
             w1); [reflexivity | reflexivity |].
           apply stuck_setProc; [intros pr; cbn; auto | exact S1].
        -- apply stuck_settle; [exact Hne|]. revert S1. now apply stuck_eq.
  - unfold settled in E.
    destruct (find _ (reactions w)) as [[x it]|] eqn:Fd; [|discriminate].
    destruct (isSettled w inner); [|discriminate].
    injection E as <-.
    apply find_some in Fd as [Fin _].
    unfold PromiseQueue.release. cbn [setQueue promises].
    set (w1 := setQueue _ _ _ w).
    assert (S1 : stuck p i w1) by (subst w1; revert Hs; now apply stuck_eq).
    destruct (promises w !! inner) as [s|]; [|exact S1].
    apply stuck_settle; [|exact S1]. intros Eo.
    destruct Ht as [F N P S R Q C L]. destruct (R x it Fin) as [_ R2].
    rewrite Eo in R2. pose proof (same_role _ _ _ _ N A R2) as X.
    discriminate X.
  - apply (stuck_mild p i w); [now apply mild_onData in E | exact Ht | exact Hs].
  - apply (stuck_mild p i w); [now apply mild_onClose in E | exact Ht | exact Hs].
Qed.

Lemma stuck_run {c : gmap string value} (p i : nat) (acts : list action) :
  forall w w',
  sound c w -> held w -> tidy w -> queueInv w -> stuck p i w ->
  run acts w = Some w' ->
  stuck p i w' /\ tidy w' /\ queueInv w'.
Proof.
  induction acts as [|a acts IH]; intros w w' H Hh Ht Hq Hs E; cbn [run] in E.
  - injection E as <-. auto.
  - destruct (exec a w) as [w1|] eqn:X; [|discriminate].
    destruct (sound_exec a w w1 H Hh X) as [H1 Hh1].
    apply (IH w1 w'); auto.
    + now apply (tidy_exec a w).
    + now apply (queueInv_exec a w).
    + now apply (stuck_exec p i a w).
Qed.

(** X25. A process that closes while the promise of its open attempt is
    pending leaves it pending for ever: whatever is called and whatever
    happens afterwards, nothing resolves or rejects the attempt, and the
    queue never starts another body, so that every later [open()] and
    [close()] waits behind it. *)
Theorem closed_process_leaves_the_attempt_pending (configOrPort : value)
    (acts later : list action) (w w' : World) (p : nat) (pr : Proc) :
  run acts (Mongod.constructor configOrPort) = Some w ->
  procs w !! p = Some pr -> closed pr = true ->
  promises w !! settles pr = Some Pending ->
  run later w = Some w' ->
  promises w' !! settles pr = Some Pending
  /\ exec Dequeue w' = None
  /\ exec (Settled (settles pr)) w' = None.
Proof.
  intros E Hp Hc Hpe El.
  destruct (reachable _ _ _ E) as (H & Hh & Ht & Hq).
  assert (Hs : stuck p (settles pr) w) by (exists pr; auto).
  destruct (stuck_run p (settles pr) later w w' H Hh Ht Hq Hs El)
    as ((pr' & Hp' & Es & Hc' & Hpe') & Ht' & Hq').
  split; [exact Hpe'|]. split.
  - unfold exec. destruct (uncaught w'); [reflexivity|].
    unfold dequeue. destruct (queue w'); [reflexivity|].
    unfold PromiseQueue.canStart, PromiseQueue.maxPendingPromises.
    destruct Ht' as [F N P S R Q C L].
    rewrite <- Es in Hpe'. pose proof (L p pr' Hp' Hpe') as Hin.
    destruct (inv_count w' Hq') as [-> _].
    destruct (reactions w'); [contradiction|]. reflexivity.
  - unfold exec. destruct (uncaught w'); [reflexivity|].
    unfold settled. destruct (find _ (reactions w')) as [[x it]|]; [|reflexivity].
    unfold isSettled. now rewrite Hpe'.
Qed.

End Bookkeeping.

(** ** The promises that [open] and [close] hand back *)

Section Handed.

Lemma waiting_item (g : generator) (o : nat) (w : World) :
  waiting g o w -> In {| body := g; outer := o |} (items w).
Proof.
  unfold items. intros [H|(inner & H & _)]; apply in_or_app; [now right|].
  left. apply in_map_iff. now exists (inner, {| body := g; outer := o |}).
Qed.

Lemma handed_same {ok : bool} (w w' : World) :
  (isOpening (server w') = true -> isOpening (server w) = true) ->
  (isClosing (server w') = true -> isClosing (server w) = true) ->
  openPromise (server w') = openPromise (server w) ->
  closePromise (server w') = closePromise (server w) ->
  queue w' = queue w -> reactions w' = reactions w ->
  promises w' = promises w ->
  handed ok w -> handed ok w'.
Proof.
  intros Ho Hc Eo Ec Eq Er Ep [H1 H2 H3 H4].
  split; unfold waiting, items in *; rewrite ?Eo, ?Ec, ?Eq, ?Er, ?Ep; auto.
Qed.

Lemma handed_settle {ok : bool} (i : nat) (s : settlement) (w : World) :
  handed ok w ->
  (forall it, In it (items w) -> outer it <> i) ->
  (ok = true -> isOpening (server w) = true ->
   forall inner,
     In (inner, {| body := OpenBody; outer := openPromise (server w) |})
        (reactions w) -> inner <> i) ->
  (isClosing (server w) = true ->
   forall inner,
     In (inner, {| body := CloseBody; outer := closePromise (server w) |})
        (reactions w) -> inner <> i) ->
  handed ok (settle i s w).
Proof.
  intros [H1 H2 H3 H4] Ho Hi1 Hi2.
  destruct (settle_fields i s w) as (Es & _ & _ & Eq & _ & Er).
  split; unfold waiting, items in *; rewrite ?Es, ?Eq, ?Er.
  - intros K C. destruct (H1 K C) as [H|(inner & H & P)]; [now left|].
    right. exists inner. split; [exact H|].
    rewrite settle_other; [exact P|]. intros E. now apply (Hi1 K C inner).
  - intros C. destruct (H2 C) as [H|(inner & H & P)]; [now left|].
    right. exists inner. split; [exact H|].
    rewrite settle_other; [exact P|]. intros E. now apply (Hi2 C inner).
  - intros it Hit. rewrite settle_other; [auto|].
    intros E. now apply (Ho it).
  - exact H4.
Qed.

Lemma item_alloc (w : World) (it : item) :
  tidy w -> In it (items w) ->
  In (outer it, (Outer, body it)) (alloc (log w)).
Proof.
  intros [F N P S R Q C L] H. unfold items in H.
  apply in_app_iff in H as [H|H]; [|auto].
  apply in_map_iff in H as ([inner it'] & E & H). cbn in E. subst it'.
  now destruct (R inner it H).
Qed.

Lemma handed_mild {ok : bool} (w w' : World) :
  mild w w' -> tidy w -> handed ok w -> handed ok w'.
Proof.
  induction 1 as [w|w1 w2 w3 M1 IH1 M2 IH2|f w F1 F2 F3 F4|q f w Hf|e w He
                 |q prq s w Hq Hc Ho|q prq j w Hq Hj Hc|w]; intros Ht Hh.
  - exact Hh.
  - apply IH2; [now apply (tidy_mild w1) | now apply IH1].
  - revert Hh. now apply handed_same.
  - revert Hh. destruct (setProc_fields q f w) as (Es & Ep & _ & _ & Eq & _ & Er).
    apply handed_same; now rewrite ?Es.
  - revert Hh. now apply handed_same.
  - pose proof Ht as [F N P S R Q C L]. destruct (P q prq Hq) as [P1 _].
    apply handed_settle; [exact Hh| | |].
    + intros it Hit E. pose proof (item_alloc w it Ht Hit) as A.
      rewrite E in A. pose proof (same_role _ _ _ _ N A P1) as X.
      discriminate X.
    + intros _ X. congruence.
    + intros _ inner Hin E. destruct (R _ _ Hin) as [R1 _]. cbn in R1.
      rewrite E in R1. pose proof (same_role _ _ _ _ N R1 P1) as X.
      discriminate X.
  - pose proof Ht as [F N P S R Q C L]. destruct (P q prq Hq) as [_ P2].
    pose proof (P2 j Hj) as P1.
    apply handed_settle; [exact Hh| | |].
    + intros it Hit E. pose proof (item_alloc w it Ht Hit) as A.
      rewrite E in A. pose proof (same_role _ _ _ _ N A P1) as X.
      discriminate X.
    + intros _ _ inner Hin E. destruct (R _ _ Hin) as [R1 _]. cbn in R1.
      rewrite E in R1. pose proof (same_role _ _ _ _ N R1 P1) as X.
      discriminate X.
    + intros X. congruence.
  - revert Hh. now apply handed_same.
Qed.

Lemma items_add (g : generator) (w : World) :
  (forall it, In it (items w) -> promises w !! outer it = Some Pending) ->
  List.NoDup (map outer (items w)) ->
  List.NoDup (map outer (items (fst (PromiseQueue.add g w))))
  /\ forall it, In it (items (fst (PromiseQueue.add g w))) ->
       promises (fst (PromiseQueue.add g w)) !! outer it = Some Pending.
Proof.
  intros H3 H4. unfold PromiseQueue.add, newPromise, items in *.
  cbn [fst record setQueue setPromises promises queue reactions].
  split.
  - rewrite List.app_assoc, map_app. cbn [map outer].
    apply NoDup_snoc; [exact H4|]. intros H.
    apply in_map_iff in H as (it & E & H). apply H3 in H.
    rewrite E in H. apply lookup_lt_Some in H. lia.
  - intros it H. rewrite List.app_assoc in H.
    apply in_app_iff in H as [H|[<-|[]]].
    + pose proof (H3 it H) as P. rewrite lookup_app_l; [exact P|].
      now apply lookup_lt_Some in P.
    + cbn [outer]. now apply list_lookup_middle.
Qed.

Lemma handed_open_call {ok : bool} (w : World) :
  handed ok w -> handed ok (fst (Mongod.open w)).
Proof.
  intros H. unfold Mongod.open. destruct (isOpening (server w)); [exact H|].
  destruct H as [H1 H2 H3 H4].
  destruct (items_add OpenBody
              (setServer (fun s => withClosing false (withOpening true s)) w)
              H3 H4) as [N O].
  revert N O. unfold PromiseQueue.add, newPromise. cbn [fst]. intros N O.
  split.
  - intros _ _. left. cbn [setServer record setQueue setPromises server queue
                           promises openPromise withOpenPromise].
    apply in_or_app. right. now left.
  - intros X. discriminate X.
  - exact O.
  - exact N.
Qed.

Lemma handed_close_call {ok : bool} (w : World) :
  handed ok w -> handed ok (fst (Mongod.close w)).
Proof.
  intros H. unfold Mongod.close. destruct (isClosing (server w)); [exact H|].
  destruct H as [H1 H2 H3 H4].
  destruct (items_add CloseBody
              (setServer (fun s => withOpening false (withClosing true s)) w)
              H3 H4) as [N O].
  revert N O. unfold PromiseQueue.add, newPromise. cbn [fst]. intros N O.
  split.
  - intros _ X. discriminate X.
  - intros _. left. cbn [setServer record setQueue setPromises server queue
                         promises closePromise withClosePromise].
    apply in_or_app. right. now left.
  - exact O.
  - exact N.
Qed.

Lemma handed_dequeue {ok : bool} (w w' : World) :
  (ok = true -> accepts (config (server w)) = true) ->
  held w -> uncaught w = false -> queueInv w -> handed ok w ->
  dequeue w = Some w' -> handed ok w'.
Proof.
  intros Hok Hh Hu Hq H. unfold dequeue.
  destruct (queue w) as [|it q] eqn:Q; [discriminate|].
  unfold PromiseQueue.canStart, PromiseQueue.maxPendingPromises.
  destruct (pendingPromises w <? 1)%nat eqn:C; [|discriminate].
  apply Nat.ltb_lt in C.
  assert (Hr : reactions w = []).
  { destruct (inv_count w Hq) as [E _]. destruct (reactions w); [reflexivity|].
    cbn in E. lia. }
  unfold newPromise.
  cbn [fst setPromises promises reactions pendingPromises].
  rewrite Hr. cbn [app].
  set (w1 := record _ _).
  assert (Hlt : forall it0, In it0 (it :: q) ->
                  (outer it0 < length (promises w))%nat).
  { intros it0 Hit. destruct H as [_ _ H3 _]. unfold items in H3.
    rewrite Hr, Q in H3. apply lookup_lt_Some with (x := Pending).
    now apply H3. }
  assert (W1 : forall g o, waiting g o w -> waiting g o w1).
  { intros g o [Hw|(inner & Hw & _)]; [|rewrite Hr in Hw; contradiction].
    rewrite Q in Hw. destruct Hw as [Hw|Hw].
    - right. exists (length (promises w)).
      split; [left; now rewrite Hw|].
      subst w1. cbn [record setQueue setPromises promises].
      now apply list_lookup_middle.
    - now left. }
  assert (H1 : handed ok w1).
  { destruct H as [H1 H2 H3 H4]. split; [auto | auto | |].
    - intros it0 Hit. subst w1. unfold items in *.
      cbn [record setQueue setPromises promises queue reactions map snd app]
        in *.
      rewrite Hr, Q in H3. cbn [map app] in H3.
      rewrite lookup_app_l; [now apply H3 | now apply Hlt].
    - subst w1. unfold items in *.
      cbn [record setQueue setPromises promises queue reactions map snd app].
      rewrite Hr, Q in H4. exact H4. }
  assert (Hfresh : forall it0, In it0 (items w1) ->
                     outer it0 <> length (promises w)).
  { intros it0 Hit E. apply Hlt in Hit. lia. }
  assert (Hre : reactions w1 = [(length (promises w), it)]) by reflexivity.
  intros E. injection E as <-. destruct (body it) eqn:B.
  - unfold Mongod.openBody.
    destruct (isClosing (server w1) || isRunning (server w1)).
    + apply handed_settle.
      * revert H1.
        apply handed_same; try reflexivity; cbn; first [discriminate | auto].
      * exact Hfresh.
      * intros _ X. discriminate X.
      * intros _ inner Hin _. cbn [setServer reactions] in Hin.
        rewrite Hre in Hin. destruct Hin as [Hin|[]].
        injection Hin as _ Hin. rewrite Hin in B. discriminate B.
    + cbn [emit record server].
      assert (Hcfg : config (server w1) = config (server w)) by reflexivity.
      rewrite Hcfg.
      destruct (ChildProcess.refusal (get (config (server w)) "bin")
                  (Mongod.parseFlags (config (server w)))) as [err|] eqn:Rf.
      * apply handed_settle.
        -- revert H1. now apply handed_same.
        -- exact Hfresh.
        -- intros K _. specialize (Hok K). unfold accepts in Hok.
           rewrite Rf in Hok. discriminate Hok.
        -- intros _ inner Hin _. cbn [emit record reactions] in Hin.
           rewrite Hre in Hin. destruct Hin as [Hin|[]].
           injection Hin as _ Hin. rewrite Hin in B. discriminate B.
      * revert H1. now apply handed_same.
  - unfold Mongod.closeBody.
    destruct (isOpening (server w1) || negb (isRunning (server w1))) eqn:D.
    + apply handed_settle.
      * revert H1.
        apply handed_same; try reflexivity; cbn; first [discriminate | auto].
      * exact Hfresh.
      * intros _ _ inner Hin _. cbn [setServer reactions] in Hin.
        rewrite Hre in Hin. destruct Hin as [Hin|[]].
        injection Hin as _ Hin. rewrite Hin in B. discriminate B.
      * intros X. discriminate X.
    + apply orb_false_elim in D as [_ D]. apply negb_false_iff in D.
      assert (Hh1 : held w1) by (revert Hh; now apply held_eq).
      pose proof (Hh1 Hu D) as Hp. unfold emit. cbn [record server].
      destruct (process (server w1)) as [k|] eqn:P; [|contradiction].
      rewrite setProc_record.
      destruct (setProc_fields k
                  (fun pr => withOnceClose
                               (onceClose pr ++ [length (promises w)]) pr) w1)
        as (Es & Ep & _ & _ & Eq & _ & Er).
      revert H1. apply handed_same;
        cbn [record server queue reactions promises]; now rewrite ?Es.
Qed.

Lemma handed_settled {ok : bool} (inner : nat) (w w' : World) :
  queueInv w -> handed ok w -> settled inner w = Some w' -> handed ok w'.
Proof.
  intros Hq H. unfold settled.
  destruct (find _ (reactions w)) as [[x it]|] eqn:Fd; [|discriminate].
  destruct (isSettled w inner) eqn:Hs; [|discriminate].
  intros E. injection E as <-.
  apply find_some in Fd as [Fin Fx]. cbn in Fx. apply Nat.eqb_eq in Fx.
  subst x. destruct (inv_count w Hq) as [_ Hle].
  destruct (reactions w) as [|r [|r' rs]] eqn:R;
    [contradiction| |cbn in Hle; lia].
  destruct Fin as [->|[]].
  unfold PromiseQueue.release. cbn [setQueue promises].
  rewrite R. cbn [List.filter fst]. rewrite Nat.eqb_refl. cbn [negb].
  set (w1 := setQueue _ _ _ w).
  destruct H as [H1 H2 H3 H4].
  assert (W1 : forall g o, waiting g o w -> waiting g o w1).
  { intros g o [Hw|(inner0 & Hw & P)]; [now left|].
    rewrite R in Hw. destruct Hw as [Hw|[]]. injection Hw as <- _.
    unfold isSettled in Hs. rewrite P in Hs. discriminate. }
  unfold items in H3, H4. rewrite R in H3, H4. cbn [map snd app] in H3, H4.
  apply List.NoDup_cons_iff in H4 as [Hno H4].
  assert (T1 : handed ok w1).
  { split; [auto | auto | |].
    - intros it0 Hit. apply H3. now right.
    - exact H4. }
  destruct (promises w !! inner) as [s|]; [|exact T1].
  apply handed_settle; [exact T1| | |].
  - intros it0 Hit E. apply Hno. rewrite <- E. now apply in_map.
  - intros _ _ inner0 [].
  - intros _ inner0 [].
Qed.

Lemma handed_exec {ok : bool} (a : action) (w w' : World) :
  (ok = true -> accepts (config (server w)) = true) ->
  held w -> tidy w -> queueInv w -> handed ok w ->
  exec a w = Some w' -> handed ok w'.
Proof.
  intros Hok Hh Ht Hq H. unfold exec. destruct (uncaught w) eqn:Hu; [discriminate|].
  destruct a as [| | |inner|p st chunk|p]; intros E.
  - injection E as <-. now apply handed_open_call.
  - injection E as <-. now apply handed_close_call.
  - now apply (handed_dequeue w).
  - now apply (handed_settled inner w).
  - apply (handed_mild w); [now apply mild_onData in E | exact Ht | exact H].
  - apply (handed_mild w); [now apply mild_onClose in E | exact Ht | exact H].
Qed.

Lemma handed_run {c : gmap string value} (acts : list action) :
  forall w w',
  sound c w -> held w -> tidy w -> queueInv w -> handed (accepts c) w ->
  run acts w = Some w' -> handed (accepts c) w'.
Proof.
  induction acts as [|a acts IH]; intros w w' H Hh Ht Hq Hd E; cbn [run] in E.
  - now injection E as <-.
  - destruct (exec a w) as [w1|] eqn:X; [|discriminate].
    destruct (sound_exec a w w1 H Hh X) as [H1 Hh1].
    apply (IH w1 w'); auto.
    + now apply (tidy_exec a w).
    + now apply (queueInv_exec a w).
    + apply (handed_exec a w); try assumption.
      now rewrite (sound_config c w H).
Qed.

Lemma handed_constructor {ok : bool} (configOrPort : value) :
  handed ok (Mongod.constructor configOrPort).
Proof.
  split; cbn; try (intros; discriminate); try (intros; contradiction).
  constructor.
Qed.

(** X27. Whatever the calls and the events: while [isClosing] is on, the
    promise that [close()] hands back to every caller is pending; and when
    [spawn] accepts the [bin] and the flags of the config, the promise that
    [open()] hands back is pending while [isOpening] is on. A call that
    is coalesced then never gets a promise that is settled. *)
Theorem handed_promise_is_pending (configOrPort : value)
    (acts : list action) (w : World) :
  run acts (Mongod.constructor configOrPort) = Some w ->
  (accepts (config (server (Mongod.constructor configOrPort))) = true ->
   isOpening (server w) = true ->
   promises w !! openPromise (server w) = Some Pending)
  /\ (isClosing (server w) = true ->
      promises w !! closePromise (server w) = Some Pending).
Proof.
  intros E.
  destruct (sound_constructor configOrPort) as [H Hh].
  pose proof (handed_run acts _ _ H Hh (tidy_constructor configOrPort)
                (queueInv_constructor configOrPort)
                (handed_constructor configOrPort) E) as [H1 H2 H3 H4].
  split.
  - intros A C.
    apply (H3 {| body := OpenBody; outer := openPromise (server w) |}).
    apply waiting_item. auto.
  - intros C.
    apply (H3 {| body := CloseBody; outer := closePromise (server w) |}).
    apply waiting_item. auto.
Qed.

End Handed.

(** ** The further theorems at concrete inputs *)

Lemma feed_terminated_lines_witness :
  Forall (fun c => hasLF c = true /\ endsCR c = false) brokenChunks
  /\ Aggregator.feed "" brokenChunks
     = Aggregator.terminatedLines (Aggregator.concat brokenChunks).
Proof.
  assert (H : Forall (fun c => hasLF c = true /\ endsCR c = false) brokenChunks)
    by (repeat (constructor; [split; reflexivity|]); constructor).
  split; [exact H | exact (feed_terminated_lines brokenChunks H)].
Defined.

Lemma feed_lines_without_LF_witness :
  noLF "" = true
  /\ Forall (fun line => noLF line = true)
       (Aggregator.feed "" ["ab"; "c" +:+ nl +:+ "d"]).
Proof.
  split; [reflexivity|].
  exact (feed_lines_without_LF ["ab"; "c" +:+ nl +:+ "d"] "" eq_refl).
Defined.

Lemma conf_overrides_dbpath_and_port_witness :
  notNullish (prop fileConfig "conf") = true
  /\ Mongod.parseFlags (Mongod.parseConfig fileConfig (Some Mongod.defaultConfig))
     = [VStr "--config"; prop fileConfig "conf"].
Proof.
  assert (H : notNullish (prop fileConfig "conf") = true)
    by (vm_compute; reflexivity).
  split; [exact H|].
  exact (conf_overrides_dbpath_and_port fileConfig (Some Mongod.defaultConfig) H).
Defined.

Lemma parseConfig_reads_four_fields_witness :
  (forall k, In k configKeys -> get journalConfig k = get plainConfig k)
  /\ Mongod.parseConfig (VObject journalConfig) None
     = Mongod.parseConfig (VObject plainConfig) None.
Proof.
  assert (H : forall k, In k configKeys -> get journalConfig k = get plainConfig k).
  { intros k [<-|[<-|[<-|[<-|[]]]]]; vm_compute; reflexivity. }
  split; [exact H|].
  exact (parseConfig_reads_four_fields journalConfig plainConfig None H).
Defined.

Lemma parseConfig_keeps_other_fields_witness :
  ~ In "nojournal" configKeys
  /\ Mongod.parseConfig fileConfig (Some journalConfig) !! "nojournal"
     = default ∅ (Some journalConfig) !! "nojournal".
Proof.
  assert (H : ~ In "nojournal" configKeys).
  { intros [H|[H|[H|[H|[]]]]]; discriminate H. }
  split; [exact H|].
  exact (parseConfig_keeps_other_fields fileConfig (Some journalConfig)
           "nojournal" H).
Defined.

Lemma classification_ignores_case_witness :
  fold "PID=12 Waiting For Connections" = fold "pid=12 waiting for connections"
  /\ map fold (RegExp.match_keyRE "PID=12 Waiting For Connections")
     = map fold (RegExp.match_keyRE "pid=12 waiting for connections")
  /\ map keyOf (RegExp.match_keyRE "PID=12 Waiting For Connections")
     = map keyOf (RegExp.match_keyRE "pid=12 waiting for connections").
Proof.
  split; [reflexivity|].
  exact (classification_ignores_case "PID=12 Waiting For Connections"
           "pid=12 waiting for connections" eq_refl).
Defined.

Lemma phrase_with_other_white_space_is_ignored_witness :
  (RegExp.waitingRE tabbedPhrase = Some (tabbedPhrase, "")
   \/ RegExp.inUseRE tabbedPhrase = Some (tabbedPhrase, "")
   \/ RegExp.deniedRE tabbedPhrase = Some (tabbedPhrase, ""))
  /\ spaced tabbedPhrase = false
  /\ forall inner w, Mongod.matchHandler inner tabbedPhrase w = (w, false).
Proof.
  assert (H : RegExp.waitingRE tabbedPhrase = Some (tabbedPhrase, "")
              \/ RegExp.inUseRE tabbedPhrase = Some (tabbedPhrase, "")
              \/ RegExp.deniedRE tabbedPhrase = Some (tabbedPhrase, ""))
    by (left; reflexivity).
  split; [exact H|]. split; [reflexivity|].
  exact (phrase_with_other_white_space_is_ignored tabbedPhrase tabbedPhrase ""
           H eq_refl).
Defined.

Lemma errorRE_singles_out_the_error_alternative_witness :
  In "error: boom" (RegExp.match_keyRE "port=1 error: boom")
  /\ (RegExp.errorRE_test "error: boom" = true
      <-> exists s r, RegExp.genericRE s = Some ("error: boom", r)).
Proof.
  assert (H : In "error: boom" (RegExp.match_keyRE "port=1 error: boom"))
    by (right; left; reflexivity).
  split; [exact H|].
  exact (errorRE_singles_out_the_error_alternative "port=1 error: boom"
           "error: boom" H).
Defined.

Lemma never_opening_and_closing_witness :
  run openCloseTrace (Mongod.constructor VUndefined) = Some openCloseWorld
  /\ isOpening (server openCloseWorld) && isClosing (server openCloseWorld)
     = false.
Proof.
  assert (H : run openCloseTrace (Mongod.constructor VUndefined)
              = Some openCloseWorld) by (vm_compute; reflexivity).
  split; [exact H|].
  exact (never_opening_and_closing VUndefined openCloseTrace openCloseWorld H).
Defined.

Lemma running_instance_holds_a_live_process_witness :
  run [CallOpen; Dequeue; Data 0 Stdout ("waiting for connections" +:+ nl)]
    (Mongod.constructor VUndefined) = Some readyWorld
  /\ (forall q, process (server readyWorld) = Some q ->
                exists pr, procs readyWorld !! q = Some pr /\ closed pr = false)
  /\ (uncaught readyWorld = false -> isRunning (server readyWorld) = true ->
      exists q, process (server readyWorld) = Some q).
Proof.
  assert (H : run [CallOpen; Dequeue;
                   Data 0 Stdout ("waiting for connections" +:+ nl)]
                (Mongod.constructor VUndefined) = Some readyWorld)
    by (vm_compute; reflexivity).
  split; [exact H|].
  exact (running_instance_holds_a_live_process VUndefined _ readyWorld H).
Defined.

Lemma promises_settle_as_classified_witness :
  run [CallOpen; Dequeue; Data 0 Stderr ("Error parsing option" +:+ nl)]
    (Mongod.constructor VUndefined) = Some rejectedWorld
  /\ promises rejectedWorld !! 3%nat
     = Some (Rejected (VError "Error" "Error parsing option" (VNum (-1))))
  /\ classified (config (server (Mongod.constructor VUndefined)))
       (Rejected (VError "Error" "Error parsing option" (VNum (-1))))
  /\ (accepts (config (server (Mongod.constructor VUndefined))) = true ->
      forall e,
        Rejected (VError "Error" "Error parsing option" (VNum (-1)))
        = Rejected e ->
        exists msg code, e = VError "Error" msg (VNum code)
                         /\ (code = -1 \/ code = -2 \/ code = -3)%Z).
Proof.
  assert (H : run [CallOpen; Dequeue;
                   Data 0 Stderr ("Error parsing option" +:+ nl)]
                (Mongod.constructor VUndefined) = Some rejectedWorld)
    by (vm_compute; reflexivity).
  assert (P : promises rejectedWorld !! 3%nat
              = Some (Rejected (VError "Error" "Error parsing option"
                                  (VNum (-1)))))
    by (vm_compute; reflexivity).
  split; [exact H|]. split; [exact P|].
  exact (promises_settle_as_classified VUndefined _ rejectedWorld 3 _ H P).
Defined.

Lemma spawn_with_opening_and_kill_with_closing_witness :
  run openCloseTrace (Mongod.constructor VUndefined) = Some openCloseWorld
  /\ spawned (log openCloseWorld)
     = (if accepts (config (server (Mongod.constructor VUndefined)))
        then emitted "opening" (log openCloseWorld) else 0%nat)
  /\ killed (log openCloseWorld) = emitted "closing" (log openCloseWorld).
Proof.
  assert (H : run openCloseTrace (Mongod.constructor VUndefined)
              = Some openCloseWorld) by (vm_compute; reflexivity).
  split; [exact H|].
  exact (spawn_with_opening_and_kill_with_closing VUndefined openCloseTrace
           openCloseWorld H).
Defined.

Lemma detached_stream_is_passed_on_witness :
  procs readyWorld !! 0%nat = Some detachedProc
  /\ attached detachedProc = false /\ closed detachedProc = false
  /\ uncaught readyWorld = false
  /\ exists w',
       run (deliveries 0 (map (pair Stdout) ["a" +:+ nl +:+ "b"; "c" +:+ nl]))
         readyWorld = Some w'
       /\ log w'
          = log readyWorld
            ++ map (fun l => Emit (streamName Stdout) [VStr l])
                 (Aggregator.feed (streamBuffer Stdout detachedProc)
                    ["a" +:+ nl +:+ "b"; "c" +:+ nl])
       /\ server w' = server readyWorld /\ promises w' = promises readyWorld.
Proof.
  assert (H : procs readyWorld !! 0%nat = Some detachedProc)
    by (vm_compute; reflexivity).
  assert (U : uncaught readyWorld = false) by (vm_compute; reflexivity).
  split; [exact H|]. split; [reflexivity|]. split; [reflexivity|].
  split; [exact U|].
  exact (detached_stream_is_passed_on 0 Stdout
           ["a" +:+ nl +:+ "b"; "c" +:+ nl] readyWorld detachedProc H
           eq_refl eq_refl U).
Defined.

Lemma close_of_a_stopped_instance_witness :
  atRest (Mongod.constructor VUndefined)
  /\ isRunning (server (Mongod.constructor VUndefined)) = false
  /\ exists w',
       run [CallClose; Dequeue; Settled 3] (Mongod.constructor VUndefined)
       = Some w'
       /\ promises w' !! 2%nat = Some (Resolved VNull)
       /\ procs w' = [] /\ atRest w'.
Proof.
  assert (H : atRest (Mongod.constructor VUndefined))
    by (unfold atRest; repeat split; reflexivity).
  split; [exact H|]. split; [reflexivity|].
  destruct (close_of_a_stopped_instance (Mongod.constructor VUndefined) H
              eq_refl) as (w' & E & _ & _ & P & _ & _ & Q & A).
  exists w'. split; [exact E|]. split; [exact P|]. split; [exact Q|exact A].
Defined.

Lemma open_of_a_running_instance_witness :
  atRest runningWorld /\ isRunning (server runningWorld) = true
  /\ exists w',
       run [CallOpen; Dequeue; Settled (S (length (promises runningWorld)))]
         runningWorld = Some w'
       /\ promises w' !! length (promises runningWorld) = Some (Resolved VNull)
       /\ isRunning (server w') = true
       /\ procs w' = procs runningWorld.
Proof.
  assert (H : atRest runningWorld)
    by (unfold atRest; repeat split; vm_compute; reflexivity).
  assert (R : isRunning (server runningWorld) = true)
    by (vm_compute; reflexivity).
  split; [exact H|]. split; [exact R|].
  destruct (open_of_a_running_instance runningWorld H R)
    as (w' & E & _ & _ & P & R' & _ & Q & _).
  exists w'. split; [exact E|]. split; [exact P|]. split; [exact R'|exact Q].
Defined.

Lemma close_of_a_running_instance_witness :
  atRest runningWorld /\ isRunning (server runningWorld) = true
  /\ process (server runningWorld) = Some 0%nat
  /\ procs runningWorld !! 0%nat = Some detachedProc
  /\ closed detachedProc = false /\ onceClose detachedProc = []
  /\ exists w1 w',
       run [CallClose; Dequeue] runningWorld = Some w1
       /\ promises w1 !! length (promises runningWorld) = Some Pending
       /\ run [ProcClose 0; Settled (S (length (promises runningWorld)))] w1
          = Some w'
       /\ promises w' !! length (promises runningWorld)
          = Some (Resolved VNull)
       /\ isRunning (server w') = false
       /\ process (server w') = None.
Proof.
  assert (H : atRest runningWorld)
    by (unfold atRest; repeat split; vm_compute; reflexivity).
  assert (R : isRunning (server runningWorld) = true)
    by (vm_compute; reflexivity).
  assert (Q : process (server runningWorld) = Some 0%nat)
    by (vm_compute; reflexivity).
  assert (P : procs runningWorld !! 0%nat = Some detachedProc)
    by (vm_compute; reflexivity).
  split; [exact H|]. split; [exact R|]. split; [exact Q|]. split; [exact P|].
  split; [reflexivity|]. split; [reflexivity|].
  destruct (close_of_a_running_instance runningWorld 0 detachedProc H R Q P
              eq_refl eq_refl)
    as (w1 & w' & E1 & P1 & _ & E2 & _ & _ & P2 & R2 & Q2 & _).
  exists w1, w'.
  split; [exact E1|]. split; [exact P1|]. split; [exact E2|].
  split; [exact P2|]. split; [exact R2|exact Q2].
Defined.

Lemma error_match_runs_to_the_end_witness :
  noCR "port=1 error: boom" = true
  /\ In "error: boom" (RegExp.match_keyRE "port=1 error: boom")
  /\ RegExp.errorRE_test "error: boom" = true
  /\ (exists pre, "port=1 error: boom" = pre +:+ "error: boom")
  /\ List.last (RegExp.match_keyRE "port=1 error: boom") "" = "error: boom".
Proof.
  assert (H : In "error: boom" (RegExp.match_keyRE "port=1 error: boom"))
    by (right; left; reflexivity).
  split; [reflexivity|]. split; [exact H|]. split; [reflexivity|].
  exact (error_match_runs_to_the_end "port=1 error: boom" "error: boom"
           eq_refl H eq_refl).
Defined.

Lemma open_of_a_stopped_instance_witness :
  atRest (Mongod.constructor VUndefined)
  /\ isRunning (server (Mongod.constructor VUndefined)) = false
  /\ accepts (config (server (Mongod.constructor VUndefined))) = true
  /\ exists w',
       run [CallOpen; Dequeue] (Mongod.constructor VUndefined) = Some w'
       /\ promises w' !! 2%nat = Some Pending
       /\ isOpening (server w') = true
       /\ process (server w') = Some 0%nat.
Proof.
  assert (H : atRest (Mongod.constructor VUndefined))
    by (unfold atRest; repeat split; reflexivity).
  assert (A : accepts (config (server (Mongod.constructor VUndefined)))
              = true) by (vm_compute; reflexivity).
  split; [exact H|]. split; [reflexivity|]. split; [exact A|].
  destruct (open_of_a_stopped_instance (Mongod.constructor VUndefined) H
              eq_refl A) as (w' & E & _ & _ & P & _ & O & Q & _).
  exists w'. split; [exact E|]. split; [exact P|]. split; [exact O|exact Q].
Defined.

Lemma close_is_never_rejected_witness :
  run openCloseTrace (Mongod.constructor VUndefined) = Some openCloseWorld
  /\ In (Enqueue {| body := CloseBody; outer := 4 |}) (log openCloseWorld)
  /\ (promises openCloseWorld !! 4%nat = Some Pending
      \/ promises openCloseWorld !! 4%nat = Some (Resolved VNull)).
Proof.
  assert (H : run openCloseTrace (Mongod.constructor VUndefined)
              = Some openCloseWorld) by (vm_compute; reflexivity).
  assert (I : In (Enqueue {| body := CloseBody; outer := 4 |})
                (log openCloseWorld))
    by (vm_compute; do 4 right; left; reflexivity).
  split; [exact H|]. split; [exact I|].
  exact (close_is_never_rejected VUndefined openCloseTrace openCloseWorld 4
           H I).
Defined.

Lemma closed_process_leaves_the_attempt_pending_witness :
  run [CallOpen; Dequeue; ProcClose 0] (Mongod.constructor VUndefined)
  = Some crashedWorld
  /\ procs crashedWorld !! 0%nat = Some closedProc
  /\ closed closedProc = true
  /\ promises crashedWorld !! settles closedProc = Some Pending
  /\ run [CallClose; CallOpen] crashedWorld = Some waitingWorld
  /\ promises waitingWorld !! settles closedProc = Some Pending
  /\ exec Dequeue waitingWorld = None
  /\ exec (Settled (settles closedProc)) waitingWorld = None.
Proof.
  assert (H1 : run [CallOpen; Dequeue; ProcClose 0]
                 (Mongod.constructor VUndefined) = Some crashedWorld)
    by (vm_compute; reflexivity).
  assert (H2 : procs crashedWorld !! 0%nat = Some closedProc)
    by (vm_compute; reflexivity).
  assert (H3 : promises crashedWorld !! settles closedProc = Some Pending)
    by (vm_compute; reflexivity).
  assert (H4 : run [CallClose; CallOpen] crashedWorld = Some waitingWorld)
    by (vm_compute; reflexivity).
  split; [exact H1|]. split; [exact H2|]. split; [reflexivity|].
  split; [exact H3|]. split; [exact H4|].
  exact (closed_process_leaves_the_attempt_pending VUndefined _ _
           crashedWorld waitingWorld 0 closedProc H1 H2 eq_refl H3 H4).
Defined.

Lemma restart_spawns_a_new_process_witness :
  atRest runningWorld /\ isRunning (server runningWorld) = true
  /\ process (server runningWorld) = Some 0%nat
  /\ procs runningWorld !! 0%nat = Some detachedProc
  /\ closed detachedProc = false /\ onceClose detachedProc = []
  /\ accepts (config (server runningWorld)) = true
  /\ exists w',
       run [CallClose; Dequeue; ProcClose 0;
            Settled (S (length (promises runningWorld)));
            CallOpen; Dequeue] runningWorld = Some w'
       /\ process (server w') = Some (length (procs runningWorld))
       /\ isOpening (server w') = true
       /\ promises w' !! length (promises runningWorld)
          = Some (Resolved VNull)
       /\ promises w' !! (2 + length (promises runningWorld))%nat
          = Some Pending.
Proof.
  assert (H : atRest runningWorld)
    by (unfold atRest; repeat split; vm_compute; reflexivity).
  assert (R : isRunning (server runningWorld) = true)
    by (vm_compute; reflexivity).
  assert (Q : process (server runningWorld) = Some 0%nat)
    by (vm_compute; reflexivity).
  assert (P : procs runningWorld !! 0%nat = Some detachedProc)
    by (vm_compute; reflexivity).
  assert (A : accepts (config (server runningWorld)) = true)
    by (vm_compute; reflexivity).
  split; [exact H|]. split; [exact R|]. split; [exact Q|]. split; [exact P|].
  split; [reflexivity|]. split; [reflexivity|]. split; [exact A|].
  destruct (restart_spawns_a_new_process runningWorld 0 detachedProc H R Q P
              eq_refl eq_refl A)
    as (w' & E & Q1 & O1 & _ & _ & _ & P1 & P2 & _).
  exists w'.
  split; [exact E|]. split; [exact Q1|]. split; [exact O1|].
  split; [exact P1|exact P2].
Defined.

Lemma handed_promise_is_pending_witness :
  run [CallOpen; Dequeue] (Mongod.constructor VUndefined) = Some startedWorld
  /\ (accepts (config (server (Mongod.constructor VUndefined))) = true ->
      isOpening (server startedWorld) = true ->
      promises startedWorld !! openPromise (server startedWorld)
      = Some Pending)
  /\ (isClosing (server startedWorld) = true ->
      promises startedWorld !! closePromise (server startedWorld)
      = Some Pending).
Proof.
  assert (H : run [CallOpen; Dequeue] (Mongod.constructor VUndefined)
              = Some startedWorld) by (vm_compute; reflexivity).
  split; [exact H|].
  exact (handed_promise_is_pending VUndefined [CallOpen; Dequeue]
           startedWorld H).
Defined.

Lemma open_with_a_refused_bin_witness :
  atRest (Mongod.constructor numberBin)
  /\ isRunning (server (Mongod.constructor numberBin)) = false
  /\ ChildProcess.refusal
       (get (config (server (Mongod.constructor numberBin))) "bin")
       (Mongod.parseFlags (config (server (Mongod.constructor numberBin))))
     = Some refusedBin
  /\ exists w1 w2,
       run [CallOpen; Dequeue] (Mongod.constructor numberBin) = Some w1
       /\ run [Settled 3] w1 = Some w2
       /\ promises w2 !! 2%nat = Some (Rejected refusedBin)
       /\ process (server w2) = None
       /\ isOpening (server w2) = true
       /\ Mongod.open w2 = (w2, 2%nat).
Proof.
  assert (H : atRest (Mongod.constructor numberBin))
    by (unfold atRest; repeat split; reflexivity).
  assert (R : ChildProcess.refusal
                (get (config (server (Mongod.constructor numberBin))) "bin")
                (Mongod.parseFlags
                   (config (server (Mongod.constructor numberBin))))
              = Some refusedBin) by (vm_compute; reflexivity).
  split; [exact H|]. split; [reflexivity|]. split; [exact R|].
  destruct (open_with_a_refused_bin (Mongod.constructor numberBin) refusedBin
              H eq_refl R)
    as (w1 & w2 & E1 & _ & _ & E2 & P & Q & _ & _ & O & _ & _ & C).
  exists w1, w2.
  split; [exact E1|]. split; [exact E2|]. split; [exact P|].
  split; [exact Q|]. split; [exact O|exact C].
Defined.
